(** * metro-xmas: the game-state and buzzer core of [backend/src/server.js]

    A shallow embedding of the SQLite tables of [backend/src/db.js] and of the
    Express handlers of [backend/src/server.js] that read and write them,
    followed by the properties of the buzzer protocol.

    Conventions of the embedding.
    - A table is the list of its rows in rowid (insertion) order.
    - A nullable TEXT column is an [option string]; an INTEGER flag that the
      server only ever writes as 0 or 1 is a [bool].
    - Scores and point values are integers in [Z].  The server binds every
      JavaScript number as a double, so [score = score + ?] is a floating
      point addition: it is the integer addition of [Z] as long as both
      operands and the sum are safe integers (at most 2^53 - 1 in absolute
      value, [safe_integer]), and rounds beyond.  Every statement below whose
      conclusion adds to a score carries that range as a hypothesis; the
      others do not look at the value of a score.  POST /api/questions stores
      the [points] of its body as they are: the embedding covers bodies whose
      [points] are an integer or not a finite number.  A number of any other
      request body is a rational, so that [Math.trunc] has something to
      truncate.
    - [new Date().toISOString()] and [uuidv4()] are inputs of the handlers.
      ISO timestamps are compared as SQLite compares TEXT, byte by byte, which
      is [String.compare].  Among rows with equal keys ORDER BY keeps the
      rowid order; no property below depends on that choice.
    - An INSERT that would repeat a primary key throws, and the Express error
      handler answers 500.  The foreign keys of the schema are never at
      stake: every handler checks the player before it inserts a row that
      names it and deletes the dependent rows before the player.
    - [trim] and [toLowerCase] are given on ASCII text.
    - A handler returns its HTTP response together with the database it
      leaves behind: the tables [players], [questions], [buzz_queue] and the
      row of [game_state].  Socket emission does not feed back into them and
      is left out.  The [events] table is modelled apart ([logEvent]): most
      handlers call [logEvent] after their last write, outside any
      transaction, and the response of a handler below is the one it sends
      when that INSERT goes through.  Were it to throw (a repeated event id),
      Express would answer 500 with the writes of the handler kept; no
      statement below speaks of that case. *)

From Stdlib Require Import ZArith List String Ascii Bool Lia.
From Stdlib Require Import QArith.
From Stdlib Require Import Sorted Permutation.
From Stdlib Require Import OrderedTypeEx.
From Stdlib Require Import DecimalString DecimalNat.
Import ListNotations.

Local Open Scope string_scope.
Local Open Scope list_scope.
Local Open Scope Z_scope.

(** ** JavaScript values at the edges *)

Module JS.

(** Truthiness of a value that is a string, [null] or [undefined]. *)
Definition truthy (v : option string) : bool :=
  match v with
  | Some s => negb (s =? "")%string
  | None => false
  end.

(** [a === b] on such values. *)
Definition strict_eq (a b : option string) : bool :=
  match a, b with
  | Some x, Some y => (x =? y)%string
  | None, None => true
  | _, _ => false
  end.

(** [s || d] for a string [s]. *)
Definition or_else (s : string) (d : string) : string :=
  if (s =? "")%string then d else s.

(** [a || b] on nullable strings. *)
Definition or_opt (a b : option string) : option string :=
  if truthy a then a else b.

Definition is_space (c : ascii) : bool :=
  let n := N_of_ascii c in
  ((9 <=? n) && (n <=? 13) || (n =? 32))%N.

Fixpoint trimStart (s : string) : string :=
  match s with
  | EmptyString => EmptyString
  | String c s' => if is_space c then trimStart s' else s
  end.

Fixpoint trimEnd (s : string) : string :=
  match s with
  | EmptyString => EmptyString
  | String c s' =>
      let r := trimEnd s' in
      if is_space c && (r =? "")%string then EmptyString else String c r
  end.

(** [String.prototype.trim], on ASCII text. *)
Definition trim (s : string) : string := trimEnd (trimStart s).

Definition lower_char (c : ascii) : ascii :=
  let n := N_of_ascii c in
  if ((65 <=? n) && (n <=? 90))%N then ascii_of_N (n + 32) else c.

(** [String.prototype.toLowerCase], on ASCII text. *)
Fixpoint toLowerCase (s : string) : string :=
  match s with
  | EmptyString => EmptyString
  | String c s' => String (lower_char c) (toLowerCase s')
  end.

(** [Math.trunc] of a finite number, given as a rational. *)
Definition Math_trunc (x : Q) : Z := Z.quot (Qnum x) (Z.pos (Qden x)).

(** [Number.isFinite(x) ? Math.trunc(x) : null]; [None] stands for every
    value that is not a finite number. *)
Definition finite_trunc (x : option Q) : option Z := option_map Math_trunc x.

(** [Number.isFinite(x) ? x : 0] for a nullable INTEGER column. *)
Definition finite_or_zero (x : option Z) : Z :=
  match x with Some n => n | None => 0 end.

End JS.

(** ** SQL: ORDER BY as a stable insertion sort *)

Section OrderBy.
Context {A : Type} (le : A -> A -> bool).

Fixpoint insert_row (x : A) (l : list A) : list A :=
  match l with
  | [] => [x]
  | y :: l' => if le x y then x :: l else y :: insert_row x l'
  end.

Definition order_by (l : list A) : list A := fold_right insert_row [] l.

(** [LIMIT 1] followed by [.get()]. *)
Definition first_row (l : list A) : option A := hd_error l.
End OrderBy.

(** ** Tables ([backend/src/db.js]) *)

Record player := mk_player {
  p_id : string;
  p_name : string;
  p_slug : option string;
  p_score : Z;
  p_photo_url : option string;
  p_created_at : string
}.

Record question := mk_question {
  q_id : string;
  q_player_id : string;
  q_question_text : string;
  q_answer : string;
  q_category : option string;
  q_points : option Z;
  q_selected_for_game : bool;
  q_used_in_game : bool;
  q_created_at : string
}.

Record buzz_row := mk_buzz {
  b_id : string;
  b_player_id : string;
  b_buzz_time : string;
  b_created_at : string
}.

Inductive game_status := waiting | active | ended.

Definition game_status_eqb (a b : game_status) : bool :=
  match a, b with
  | waiting, waiting | active, active | ended, ended => true
  | _, _ => false
  end.

(** The single row of [game_state]. *)
Record GameState := mk_state {
  status : game_status;
  current_question_id : option string;
  current_category : option string;
  current_points : option Z;
  current_is_placeholder : bool;
  current_clue_text : option string;
  current_answer_text : option string;
  turn_player_id : option string;
  buzzer_locked : bool;
  last_buzz_player_id : option string;
  last_buzz_time : option string;
  question_reading : bool
}.

Record db := mk_db {
  players : list player;
  questions : list question;
  buzz_queue : list buzz_row;
  game_state : GameState
}.

(** The row inserted by [INSERT INTO game_state (id) VALUES (1)]: every
    column at its default. *)
Definition initial_game_state : GameState :=
  mk_state waiting None None None false None None None false None None false.

(** A database in which players and questions have been registered and no
    game has been played yet. *)
Definition initial_db (ps : list player) (qs : list question) : db :=
  mk_db ps qs [] initial_game_state.

Definition set_players (d : db) (ps : list player) : db :=
  mk_db ps (questions d) (buzz_queue d) (game_state d).
Definition set_questions (d : db) (qs : list question) : db :=
  mk_db (players d) qs (buzz_queue d) (game_state d).
Definition set_buzz_queue (d : db) (bq : list buzz_row) : db :=
  mk_db (players d) (questions d) bq (game_state d).
Definition set_game_state (d : db) (g : GameState) : db :=
  mk_db (players d) (questions d) (buzz_queue d) g.

(** *** getGameState / updateGameState *)

Definition getGameState (d : db) : GameState := game_state d.

(** One [key=@key] setter of the UPDATE statement built from a patch. *)
Inductive setter :=
| set_status (v : game_status)
| set_current_question_id (v : option string)
| set_current_category (v : option string)
| set_current_points (v : option Z)
| set_current_is_placeholder (v : bool)
| set_current_clue_text (v : option string)
| set_current_answer_text (v : option string)
| set_turn_player_id (v : option string)
| set_buzzer_locked (v : bool)
| set_last_buzz_player_id (v : option string)
| set_last_buzz_time (v : option string)
| set_question_reading (v : bool).

Definition apply_setter (g : GameState) (s : setter) : GameState :=
  match g with
  | mk_state st qid cat pts ph clue ans turn locked lbp lbt reading =>
      match s with
      | set_status v => mk_state v qid cat pts ph clue ans turn locked lbp lbt reading
      | set_current_question_id v => mk_state st v cat pts ph clue ans turn locked lbp lbt reading
      | set_current_category v => mk_state st qid v pts ph clue ans turn locked lbp lbt reading
      | set_current_points v => mk_state st qid cat v ph clue ans turn locked lbp lbt reading
      | set_current_is_placeholder v => mk_state st qid cat pts v clue ans turn locked lbp lbt reading
      | set_current_clue_text v => mk_state st qid cat pts ph v ans turn locked lbp lbt reading
      | set_current_answer_text v => mk_state st qid cat pts ph clue v turn locked lbp lbt reading
      | set_turn_player_id v => mk_state st qid cat pts ph clue ans v locked lbp lbt reading
      | set_buzzer_locked v => mk_state st qid cat pts ph clue ans turn v lbp lbt reading
      | set_last_buzz_player_id v => mk_state st qid cat pts ph clue ans turn locked v lbt reading
      | set_last_buzz_time v => mk_state st qid cat pts ph clue ans turn locked lbp v reading
      | set_question_reading v => mk_state st qid cat pts ph clue ans turn locked lbp lbt v
      end
  end.

(** [updateGameState(patch)]: the patch is the list of its entries; an empty
    patch only reads the row. *)
Definition updateGameState (d : db) (patch : list setter) : db :=
  match patch with
  | [] => d
  | _ => set_game_state d (fold_left apply_setter patch (game_state d))
  end.

(** [!!state.current_question_id || !!state.current_is_placeholder] *)
Definition clueActive (g : GameState) : bool :=
  JS.truthy (current_question_id g) || current_is_placeholder g.

(** ** The static default-question pack

    [default_questions.json] is required by [server.js] but is data, not
    code; its content is a parameter of the development. *)

Record default_question := mk_default {
  dq_category : string;
  dq_points : Z;
  dq_questionText : string;
  dq_answer : string
}.

(** ** Requests and responses *)

Record select_card_body := mk_select {
  sc_questionId : option string;
  sc_category : option string;
  sc_points : option Q;
  sc_force : bool;
  sc_pickerPlayerId : option string
}.

Inductive response :=
| Error (code : Z) (error : string)
| StateJson (state : GameState)
| BuzzJson (queued : bool) (reason : option string)
           (position : option nat) (state : option GameState)
| ResolveJson (state : GameState) (scores : list player)
| OkJson.

(** An operation of the database layer either returns or throws (a violated
    PRIMARY KEY or UNIQUE constraint); a throw reaches the Express error
    handler, which answers 500. *)
Definition internal_error : response := Error 500 "Internal server error".

Definition buzz_time_leb (a b : buzz_row) : bool :=
  String.leb (b_buzz_time a) (b_buzz_time b).

(** [ORDER BY score DESC, created_at ASC] *)
Definition scoreboard_leb (a b : player) : bool :=
  match (p_score b ?= p_score a)%Z with
  | Lt => true
  | Gt => false
  | Eq => String.leb (p_created_at a) (p_created_at b)
  end.

Section Server.

Variable defaultQuestions : list default_question.

(** *** Buzz queue *)

(** [listBuzzQueue]: the queue joined with its players, earliest first. *)
Definition listBuzzQueue (d : db) : list (buzz_row * player) :=
  order_by (fun x y => buzz_time_leb (fst x) (fst y))
    (flat_map
       (fun b => map (fun p => (b, p))
                   (filter (fun p => (p_id p =? b_player_id b)%string) (players d)))
       (buzz_queue d)).

Definition clearBuzzQueue (d : db) : db := set_buzz_queue d [].

Record enqueue_result := mk_enqueue { queued : bool; reason : option string }.

(** [enqueueBuzz(playerId, buzzTime)]; [uuid] and [created_at] are the
    values of [uuidv4()] and of the second clock reading.  [None]: the
    INSERT violated the primary key of [buzz_queue]. *)
Definition enqueueBuzz (d : db) (playerId buzzTime uuid created_at : string)
  : option (enqueue_result * db) :=
  if existsb (fun b => (b_player_id b =? playerId)%string) (buzz_queue d)
  then Some (mk_enqueue false (Some "already_queued"), d)
  else if existsb (fun b => (b_id b =? uuid)%string) (buzz_queue d)
  then None
  else Some (mk_enqueue true None,
             set_buzz_queue d
               (buzz_queue d ++ [mk_buzz uuid playerId buzzTime created_at])).

(** [dequeueNextBuzz]: the row with the least [buzz_time], deleted by id. *)
Definition dequeueNextBuzz (d : db) : option buzz_row * db :=
  match first_row (order_by buzz_time_leb (buzz_queue d)) with
  | None => (None, d)
  | Some next =>
      (Some next,
       set_buzz_queue d
         (filter (fun b => negb (b_id b =? b_id next)%string) (buzz_queue d)))
  end.

(** *** Default questions *)

Definition default_matches (cat : string) (pts : Z) (q : default_question) : bool :=
  (JS.toLowerCase (JS.trim (dq_category q)) =? cat)%string && (dq_points q =? pts).

Definition findDefaultQuestion (category : option string) (points : option Z)
  : option default_question :=
  match category, points with
  | Some c, Some p =>
      if (c =? "")%string then None
      else find (default_matches (JS.toLowerCase (JS.trim c)) p) defaultQuestions
  | _, _ => None
  end.

(** [ensureSystemPlayer]: the player with slug 'house', created if absent. *)
Definition ensureSystemPlayer (d : db) (uuid now : string) : option (player * db) :=
  match find (fun p => JS.strict_eq (p_slug p) (Some "house")) (players d) with
  | Some existing => Some (existing, d)
  | None =>
      if existsb (fun p => (p_id p =? uuid)%string) (players d) then None
      else
        let p := mk_player uuid "House Questions" (Some "house") 0 None now in
        Some (p, set_players d (players d ++ [p]))
  end.

Definition opt_string_is (a b : option string) : bool := JS.strict_eq a b.

Definition opt_Z_is (a b : option Z) : bool :=
  match a, b with
  | Some x, Some y => x =? y
  | None, None => true
  | _, _ => false
  end.

(** The body of the seeding transaction: one pass over the pack.  The
    [k]-th inserted row takes [uuid k] as its id. *)
Fixpoint seed_rows (system_id : string) (selectForGame : bool)
    (uuid : nat -> string) (now : string)
    (pack : list default_question) (qs : list question) (inserted : nat)
  : option (list question * nat) :=
  match pack with
  | [] => Some (qs, inserted)
  | q :: rest =>
      let cat := if (dq_category q =? "")%string then None
                 else Some (JS.trim (dq_category q)) in
      let pts := dq_points q in
      let qText := JS.trim (dq_questionText q) in
      let ans := JS.trim (dq_answer q) in
      if (qText =? "")%string || (ans =? "")%string
         || negb (JS.truthy cat) || (pts =? 0)
      then seed_rows system_id selectForGame uuid now rest qs inserted
      else if existsb
                (fun r => (q_player_id r =? system_id)%string
                          && (q_question_text r =? qText)%string
                          && (q_answer r =? ans)%string
                          && opt_string_is (q_category r) cat
                          && opt_Z_is (q_points r) (Some pts)) qs
      then seed_rows system_id selectForGame uuid now rest qs inserted
      else if existsb (fun r => (q_id r =? uuid inserted)%string) qs
      then None
      else seed_rows system_id selectForGame uuid now rest
             (qs ++ [mk_question (uuid inserted) system_id qText ans cat
                       (Some pts) selectForGame false now])
             (S inserted)
  end.

(** [seedDefaultQuestions({selectForGame})].  A throw inside the
    transaction rolls the questions back; the system player, inserted
    before it, stays. *)
Definition seedDefaultQuestions (d : db) (selectForGame : bool)
    (system_uuid : string) (uuid : nat -> string) (now_player now : string)
  : option (nat * player) * db :=
  match ensureSystemPlayer d system_uuid now_player with
  | None => (None, d)
  | Some (system, d1) =>
      match seed_rows (p_id system) selectForGame uuid now
              defaultQuestions (questions d1) 0 with
      | None => (None, d1)
      | Some (qs, inserted) => (Some (inserted, system), set_questions d1 qs)
      end
  end.

(** *** POST /api/game/select-card *)

Definition mark_used (questionId : string) (qs : list question) : list question :=
  map (fun q =>
         if (q_id q =? questionId)%string
         then mk_question (q_id q) (q_player_id q) (q_question_text q) (q_answer q)
                (q_category q) (q_points q) (q_selected_for_game q) true
                (q_created_at q)
         else q) qs.

(** [pts] and [cat] of the handler: the requested tile, normalised. *)
Definition tile_points (body : select_card_body) : option Z :=
  JS.finite_trunc (sc_points body).

Definition tile_category (body : select_card_body) : option string :=
  match sc_category body with
  | Some c => if (c =? "")%string then None else Some (JS.trim c)
  | None => None
  end.

(** The 409 guard: a clue is on display and the request is not forced. *)
Definition clue_conflict (state0 : GameState) (body : select_card_body) : bool :=
  clueActive state0 && negb (sc_force body).

(** The 403 guard: it is somebody's turn, the request is not forced, and
    the picker is missing or somebody else. *)
Definition not_your_turn (state0 : GameState) (body : select_card_body) : bool :=
  JS.truthy (turn_player_id state0) && negb (sc_force body)
  && (negb (JS.truthy (sc_pickerPlayerId body))
      || negb (JS.strict_eq (sc_pickerPlayerId body) (turn_player_id state0))).

Definition select_card (d : db) (body : select_card_body) : response * db :=
  let pts := tile_points body in
  let cat := tile_category body in
  let state0 := getGameState d in
  if clue_conflict state0 body
  then (Error 409 "A clue is already active", d)
  else if not_your_turn state0 body
  then (Error 403 "Not your turn", d)
  else if negb (JS.truthy (sc_questionId body))
  then
    let d1 := clearBuzzQueue d in
    let fallback := findDefaultQuestion cat pts in
    let clue := match fallback with
                | Some f => JS.or_else (dq_questionText f) "N/A"
                | None => "N/A"
                end in
    let answer := match fallback with
                  | Some f => JS.or_else (dq_answer f) "N/A"
                  | None => "N/A"
                  end in
    let d2 := updateGameState d1
                [ set_current_question_id None;
                  set_current_category cat;
                  set_current_points pts;
                  set_current_is_placeholder true;
                  set_current_clue_text (Some clue);
                  set_current_answer_text (Some answer);
                  set_buzzer_locked false;
                  set_last_buzz_player_id None;
                  set_last_buzz_time None ] in
    (StateJson (getGameState d2), d2)
  else
    let questionId := match sc_questionId body with Some i => i | None => "" end in
    match find (fun q => (q_id q =? questionId)%string) (questions d) with
    | None => (Error 404 "Question not found", d)
    | Some q =>
        if negb (sc_force body) && negb (q_selected_for_game q)
        then (Error 400 "Question not selected", d)
        else if negb (sc_force body) && q_used_in_game q
        then (Error 409 "Card already used", d)
        else
          let d1 := set_questions d (mark_used questionId (questions d)) in
          let d2 := clearBuzzQueue d1 in
          let d3 := updateGameState d2
                      [ set_current_question_id (Some questionId);
                        set_current_category (JS.or_opt (q_category q) cat);
                        set_current_points
                          (match q_points q with Some n => Some n | None => pts end);
                        set_current_is_placeholder false;
                        set_current_clue_text None;
                        set_current_answer_text None;
                        set_buzzer_locked false;
                        set_last_buzz_player_id None;
                        set_last_buzz_time None ] in
          (StateJson (getGameState d3), d3)
    end.

(** *** POST /api/game/reset-board *)

Definition all_unused (qs : list question) : list question :=
  map (fun q =>
         mk_question (q_id q) (q_player_id q) (q_question_text q) (q_answer q)
           (q_category q) (q_points q) (q_selected_for_game q) false
           (q_created_at q)) qs.

Definition reset_board (d : db) : response * db :=
  let d1 := set_questions d (all_unused (questions d)) in
  let d2 := updateGameState d1
              [ set_current_question_id None;
                set_current_category None;
                set_current_points None;
                set_current_is_placeholder false;
                set_current_clue_text None;
                set_current_answer_text None;
                set_buzzer_locked false;
                set_last_buzz_player_id None;
                set_last_buzz_time None ] in
  (StateJson (getGameState d2), d2).

(** *** POST /api/game/start *)

Definition start_game (d : db) (system_uuid : string) (uuid : nat -> string)
    (now_player now : string) : response * db :=
  let selectedCount := List.length (filter q_selected_for_game (questions d)) in
  let seeded :=
    if (selectedCount =? 0)%nat
    then match seedDefaultQuestions d true system_uuid uuid now_player now with
         | (None, d') => (false, d')
         | (Some _, d') => (true, d')
         end
    else (true, d) in
  match seeded with
  | (false, d') => (internal_error, d')
  | (true, d1) =>
      let d2 := set_questions d1 (all_unused (questions d1)) in
      let d3 := updateGameState d2
                  [ set_status active;
                    set_current_question_id None;
                    set_current_category None;
                    set_current_points None;
                    set_current_is_placeholder false;
                    set_current_clue_text None;
                    set_current_answer_text None;
                    set_turn_player_id None;
                    set_buzzer_locked false;
                    set_last_buzz_player_id None;
                    set_last_buzz_time None ] in
      let d4 := clearBuzzQueue d3 in
      (StateJson (getGameState d3), d4)
  end.

(** *** POST /api/game/end *)

Definition end_game (d : db) : response * db :=
  let d1 := updateGameState d [ set_status ended; set_buzzer_locked true ] in
  let d2 := clearBuzzQueue d1 in
  (StateJson (getGameState d1), d2).

(** *** POST /api/game/reset *)

Definition reset_game (d : db) : response * db :=
  let d1 := updateGameState d
              [ set_status waiting;
                set_current_question_id None;
                set_current_category None;
                set_current_points None;
                set_current_is_placeholder false;
                set_current_clue_text None;
                set_current_answer_text None;
                set_turn_player_id None;
                set_buzzer_locked false;
                set_last_buzz_player_id None;
                set_last_buzz_time None ] in
  let d2 := clearBuzzQueue d1 in
  (StateJson (getGameState d1), d2).

(** *** POST /api/game/unlock-buzzer *)

Definition unlock_buzzer (d : db) : response * db :=
  let d1 := updateGameState d
              [ set_buzzer_locked false;
                set_last_buzz_player_id None;
                set_last_buzz_time None ] in
  let d2 := clearBuzzQueue d1 in
  (StateJson (getGameState d1), d2).

(** *** POST /api/game/buzz

    [now] is the clock reading of the handler; [uuid] and [created_at]
    feed the INSERT of [enqueueBuzz]. *)

Definition buzz (d : db) (playerId : option string)
    (now uuid created_at : string) : response * db :=
  if negb (JS.truthy playerId) then (Error 400 "playerId is required", d)
  else
    let pid := match playerId with Some i => i | None => "" end in
    match find (fun p => (p_id p =? pid)%string) (players d) with
    | None => (Error 404 "Player not found", d)
    | Some _ =>
        let state := getGameState d in
        if negb (game_status_eqb (status state) active)
        then (Error 400 "Game is not active", d)
        else if negb (clueActive state)
        then (Error 400 "No active clue", d)
        else if buzzer_locked state
        then
          if JS.strict_eq (last_buzz_player_id state) (Some pid)
          then (BuzzJson false (Some "already_current") None None, d)
          else
            match enqueueBuzz d pid now uuid created_at with
            | None => (internal_error, d)
            | Some (r, d1) =>
                (BuzzJson (queued r) (reason r)
                   (Some (List.length (listBuzzQueue d1))) None, d1)
            end
        else
          let d1 := updateGameState d
                      [ set_buzzer_locked true;
                        set_last_buzz_player_id (Some pid);
                        set_last_buzz_time (Some now) ] in
          (BuzzJson false None None (Some (getGameState d1)), d1)
    end.

(** *** POST /api/admin/resolve-current *)

(** The [delta] of the handler: the stored points of a placeholder, the
    catalog points of a real clue; [None] when the catalog row is gone. *)
Definition clue_delta (d : db) : option Z :=
  let state := getGameState d in
  if current_is_placeholder state
  then Some (JS.finite_or_zero (current_points state))
  else
    match find (fun q => JS.strict_eq (Some (q_id q)) (current_question_id state))
            (questions d) with
    | None => None
    | Some question => Some (JS.finite_or_zero (q_points question))
    end.

(** [UPDATE players SET score = score + ? WHERE id = ?], on safe integers
    (see [safe_integer]): the sum of the code is the sum of doubles. *)
Definition add_score (delta : Z) (playerId : string) (ps : list player) : list player :=
  map (fun p =>
         if (p_id p =? playerId)%string
         then mk_player (p_id p) (p_name p) (p_slug p) (p_score p + delta)
                (p_photo_url p) (p_created_at p)
         else p) ps.

Definition resolve_current (d : db) (playerId : option string)
    (correct : option bool) (nextNow : string) : response * db :=
  match JS.truthy playerId, correct with
  | true, Some correct =>
      let pid := match playerId with Some i => i | None => "" end in
      let state := getGameState d in
      if negb (JS.truthy (current_question_id state))
         && negb (current_is_placeholder state)
      then (Error 400 "No current question", d)
      else
        match clue_delta d with
        | None => (Error 404 "Question not found", d)
        | Some delta =>
            let updated :=
              if correct
              then
                let d1 := set_players d (add_score delta pid (players d)) in
                let d2 := clearBuzzQueue d1 in
                updateGameState d2
                  [ set_current_question_id None;
                    set_current_category None;
                    set_current_points None;
                    set_current_is_placeholder false;
                    set_current_clue_text None;
                    set_current_answer_text None;
                    set_turn_player_id (Some pid);
                    set_buzzer_locked false;
                    set_last_buzz_player_id None;
                    set_last_buzz_time None ]
              else
                match dequeueNextBuzz d with
                | (Some next, d1) =>
                    updateGameState d1
                      [ set_current_question_id (current_question_id state);
                        set_current_category (current_category state);
                        set_current_points (current_points state);
                        set_current_is_placeholder (current_is_placeholder state);
                        set_current_clue_text (current_clue_text state);
                        set_current_answer_text (current_answer_text state);
                        set_buzzer_locked true;
                        set_last_buzz_player_id (Some (b_player_id next));
                        set_last_buzz_time (Some nextNow) ]
                | (None, d1) =>
                    updateGameState d1
                      [ set_current_question_id (current_question_id state);
                        set_current_category (current_category state);
                        set_current_points (current_points state);
                        set_current_is_placeholder (current_is_placeholder state);
                        set_current_clue_text (current_clue_text state);
                        set_current_answer_text (current_answer_text state);
                        set_buzzer_locked false;
                        set_last_buzz_player_id None;
                        set_last_buzz_time None ]
                end in
            let scores := order_by scoreboard_leb (players updated) in
            (ResolveJson (getGameState updated) scores, updated)
        end
  | _, _ => (Error 400 "playerId and correct are required", d)
  end.

(** *** DELETE /api/admin/players/:id *)

Definition delete_player (d : db) (id : string) : response * db :=
  match find (fun p => (p_id p =? id)%string) (players d) with
  | None => (Error 404 "Player not found", d)
  | Some _ =>
      let d1 := set_questions d
                  (filter (fun q => negb (q_player_id q =? id)%string) (questions d)) in
      let d2 := set_buzz_queue d1
                  (filter (fun b => negb (b_player_id b =? id)%string) (buzz_queue d1)) in
      let state := getGameState d2 in
      let patch :=
        (if JS.strict_eq (turn_player_id state) (Some id)
         then [ set_turn_player_id None ] else [])
        ++ (if JS.strict_eq (last_buzz_player_id state) (Some id)
            then [ set_buzzer_locked false;
                   set_last_buzz_player_id None;
                   set_last_buzz_time None ]
            else []) in
      let d3 := updateGameState d2 patch in
      let d4 := set_players d3
                  (filter (fun p => negb (p_id p =? id)%string) (players d3)) in
      (OkJson, d4)
  end.

(** ** Reachable databases

    One step is one request to one of the core operations, with any
    body and any clock and uuid values. *)

Inductive step (d : db) : db -> Prop :=
| step_select_card body : step d (snd (select_card d body))
| step_buzz playerId now uuid created_at :
    step d (snd (buzz d playerId now uuid created_at))
| step_resolve_current playerId correct nextNow :
    step d (snd (resolve_current d playerId correct nextNow))
| step_start_game system_uuid uuid now_player now :
    step d (snd (start_game d system_uuid uuid now_player now))
| step_end_game : step d (snd (end_game d))
| step_reset_game : step d (snd (reset_game d))
| step_reset_board : step d (snd (reset_board d))
| step_unlock_buzzer : step d (snd (unlock_buzzer d))
| step_delete_player id : step d (snd (delete_player d id)).

Inductive reachable : db -> Prop :=
| reachable_initial ps qs : reachable (initial_db ps qs)
| reachable_step d d' : reachable d -> step d d' -> reachable d'.

End Server.

(** * Vocabulary of the properties *)

(** ** Predicates on databases *)

(** The invariant of the data model: a locked buzzer has a holder and a
    clue on display. *)
Definition lock_implies_holder_and_clue (d : db) : Prop :=
  buzzer_locked (game_state d) = true ->
  JS.truthy (last_buzz_player_id (game_state d)) = true
  /\ clueActive (game_state d) = true.

(** The holder of the lock is a registered player. *)
Definition holder_is_player (d : db) : Prop :=
  buzzer_locked (game_state d) = true ->
  exists p, In p (players d) /\ last_buzz_player_id (game_state d) = Some (p_id p).

(** Every queued buzz belongs to a registered player with a non-empty id. *)
Definition queue_of_players (d : db) : Prop :=
  forall b, In b (buzz_queue d) ->
    b_player_id b <> "" /\ exists p, In p (players d) /\ p_id p = b_player_id b.

(** What every core operation preserves. *)
Definition core_invariant (d : db) : Prop :=
  queue_of_players d
  /\ (status (game_state d) <> ended ->
      lock_implies_holder_and_clue d /\ holder_is_player d).

(** The queue holds no row with this id: the INSERT of [enqueueBuzz] cannot
    violate the primary key. *)
Definition fresh_buzz_id (d : db) (uuid : string) : Prop :=
  forall b, In b (buzz_queue d) -> b_id b <> uuid.

(** [Number.isSafeInteger]: the integers on which the arithmetic of doubles
    is the arithmetic of [Z]. *)
Definition safe_integer (z : Z) : Prop :=
  - 9007199254740991 <= z <= 9007199254740991.

(** A non-empty id that names a row of [players]. *)
Definition known_player (d : db) (pid : string) : Prop :=
  pid <> "" /\ exists p, In p (players d) /\ p_id p = pid.

(** The lock as the clients see it: the flag and the holder. *)
Definition lock_of (d : db) : bool * option string :=
  (buzzer_locked (game_state d), last_buzz_player_id (game_state d)).

(** [SELECT score FROM players WHERE id = ?] *)
Definition score_of (d : db) (playerId : string) : option Z :=
  option_map p_score (find (fun p => (p_id p =? playerId)%string) (players d)).


(** ** What the resolution handler writes *)

(** The state row after a correct answer. *)
Definition state_after_correct (g : GameState) (pid : string) : GameState :=
  mk_state (status g) None None None false None None (Some pid)
    false None None (question_reading g).

(** The state row after a wrong answer: the clue stays, the lock changes. *)
Definition state_after_wrong (g : GameState) (locked : bool)
    (holder time : option string) : GameState :=
  mk_state (status g) (current_question_id g) (current_category g)
    (current_points g) (current_is_placeholder g) (current_clue_text g)
    (current_answer_text g) (turn_player_id g) locked holder time
    (question_reading g).

(** The database after three buzzes in a row. *)
Definition three_buzzes (d : db) (a b c t1 t2 t3 u1 u2 u3 k1 k2 k3 : string) : db :=
  snd (buzz (snd (buzz (snd (buzz d (Some a) t1 u1 k1)) (Some b) t2 u2 k2))
         (Some c) t3 u3 k3).

(** The database after [pid] has been marked wrong. *)
Definition marked_wrong (d : db) (pid nextNow : string) : db :=
  snd (resolve_current d (Some pid) (Some false) nextNow).

(** ** Tiles *)

(** An empty tile: category and points, no question id. *)
Definition empty_tile (category : string) (points : Z) (picker : option string)
  : select_card_body :=
  mk_select None (Some category) (Some (inject_Z points)) false picker.

(** The same request, sent by another picker. *)
Definition with_picker (body : select_card_body) (picker : option string)
  : select_card_body :=
  mk_select (sc_questionId body) (sc_category body) (sc_points body)
    (sc_force body) picker.

(** An entry of the pack matches the requested tile: same points, same
    category up to surrounding blanks and letter case. *)
Definition matches_tile (body : select_card_body) (q : default_question) : Prop :=
  exists c p,
    tile_category body = Some c /\ tile_points body = Some p /\ c <> ""
    /\ JS.toLowerCase (JS.trim (dq_category q)) = JS.toLowerCase (JS.trim c)
    /\ dq_points q = p.

(** The tile is otherwise valid: it is an empty tile, or its question is in
    the catalog, selected for the game and not used yet. *)
Definition valid_tile (d : db) (body : select_card_body) : Prop :=
  JS.truthy (sc_questionId body) = false
  \/ exists i q,
       sc_questionId body = Some i
       /\ find (fun q => (q_id q =? i)%string) (questions d) = Some q
       /\ q_selected_for_game q = true
       /\ q_used_in_game q = false.

(** * Sample databases for the closed examples *)

Definition alice : player :=
  mk_player "p-alice" "Alice" (Some "alice") 0 None "2024-12-01T10:00:00.000Z".
Definition bob : player :=
  mk_player "p-bob" "Bob" (Some "bob") 0 None "2024-12-01T10:01:00.000Z".
Definition carol : player :=
  mk_player "p-carol" "Carol" (Some "carol") 0 None "2024-12-01T10:02:00.000Z".
Definition dave : player :=
  mk_player "p-dave" "Dave" (Some "dave") 0 None "2024-12-01T10:03:00.000Z".

(** A pack entry shaped like the one the repository's API test expects:
    Disney & Pixar for 200, a clue that mentions Frozen, the answer Olaf. *)
Definition olaf : default_question :=
  mk_default "Disney & Pixar" 200
    "In Frozen, this snowman likes warm hugs" "Olaf".

Definition sample_pack : list default_question := [olaf].

(** A question submitted by Dave and selected for the game. *)
Definition dave_question : question :=
  mk_question "q-1" "p-dave" "Who pulls Santa's sleigh?" "Reindeer"
    (Some "Holidays") (Some 100) true false "2024-12-01T11:00:00.000Z".

(** The lobby right after POST /api/game/end. *)
Definition ended_lobby : db := snd (end_game (initial_db [alice] [])).

(** The game has started and no tile has been picked yet. *)
Definition started : db :=
  snd (start_game sample_pack (initial_db [alice; bob] [])
         "p-house" (fun _ => "q-0")
         "2024-12-24T18:00:00.000Z" "2024-12-24T18:00:00.001Z").

(** A game in progress: started, an empty tile picked, Alice on the buzzer. *)
Definition alice_locked : db :=
  snd (buzz
         (snd (select_card sample_pack
                 (snd (start_game sample_pack (initial_db [alice; bob] [])
                         "p-house" (fun _ => "q-0")
                         "2024-12-24T18:00:00.000Z" "2024-12-24T18:00:00.001Z"))
                 (empty_tile "Disney & Pixar" 200 None)))
         (Some "p-alice") "2024-12-24T18:05:00.000Z" "b-1"
         "2024-12-24T18:05:00.001Z").

(** Alice holds the lock on an empty tile and Bob is queued behind her. *)
Definition bob_queued : db :=
  snd (buzz alice_locked (Some "p-bob") "2024-12-24T18:05:01.000Z" "b-2"
         "2024-12-24T18:05:01.001Z").

(** Alice answered the empty tile correctly: it is her turn to pick. *)
Definition alice_turn : db :=
  snd (resolve_current alice_locked (Some "p-alice") (Some true)
         "2024-12-24T18:05:20.000Z").

(** Dave's question is on display, Alice holds the lock and Bob is queued. *)
Definition before_delete : db :=
  snd (buzz
         (snd (buzz
                 (snd (select_card sample_pack
                         (snd (start_game sample_pack
                                 (initial_db [alice; bob; dave] [dave_question])
                                 "p-house" (fun _ => "q-0")
                                 "2024-12-24T18:00:00.000Z"
                                 "2024-12-24T18:00:00.001Z"))
                         (mk_select (Some "q-1") (Some "Holidays")
                            (Some (inject_Z 100)) false None)))
                 (Some "p-alice") "2024-12-24T18:05:00.000Z" "b-1"
                 "2024-12-24T18:05:00.001Z"))
         (Some "p-bob") "2024-12-24T18:05:01.000Z" "b-2"
         "2024-12-24T18:05:01.001Z").

(** The admin then deletes Dave, and with him his questions: the clue on
    display has lost its catalog row. *)
Definition orphan_clue : db := snd (delete_player before_delete "p-dave").

(** Four players; Dave holds the lock on an empty tile. *)
Definition dave_locked : db :=
  snd (buzz
         (snd (select_card sample_pack
                 (snd (start_game sample_pack
                         (initial_db [alice; bob; carol; dave] [])
                         "p-house" (fun _ => "q-0")
                         "2024-12-24T18:00:00.000Z" "2024-12-24T18:00:00.001Z"))
                 (empty_tile "Disney & Pixar" 200 None)))
         (Some "p-dave") "2024-12-24T18:05:00.000Z" "b-0"
         "2024-12-24T18:05:00.001Z").

(** Alice, Bob and Carol buzz behind Dave, one second apart. *)
Definition abc_queued : db :=
  three_buzzes dave_locked "p-alice" "p-bob" "p-carol"
    "2024-12-24T18:05:01.000Z" "2024-12-24T18:05:02.000Z" "2024-12-24T18:05:03.000Z"
    "b-1" "b-2" "b-3"
    "2024-12-24T18:05:01.001Z" "2024-12-24T18:05:02.001Z" "2024-12-24T18:05:03.001Z".

(** Each in turn is marked wrong. *)
Definition dave_wrong : db :=
  marked_wrong abc_queued "p-dave" "2024-12-24T18:05:10.000Z".
Definition alice_wrong : db :=
  marked_wrong dave_wrong "p-alice" "2024-12-24T18:05:20.000Z".
Definition bob_wrong : db :=
  marked_wrong alice_wrong "p-bob" "2024-12-24T18:05:30.000Z".
Definition carol_wrong : db :=
  marked_wrong bob_wrong "p-carol" "2024-12-24T18:05:40.000Z".

(** * The rest of the API

    The handlers of [server.js] that the statements above do not quote:
    registration, the question catalog, the admin adjustments, the sound
    names and the activity log. *)

(** ** Replies *)

Inductive reply :=
| Refused (code : Z) (error : string)
| PlayerCreated (p : player)
| PlayerJson (p : option player)
| QuestionCreated (q : question)
| SelectedJson (id : string) (selectedForGame : bool)
| PointsJson (id : string) (points : option Z)
| ScoreJson (playerId : string) (score : option Z)
| SeedJson (inserted : nat) (system : player)
| GameStateJson (state : GameState)
| MetaJson (row : option question).

Definition server_error : reply := Refused 500 "Internal server error".

(** ** Slugs *)

Definition is_slug_char (c : ascii) : bool :=
  let n := N_of_ascii c in
  ((97 <=? n) && (n <=? 122) || (48 <=? n) && (n <=? 57))%N.

(** [.replace(/[^a-z0-9]+/g, '')] *)
Fixpoint keep_slug_chars (s : string) : string :=
  match s with
  | EmptyString => EmptyString
  | String c s' =>
      if is_slug_char c then String c (keep_slug_chars s') else keep_slug_chars s'
  end.

(** [slugify(name)], on ASCII names. *)
Definition slugify (name : string) : string :=
  JS.or_else
    (substring 0 40 (keep_slug_chars (JS.trim (JS.toLowerCase name))))
    "player".

(** [SELECT 1 FROM players WHERE slug = ?] *)
Definition slug_taken (d : db) (slug : string) : bool :=
  existsb (fun p => JS.strict_eq (p_slug p) (Some slug)) (players d).

(** The template [`${baseSlug}-${counter}`]. *)
Definition slug_candidate (baseSlug : string) (counter : nat) : string :=
  baseSlug ++ "-" ++ NilEmpty.string_of_uint (Nat.to_uint counter).

(** The [while] loop of [ensureUniqueSlug], with the number of iterations
    left; [counter] and [slug] are its two variables. *)
Fixpoint unique_slug_loop (fuel : nat) (d : db) (baseSlug : string)
    (counter : nat) (slug : string) : option string :=
  match fuel with
  | O => None
  | S fuel' =>
      if slug_taken d slug
      then unique_slug_loop fuel' d baseSlug (S counter)
             (slug_candidate baseSlug (S counter))
      else Some slug
  end.

(** [ensureUniqueSlug(baseSlug)]: one more iteration than there are players
    is always enough (see [ensureUniqueSlug_total]). *)
Definition ensureUniqueSlug (d : db) (baseSlug : string) : option string :=
  unique_slug_loop (S (List.length (players d))) d baseSlug 1 baseSlug.

Definition findPlayerBySlug (d : db) (slug : string) : option player :=
  find (fun p => JS.strict_eq (p_slug p) (Some slug)) (players d).

(** ** POST /api/players *)

Definition create_player (d : db) (name photoUrl : option string)
    (uuid now : string) : reply * db :=
  match name with
  | None => (Refused 400 "Name is required", d)
  | Some name =>
      if (name =? "")%string then (Refused 400 "Name is required", d)
      else
        match ensureUniqueSlug d (slugify name) with
        | None => (server_error, d)
        | Some slug =>
            let player :=
              mk_player uuid (JS.trim name) (Some slug) 0
                (JS.or_opt photoUrl None) now in
            if existsb (fun p => (p_id p =? uuid)%string) (players d)
               || slug_taken d slug
            then (server_error, d)
            else (PlayerCreated player, set_players d (players d ++ [player]))
        end
  end.

(** ** PATCH /api/players/:slug

    [photoUrl] is absent ([None]), or present with a value that may be
    falsy. *)

Definition update_player (id : string) (name slug : option string)
    (photo : option (option string)) (ps : list player) : list player :=
  map (fun p =>
         if (p_id p =? id)%string
         then mk_player (p_id p)
                (match name with Some n => n | None => p_name p end)
                (match slug with Some s => Some s | None => p_slug p end)
                (p_score p)
                (match photo with Some v => v | None => p_photo_url p end)
                (p_created_at p)
         else p) ps.

Definition patch_player (d : db) (slug : string) (name : option string)
    (photoUrl : option (option string)) : reply * db :=
  match findPlayerBySlug d slug with
  | None => (Refused 404 "Player not found", d)
  | Some current =>
      let new_name :=
        match name with
        | Some n => if (JS.trim n =? "")%string then None else Some (JS.trim n)
        | None => None
        end in
      let new_slug :=
        match new_name with
        | Some n => ensureUniqueSlug d (slugify n)
        | None => None
        end in
      let new_photo := option_map (fun v => JS.or_opt v None) photoUrl in
      match new_name, new_slug, new_photo with
      | None, _, None => (PlayerJson (Some current), d)
      | Some _, None, _ => (server_error, d)
      | _, _, _ =>
          let d1 := set_players d
                      (update_player (p_id current) new_name new_slug new_photo
                         (players d)) in
          let lookup := match new_slug with
                        | Some s => if (s =? "")%string then slug else s
                        | None => slug
                        end in
          (PlayerJson (findPlayerBySlug d1 lookup), d1)
      end
  end.

(** ** POST /api/questions

    The handler stores a finite [points] as it is, a fraction included.
    The points of the embedding are integers: [points] is the integer of
    the body, or [None] when the body's [points] is not a finite number. *)

Definition add_question (d : db)
    (playerId questionText answer category : option string) (points : option Z)
    (uuid now : string) : reply * db :=
  if negb (JS.truthy playerId) || negb (JS.truthy questionText)
     || negb (JS.truthy answer)
  then (Refused 400 "playerId, questionText, and answer are required", d)
  else
    let pid := match playerId with Some i => i | None => "" end in
    let text := match questionText with Some t => t | None => "" end in
    let ans := match answer with Some a => a | None => "" end in
    match find (fun p => (p_id p =? pid)%string) (players d) with
    | None => (Refused 404 "Player not found", d)
    | Some _ =>
        let q := mk_question uuid pid (JS.trim text) (JS.trim ans)
                   (match category with
                    | Some c => if (c =? "")%string then None else Some (JS.trim c)
                    | None => None
                    end)
                   points false false now in
        if existsb (fun r => (q_id r =? uuid)%string) (questions d)
        then (server_error, d)
        else (QuestionCreated q, set_questions d (questions d ++ [q]))
    end.

(** ** POST /api/admin/questions/:id/select *)

Definition set_selected (id : string) (selected : bool) (qs : list question)
  : list question :=
  map (fun q =>
         if (q_id q =? id)%string
         then mk_question (q_id q) (q_player_id q) (q_question_text q) (q_answer q)
                (q_category q) (q_points q) selected (q_used_in_game q)
                (q_created_at q)
         else q) qs.

Definition admin_select_question (d : db) (id : string) (selected : option bool)
  : reply * db :=
  match selected with
  | None => (Refused 400 "selected must be boolean", d)
  | Some b =>
      if existsb (fun q => (q_id q =? id)%string) (questions d)
      then (SelectedJson id b, set_questions d (set_selected id b (questions d)))
      else (Refused 404 "Question not found", d)
  end.

(** ** PATCH /api/admin/questions/:id/points *)

Definition set_points (id : string) (val : option Z) (qs : list question)
  : list question :=
  map (fun q =>
         if (q_id q =? id)%string
         then mk_question (q_id q) (q_player_id q) (q_question_text q) (q_answer q)
                (q_category q) val (q_selected_for_game q) (q_used_in_game q)
                (q_created_at q)
         else q) qs.

Definition set_question_points (d : db) (id : string) (points : option Q)
  : reply * db :=
  let val := JS.finite_trunc points in
  if existsb (fun q => (q_id q =? id)%string) (questions d)
  then (PointsJson id val, set_questions d (set_points id val (questions d)))
  else (Refused 404 "Question not found", d).

(** ** PATCH /api/admin/questions/:id/meta

    [category] and [points] are absent ([None]) or present.  A present
    category is a string ([String(category)] is taken at the edge) or a
    falsy value ([Some None]); present points are a finite number or
    something else ([Some None]).  The handler does not log. *)

Definition set_meta (id : string) (category : option (option string))
    (points : option (option Z)) (qs : list question) : list question :=
  map (fun q =>
         if (q_id q =? id)%string
         then mk_question (q_id q) (q_player_id q) (q_question_text q) (q_answer q)
                (match category with Some c => c | None => q_category q end)
                (match points with Some v => v | None => q_points q end)
                (q_selected_for_game q) (q_used_in_game q) (q_created_at q)
         else q) qs.

Definition set_question_meta (d : db) (id : string)
    (category : option (option string)) (points : option (option Q))
  : reply * db :=
  let new_category :=
    option_map (fun c => match c with
                         | Some s => if (s =? "")%string then None
                                     else Some (JS.trim s)
                         | None => None
                         end) category in
  let new_points := option_map JS.finite_trunc points in
  match new_category, new_points with
  | None, None => (Refused 400 "No updates provided", d)
  | _, _ =>
      if existsb (fun q => (q_id q =? id)%string) (questions d)
      then
        let d1 := set_questions d
                    (set_meta id new_category new_points (questions d)) in
        (MetaJson (find (fun q => (q_id q =? id)%string) (questions d1)), d1)
      else (Refused 404 "Question not found", d)
  end.

(** ** POST /api/admin/seed-defaults *)

Definition seed_defaults (pack : list default_question) (d : db)
    (selectForGame : option bool) (system_uuid : string) (uuid : nat -> string)
    (now_player now : string) : reply * db :=
  match seedDefaultQuestions pack d
          (match selectForGame with Some b => b | None => true end)
          system_uuid uuid now_player now with
  | (None, d') => (server_error, d')
  | (Some (inserted, system), d') => (SeedJson inserted system, d')
  end.

(** ** POST /api/admin/set-turn *)

Definition set_turn (d : db) (playerId : option string) : reply * db :=
  if negb (JS.truthy playerId) then (Refused 400 "playerId is required", d)
  else
    match find (fun p => JS.strict_eq (Some (p_id p)) playerId) (players d) with
    | None => (Refused 404 "Player not found", d)
    | Some _ =>
        let d1 := updateGameState d [ set_turn_player_id playerId ] in
        (GameStateJson (getGameState d1), d1)
    end.

(** ** POST /api/admin/players/:id/score

    [Number(x)] is taken at the edge.  [score] is [None] when the body's
    score is undefined or null, [Some None] when its number is not finite;
    [delta] is [None] when its number is not finite.  The sum of the delta
    branch is the code's on safe integers (see [safe_integer]).  The
    [score_adjust] event that the handler logs before it answers is not
    part of [db]. *)

Definition set_score (id : string) (f : Z -> Z) (ps : list player) : list player :=
  map (fun p =>
         if (p_id p =? id)%string
         then mk_player (p_id p) (p_name p) (p_slug p) (f (p_score p))
                (p_photo_url p) (p_created_at p)
         else p) ps.

Definition adjust_score (d : db) (id : string) (score : option (option Q))
    (delta : option Q) : reply * db :=
  match find (fun p => (p_id p =? id)%string) (players d) with
  | None => (Refused 404 "Player not found", d)
  | Some _ =>
      match score with
      | Some None => (Refused 400 "score must be a number", d)
      | Some (Some s) =>
          let newScore := JS.Math_trunc s in
          (ScoreJson id (Some newScore),
           set_players d (set_score id (fun _ => newScore) (players d)))
      | None =>
          match delta with
          | None => (Refused 400 "delta must be a number", d)
          | Some x =>
              let appliedDelta := JS.Math_trunc x in
              let d1 := set_players d
                          (set_score id (fun s => s + appliedDelta) (players d)) in
              (ScoreJson id (score_of d1 id), d1)
          end
      end
  end.

(** ** POST /api/game/current-question *)

Definition current_question (d : db) (questionId : option string) : reply * db :=
  if negb (JS.truthy questionId) then (Refused 400 "questionId is required", d)
  else
    match find (fun q => JS.strict_eq (Some (q_id q)) questionId) (questions d) with
    | None => (Refused 404 "Question not found", d)
    | Some _ =>
        let d1 := updateGameState d [ set_current_question_id questionId ] in
        (GameStateJson (getGameState d1), d1)
    end.

(** ** Sound names *)

(** [raw.endsWith(suffix)] and [raw.slice(0, -k)]. *)
Definition endsWith (s suffix : string) : bool :=
  (String.length suffix <=? String.length s)%nat
  && (substring (String.length s - String.length suffix) (String.length suffix) s
      =? suffix)%string.

Definition drop_last (k : nat) (s : string) : string :=
  substring 0 (String.length s - k) s.

Definition sfx_names : list string := ["buzzer"; "tick"; "correct"; "wrong"].

(** [normalizeSfxName(name)], on ASCII names. *)
Definition normalizeSfxName (name : string) : option string :=
  let raw := JS.toLowerCase (JS.trim name) in
  let base := if endsWith raw ".wav" then drop_last 4 raw else raw in
  if existsb (String.eqb base) sfx_names then Some base else None.

(** ** The activity log

    The [events] table is written by [logEvent] alone and read by
    [listEvents] alone; it is kept apart from [db]. *)

Record event := mk_event {
  e_id : string;
  e_type : string;
  e_message : string;
  e_data_json : option string;
  e_created_at : string
}.

(** [ORDER BY created_at DESC] *)
Definition newest_first (a b : event) : bool :=
  String.leb (e_created_at b) (e_created_at a).

(** [logEvent(req, type, message, data)]: the INSERT, then the pruning
    DELETE.  [data_json] is [JSON.stringify(data)], or [None] for falsy
    data.  [None] as a result: the INSERT violated the primary key. *)
Definition logEvent (events : list event) (type message : string)
    (data_json : option string) (uuid now : string)
  : option (event * list event) :=
  let evt := mk_event uuid type message data_json now in
  if existsb (fun e => (e_id e =? uuid)%string) events then None
  else
    let inserted := events ++ [evt] in
    let keep := map e_id (firstn 300 (order_by newest_first inserted)) in
    Some (evt, filter (fun e => existsb (String.eqb (e_id e)) keep) inserted).

(** A JavaScript number: [Number(limit)] of the query string. *)
Inductive js_number :=
| Finite (q : Q)
| NaN
| PlusInfinity
| MinusInfinity.

(** [x || 100] *)
Definition or_100 (x : js_number) : js_number :=
  match x with
  | Finite q => if Qeq_bool q 0 then Finite 100 else x
  | NaN => Finite 100
  | _ => x
  end.

(** [Math.min(500, x)] and [Math.max(1, x)] *)
Definition min_500 (x : js_number) : js_number :=
  match x with
  | Finite q => if Qle_bool q 500 then Finite q else Finite 500
  | PlusInfinity => Finite 500
  | MinusInfinity => MinusInfinity
  | NaN => NaN
  end.

Definition max_1 (x : js_number) : js_number :=
  match x with
  | Finite q => if Qle_bool 1 q then Finite q else Finite 1
  | PlusInfinity => PlusInfinity
  | MinusInfinity => Finite 1
  | NaN => NaN
  end.

(** The [lim] of [listEvents(limit)]. *)
Definition events_limit (limit : js_number) : js_number :=
  max_1 (min_500 (or_100 limit)).

(** ** Predicates on strings and on the players table *)

Fixpoint string_forall (f : ascii -> bool) (s : string) : bool :=
  match s with
  | EmptyString => true
  | String c s' => f c && string_forall f s'
  end.

(** The slugs in use; the unique index of the table ignores NULL. *)
Definition slugs (ps : list player) : list string :=
  flat_map (fun p => match p_slug p with Some s => [s] | None => [] end) ps.

(** The constraints of the players table: primary key and unique index. *)
Definition roster_ok (d : db) : Prop :=
  NoDup (map p_id (players d)) /\ NoDup (slugs (players d)).

(** The candidate of the [counter]-th pass of the loop. *)
Definition nth_candidate (baseSlug : string) (counter : nat) : string :=
  if (counter =? 1)%nat then baseSlug else slug_candidate baseSlug counter.

(** The foreign key of the questions table. *)
Definition questions_of_players (d : db) : Prop :=
  incl (map q_player_id (questions d)) (map p_id (players d)).

(** The constraints of the players and questions tables. *)
Definition schema_ok (d : db) : Prop :=
  roster_ok d /\ NoDup (map q_id (questions d)) /\ questions_of_players d.

(** ** Every request that writes

    One step of the API: a core operation, or one of the handlers above.
    Together they are the routes of [server.js] that write [players],
    [questions], [buzz_queue] or [game_state]; the remaining writing route,
    the upload of a sound, writes [sfx_files] and the log alone. *)

Inductive admin_step (pack : list default_question) (d : db) : db -> Prop :=
| step_create_player name photoUrl uuid now :
    admin_step pack d (snd (create_player d name photoUrl uuid now))
| step_patch_player slug name photoUrl :
    admin_step pack d (snd (patch_player d slug name photoUrl))
| step_add_question playerId questionText answer category points uuid now :
    admin_step pack d
      (snd (add_question d playerId questionText answer category points uuid now))
| step_admin_select_question id selected :
    admin_step pack d (snd (admin_select_question d id selected))
| step_set_question_points id points :
    admin_step pack d (snd (set_question_points d id points))
| step_seed_defaults selectForGame system_uuid uuid now_player now :
    admin_step pack d
      (snd (seed_defaults pack d selectForGame system_uuid uuid now_player now))
| step_set_turn playerId : admin_step pack d (snd (set_turn d playerId))
| step_adjust_score id score delta :
    admin_step pack d (snd (adjust_score d id score delta))
| step_current_question questionId :
    admin_step pack d (snd (current_question d questionId))
| step_set_question_meta id category points :
    admin_step pack d (snd (set_question_meta d id category points)).

Inductive api_step (pack : list default_question) (d d' : db) : Prop :=
| api_core : step pack d d' -> api_step pack d d'
| api_admin : admin_step pack d d' -> api_step pack d d'.

Inductive api_reachable (pack : list default_question) : db -> Prop :=
| api_reachable_initial ps qs : api_reachable pack (initial_db ps qs)
| api_reachable_step d d' :
    api_reachable pack d -> api_step pack d d' -> api_reachable pack d'.

(** ** Relations between the database before and after a request *)

(** The queue after a request is the old queue with some rows deleted, or
    the old queue with one new row whose id and player are new to it. *)
Definition queue_change (old new : list buzz_row) : Prop :=
  (exists keep, new = filter keep old)
  \/ (exists r, new = old ++ [r]
               /\ ~ In (b_player_id r) (map b_player_id old)
               /\ ~ In (b_id r) (map b_id old)).

(** No handler outside the core looks at the lock or the queue: it keeps the
    queue, the status and the lock, keeps every player id, and never takes
    the clue off display. *)
Definition keeps_buzzer (d d' : db) : Prop :=
  buzz_queue d' = buzz_queue d
  /\ (forall id, (exists p, In p (players d) /\ p_id p = id) ->
                 exists p, In p (players d') /\ p_id p = id)
  /\ status (game_state d') = status (game_state d)
  /\ buzzer_locked (game_state d') = buzzer_locked (game_state d)
  /\ last_buzz_player_id (game_state d') = last_buzz_player_id (game_state d)
  /\ last_buzz_time (game_state d') = last_buzz_time (game_state d)
  /\ (clueActive (game_state d) = true -> clueActive (game_state d') = true).

(** ** Seeding *)

(** The row of the catalog that stands for a pack entry. *)
Definition seed_match (system_id qText ans : string) (cat : option string)
    (pts : Z) (r : question) : bool :=
  (q_player_id r =? system_id)%string
  && (q_question_text r =? qText)%string
  && (q_answer r =? ans)%string
  && opt_string_is (q_category r) cat
  && opt_Z_is (q_points r) (Some pts).

(** A pack entry needs no row: it is one the loop skips, or its row is
    there. *)
Definition seed_settled (system_id : string) (qs : list question)
    (q : default_question) : bool :=
  let cat := if (dq_category q =? "")%string then None
             else Some (JS.trim (dq_category q)) in
  ((JS.trim (dq_questionText q) =? "")%string
   || (JS.trim (dq_answer q) =? "")%string
   || negb (JS.truthy cat) || (dq_points q =? 0))
  || existsb (seed_match system_id (JS.trim (dq_questionText q))
                (JS.trim (dq_answer q)) cat (dq_points q)) qs.

(** * Sample databases for the rest of the API *)

(** Two registered players, nothing else. *)
Definition lobby : db := initial_db [alice; bob] [].

(** The system player that owns the default questions. *)
Definition house : player :=
  mk_player "p-house" "House Questions" (Some "house") 0 None
    "2024-12-24T17:00:00.000Z".

(** The lobby after POST /api/admin/seed-defaults. *)
Definition seeded : db :=
  snd (seedDefaultQuestions sample_pack lobby true "p-house" (fun _ => "q-0")
         "2024-12-24T17:00:00.000Z" "2024-12-24T17:00:00.001Z").

(** Three players and Dave's selected question; the game has started. *)
Definition quiz : db := initial_db [alice; bob; dave] [dave_question].

Definition quiz_started : db :=
  snd (start_game sample_pack quiz "p-house" (fun _ => "q-0")
         "2024-12-24T18:00:00.000Z" "2024-12-24T18:00:00.001Z").

(** The request that picks Dave's question. *)
Definition dave_card : select_card_body :=
  mk_select (Some "q-1") (Some "Holidays") (Some (inject_Z 100)) false None.

(** A forced pick of an empty tile. *)
Definition forced_tile : select_card_body :=
  mk_select None (Some "Disney & Pixar") (Some (inject_Z 200)) true None.

(** The game has started and an empty tile is on display; nobody has
    buzzed. *)
Definition tile_open : db :=
  snd (select_card sample_pack started (empty_tile "Disney & Pixar" 200 None)).

(** The request that picks the question Alice is about to submit. *)
Definition alice_card : select_card_body :=
  mk_select (Some "q-9") None None false None.

(** Two rows of the activity log. *)
Definition two_events : list event :=
  [ mk_event "e-1" "game_start" "Game started" None "2024-12-24T18:00:00.000Z";
    mk_event "e-2" "buzz" "Alice buzzed first" None "2024-12-24T18:05:00.000Z" ].

(** * Properties *)

(** ** Byte order on timestamps *)

Lemma string_leb_iff (a b : string) :
  String.leb a b = true <-> String_as_OT.lt a b \/ a = b.
Proof.
  unfold String.leb.
  destruct (String.compare a b) eqn:E.
  - apply String_as_OT.cmp_eq in E. intuition.
  - apply String_as_OT.cmp_lt in E. intuition.
  - split; [discriminate|].
    intros [H | H].
    + apply String_as_OT.cmp_lt in H. unfold String_as_OT.cmp in H. congruence.
    + apply String_as_OT.cmp_eq in H. unfold String_as_OT.cmp in H. congruence.
Qed.

Lemma string_leb_refl (a : string) : String.leb a a = true.
Proof. apply string_leb_iff. now right. Qed.

Lemma string_leb_trans (a b c : string) :
  String.leb a b = true -> String.leb b c = true -> String.leb a c = true.
Proof.
  rewrite !string_leb_iff.
  intros [H1 | ->] [H2 | ->]; auto.
  left. eapply String_as_OT.lt_trans; eauto.
Qed.

Lemma string_ltb_leb (a b : string) :
  String.ltb a b = true -> String.leb a b = true.
Proof.
  unfold String.ltb, String.leb. destruct (String.compare a b); congruence.
Qed.

Lemma string_ltb_not_leb (a b : string) :
  String.ltb a b = true -> String.leb b a = false.
Proof.
  unfold String.ltb, String.leb. rewrite (String.compare_antisym b a).
  destruct (String.compare a b); simpl; congruence.
Qed.

(** ** ORDER BY sorts and keeps the rows *)

Section OrderByFacts.
Context {A : Type} (le : A -> A -> bool).
Hypothesis le_total : forall a b, le a b = true \/ le b a = true.
Hypothesis le_trans : forall a b c, le a b = true -> le b c = true -> le a c = true.

Let R (a b : A) : Prop := le a b = true.

Lemma insert_row_perm (x : A) (l : list A) :
  Permutation (insert_row le x l) (x :: l).
Proof.
  induction l as [|y l IH]; simpl; [reflexivity|].
  destruct (le x y); [reflexivity|].
  rewrite IH. apply perm_swap.
Qed.

Lemma order_by_perm (l : list A) : Permutation (order_by le l) l.
Proof.
  induction l as [|x l IH]; simpl; [constructor|].
  rewrite insert_row_perm. now constructor.
Qed.

Lemma insert_row_hd (a x : A) (l : list A) :
  HdRel R a l -> R a x -> HdRel R a (insert_row le x l).
Proof.
  intros Hl Hx. destruct l as [|y l]; simpl.
  - now constructor.
  - destruct (le x y); constructor; auto. now inversion Hl.
Qed.

Lemma insert_row_sorted (x : A) (l : list A) :
  Sorted R l -> Sorted R (insert_row le x l).
Proof.
  induction 1 as [|y l Hs IH Hhd]; simpl.
  - repeat constructor.
  - destruct (le x y) eqn:E.
    + constructor; [now constructor | now constructor].
    + constructor; [exact IH|].
      apply insert_row_hd; [exact Hhd|].
      destruct (le_total x y) as [H | H]; [congruence | exact H].
Qed.

Lemma order_by_sorted (l : list A) : Sorted R (order_by le l).
Proof.
  induction l as [|x l IH]; simpl; [constructor|].
  now apply insert_row_sorted.
Qed.

Lemma order_by_strongly_sorted (l : list A) : StronglySorted R (order_by le l).
Proof.
  apply Sorted_StronglySorted; [|apply order_by_sorted].
  intros a b c. apply le_trans.
Qed.

Lemma first_row_none (l : list A) :
  first_row (order_by le l) = None -> l = [].
Proof.
  intros H. destruct (order_by le l) as [|m r] eqn:E; [|discriminate].
  pose proof (order_by_perm l) as P. rewrite E in P.
  now apply Permutation_nil.
Qed.

Lemma first_row_in (l : list A) (m : A) :
  first_row (order_by le l) = Some m -> In m l.
Proof.
  intros H. destruct (order_by le l) as [|m' r] eqn:E; [discriminate|].
  injection H as ->.
  apply (Permutation_in m (order_by_perm l)). rewrite E. now left.
Qed.

(** The first row of the ordered table is below every row. *)
Lemma first_row_least (l : list A) (m : A) :
  first_row (order_by le l) = Some m -> forall x, In x l -> le m x = true.
Proof.
  intros H x Hx.
  pose proof (order_by_strongly_sorted l) as S.
  destruct (order_by le l) as [|m' r] eqn:E; [discriminate|].
  injection H as ->.
  apply (Permutation_in x (Permutation_sym (order_by_perm l))) in Hx.
  rewrite E in Hx. destruct Hx as [-> | Hx].
  - destruct (le_total x x); assumption.
  - apply StronglySorted_inv in S. destruct S as [_ F].
    rewrite Forall_forall in F. now apply F.
Qed.
End OrderByFacts.

Lemma buzz_time_leb_total (a b : buzz_row) :
  buzz_time_leb a b = true \/ buzz_time_leb b a = true.
Proof. apply String.leb_total. Qed.

Lemma buzz_time_leb_trans (a b c : buzz_row) :
  buzz_time_leb a b = true -> buzz_time_leb b c = true -> buzz_time_leb a c = true.
Proof. apply string_leb_trans. Qed.



(** ** The lock invariant *)

Ltac open_db d :=
  let ps := fresh "ps" in let qs := fresh "qs" in let bq := fresh "bq" in
  let st := fresh "st" in let qid := fresh "qid" in let cat := fresh "cat" in
  let pts := fresh "pts" in let ph := fresh "ph" in let clue := fresh "clue" in
  let ans := fresh "ans" in let turn := fresh "turn" in let locked := fresh "locked" in
  let lbp := fresh "lbp" in let lbt := fresh "lbt" in let rd := fresh "rd" in
  destruct d as [ps qs bq [st qid cat pts ph clue ans turn locked lbp lbt rd]].

Ltac unfold_invariant :=
  unfold core_invariant, queue_of_players, lock_implies_holder_and_clue,
    holder_is_player, clueActive in *.

(** A state with an empty queue and an open buzzer satisfies the invariant. *)
Lemma core_invariant_open (d : db) :
  buzz_queue d = [] -> buzzer_locked (game_state d) = false -> core_invariant d.
Proof.
  intros Hq Hl. unfold_invariant. rewrite Hq, Hl.
  split; [intros b []|]. intros _. split; discriminate.
Qed.

Lemma truthy_some (s : string) : JS.truthy (Some s) = true <-> s <> "".
Proof.
  simpl. rewrite negb_true_iff. apply String.eqb_neq.
Qed.

Lemma find_player_some (id : string) (ps : list player) (p : player) :
  find (fun p => (p_id p =? id)%string) ps = Some p -> In p ps /\ p_id p = id.
Proof.
  intros H. apply find_some in H. destruct H as [Hin He].
  apply String.eqb_eq in He. auto.
Qed.

Section Invariant.
Variable defaultQuestions : list default_question.

Lemma select_card_invariant d body :
  core_invariant d -> core_invariant (snd (select_card defaultQuestions d body)).
Proof.
  intros I. unfold select_card.
  destruct (clue_conflict (getGameState d) body); [exact I|].
  destruct (not_your_turn (getGameState d) body); [exact I|].
  destruct (negb (JS.truthy (sc_questionId body))).
  - apply core_invariant_open; open_db d; reflexivity.
  - destruct (find _ (questions d)); [|exact I].
    destruct (negb (sc_force body) && negb (q_selected_for_game q)); [exact I|].
    destruct (negb (sc_force body) && q_used_in_game q); [exact I|].
    apply core_invariant_open; open_db d; reflexivity.
Qed.

Lemma buzz_invariant d playerId now uuid created_at :
  core_invariant d -> core_invariant (snd (buzz d playerId now uuid created_at)).
Proof.
  intros I. unfold buzz.
  destruct (JS.truthy playerId) eqn:Ht; simpl; [|exact I].
  destruct playerId as [pid|]; [|discriminate].
  apply truthy_some in Ht.
  destruct (find _ (players d)) as [p|] eqn:Hf; [|exact I].
  apply find_player_some in Hf. destruct Hf as [Hin Hid].
  destruct (game_status_eqb (status (getGameState d)) active) eqn:Hs; simpl; [|exact I].
  destruct (clueActive (getGameState d)) eqn:Hc; simpl; [|exact I].
  destruct (buzzer_locked (getGameState d)) eqn:Hl.
  - destruct (JS.strict_eq _ _); [exact I|].
    unfold enqueueBuzz.
    destruct (existsb _ (buzz_queue d)); [exact I|].
    destruct (existsb _ (buzz_queue d)); [exact I|].
    simpl. destruct I as [Iq Il]. split.
    + intros b Hb. simpl in Hb. apply in_app_or in Hb.
      destruct Hb as [Hb | [<- | []]]; [now apply Iq|].
      simpl. split; [exact Ht|]. now exists p.
    + exact Il.
  - destruct I as [Iq Il]. open_db d. simpl in *. split; [exact Iq|].
    intros _. unfold_invariant. simpl. split.
    + intros _. split; [now apply truthy_some | exact Hc].
    + intros _. exists p. now rewrite Hid.
Qed.

Lemma dequeueNextBuzz_spec d next d1 :
  dequeueNextBuzz d = (Some next, d1) ->
  In next (buzz_queue d)
  /\ d1 = set_buzz_queue d
            (filter (fun b => negb (b_id b =? b_id next)%string) (buzz_queue d)).
Proof.
  unfold dequeueNextBuzz.
  destruct (first_row _) as [m|] eqn:E; [|discriminate].
  intros H. injection H as <- <-.
  split; [|reflexivity]. eapply first_row_in; eauto.
Qed.

Lemma dequeueNextBuzz_none d d1 :
  dequeueNextBuzz d = (None, d1) -> buzz_queue d = [] /\ d1 = d.
Proof.
  unfold dequeueNextBuzz.
  destruct (first_row _) as [m|] eqn:E; [discriminate|].
  intros H. injection H as <-.
  split; [|reflexivity]. eapply first_row_none; eauto.
Qed.

Lemma resolve_current_invariant d playerId correct nextNow :
  core_invariant d ->
  core_invariant (snd (resolve_current d playerId correct nextNow)).
Proof.
  intros I. unfold resolve_current.
  destruct (JS.truthy playerId); [|exact I].
  destruct correct as [correct|]; [|exact I].
  destruct (negb (JS.truthy (current_question_id (getGameState d)))
            && negb (current_is_placeholder (getGameState d))) eqn:Hc; [exact I|].
  destruct (clue_delta d) as [delta|]; [|exact I].
  cbv zeta. unfold snd at 1.
  destruct correct.
  - apply core_invariant_open; open_db d; reflexivity.
  - destruct (dequeueNextBuzz d) as [[next|] d1] eqn:E.
    + apply dequeueNextBuzz_spec in E. destruct E as [Hin ->].
      destruct I as [Iq Il]. destruct (Iq next Hin) as [Hne [p [Hp Hpid]]].
      open_db d. simpl in *. unfold_invariant. simpl. split.
      * intros b Hb. apply filter_In in Hb. now apply Iq.
      * intros _. split; intros _.
        -- split; [now apply truthy_some|].
           apply andb_false_iff in Hc. rewrite !negb_false_iff in Hc.
           apply orb_true_iff. tauto.
        -- exists p. now rewrite Hpid.
    + apply dequeueNextBuzz_none in E. destruct E as [Hq ->].
      apply core_invariant_open; open_db d; simpl in *; auto.
Qed.
End Invariant.

Lemma ensureSystemPlayer_players d uuid now system d1 :
  ensureSystemPlayer d uuid now = Some (system, d1) ->
  (forall p, In p (players d) -> In p (players d1))
  /\ buzz_queue d1 = buzz_queue d /\ game_state d1 = game_state d
  /\ questions d1 = questions d.
Proof.
  unfold ensureSystemPlayer.
  destruct (find _ (players d)).
  - intros H. injection H as <- <-. auto.
  - destruct (existsb _ (players d)); [discriminate|].
    intros H. injection H as <- <-. simpl.
    split; [|auto]. intros p Hp. apply in_or_app. now left.
Qed.

Lemma seedDefaultQuestions_frame pack d sel su uuid np now r d1 :
  seedDefaultQuestions pack d sel su uuid np now = (r, d1) ->
  (forall p, In p (players d) -> In p (players d1))
  /\ buzz_queue d1 = buzz_queue d /\ game_state d1 = game_state d.
Proof.
  unfold seedDefaultQuestions.
  destruct (ensureSystemPlayer d su np) as [[system d0]|] eqn:E.
  - apply ensureSystemPlayer_players in E. destruct E as (Hp & Hq & Hg & _).
    destruct (seed_rows _ _ _ _ _ _ _) as [[qs n]|];
      intros H; injection H as <- <-; simpl; auto.
  - intros H. injection H as <- <-. auto.
Qed.

(** The invariant only looks at the queue, the state row and the ids of the
    players: it survives any growth of the players table. *)
Lemma core_invariant_frame d d1 :
  (forall p, In p (players d) -> In p (players d1)) ->
  buzz_queue d1 = buzz_queue d -> game_state d1 = game_state d ->
  core_invariant d -> core_invariant d1.
Proof.
  intros Hp Hq Hg [Iq Il]. unfold_invariant. rewrite Hq, Hg. split.
  - intros b Hb. destruct (Iq b Hb) as [Hne [p [Hin Hid]]]. eauto.
  - intros Hs. destruct (Il Hs) as [I1 I2]. split; [exact I1|].
    intros Hl. destruct (I2 Hl) as [p [Hin Hid]]. eauto.
Qed.

Lemma start_game_invariant pack d su uuid np now :
  core_invariant d -> core_invariant (snd (start_game pack d su uuid np now)).
Proof.
  intros I. unfold start_game.
  destruct (List.length (filter q_selected_for_game (questions d)) =? 0)%nat.
  - destruct (seedDefaultQuestions pack d true su uuid np now) as [[r|] d1] eqn:E.
    + apply core_invariant_open; open_db d1; reflexivity.
    + apply seedDefaultQuestions_frame in E. destruct E as (Hp & Hq & Hg).
      simpl. eapply core_invariant_frame; eauto.
  - apply core_invariant_open; open_db d; reflexivity.
Qed.

Lemma end_game_invariant d : core_invariant (snd (end_game d)).
Proof.
  open_db d. unfold_invariant. simpl. split; [intros b []|].
  intros H. now contradiction H.
Qed.

Lemma reset_game_invariant d : core_invariant (snd (reset_game d)).
Proof. apply core_invariant_open; open_db d; reflexivity. Qed.

Lemma unlock_buzzer_invariant d : core_invariant (snd (unlock_buzzer d)).
Proof. apply core_invariant_open; open_db d; reflexivity. Qed.

Lemma reset_board_invariant d :
  core_invariant d -> core_invariant (snd (reset_board d)).
Proof.
  intros [Iq _]. open_db d. unfold_invariant. simpl in *.
  split; [exact Iq|]. intros _. split; discriminate.
Qed.

Lemma strict_eq_some_false (o : option string) (id : string) :
  JS.strict_eq o (Some id) = false -> o <> Some id.
Proof.
  intros H ->. simpl in H. now rewrite String.eqb_refl in H.
Qed.

Lemma strict_eq_some_true (o : option string) (id : string) :
  JS.strict_eq o (Some id) = true -> o = Some id.
Proof.
  destruct o as [s|]; simpl; [|discriminate].
  intros H. apply String.eqb_eq in H. now subst.
Qed.

Lemma delete_player_invariant d id :
  core_invariant d -> core_invariant (snd (delete_player d id)).
Proof.
  intros I. unfold delete_player.
  destruct (find _ (players d)) as [found|]; [|exact I].
  unfold_invariant. destruct I as [Iq Il]. open_db d. simpl in *.
  assert (Hkeep : forall p : player, In p ps -> p_id p <> id ->
            In p (filter (fun p => negb (p_id p =? id)%string) ps)).
  { intros p Hp Hne. apply filter_In. split; [exact Hp|].
    apply negb_true_iff. now apply String.eqb_neq. }
  assert (Hq : forall b, In b (filter (fun b => negb (b_player_id b =? id)%string) bq) ->
            b_player_id b <> "" /\
            exists p, In p (filter (fun p => negb (p_id p =? id)%string) ps)
                      /\ p_id p = b_player_id b).
  { intros b Hb. apply filter_In in Hb. destruct Hb as [Hb Hne].
    apply negb_true_iff, String.eqb_neq in Hne.
    destruct (Iq b Hb) as [H0 [p [Hp Hid]]]. split; [exact H0|].
    exists p. split; [|exact Hid]. apply Hkeep; congruence. }
  destruct (JS.strict_eq turn (Some id)); destruct (JS.strict_eq lbp (Some id)) eqn:El;
    simpl in *; (split; [exact Hq|]); intros Hs;
    try (split; discriminate);
    apply strict_eq_some_false in El;
    destruct (Il Hs) as [I1 I2]; (split; [exact I1|]);
    intros Hl; destruct (I2 Hl) as [p [Hp Hid]];
    exists p; (split; [|exact Hid]); apply Hkeep; congruence.
Qed.

Lemma step_invariant pack d d' :
  step pack d d' -> core_invariant d -> core_invariant d'.
Proof.
  intros S I. destruct S.
  - now apply select_card_invariant.
  - now apply buzz_invariant.
  - now apply resolve_current_invariant.
  - now apply start_game_invariant.
  - apply end_game_invariant.
  - apply reset_game_invariant.
  - now apply reset_board_invariant.
  - apply unlock_buzzer_invariant.
  - now apply delete_player_invariant.
Qed.

Lemma reachable_invariant pack d : reachable pack d -> core_invariant d.
Proof.
  induction 1 as [ps qs | d d' _ IH S].
  - now apply core_invariant_open.
  - eapply step_invariant; eauto.
Qed.

(** ** C1: the lock invariant over reachable states *)

(** C1, as stated, fails: ending the game from the initial state locks the
    buzzer with no holder and no clue on display. *)
Lemma C1_end_game_locks_without_holder :
  reachable sample_pack ended_lobby
  /\ buzzer_locked (game_state ended_lobby) = true
  /\ last_buzz_player_id (game_state ended_lobby) = None
  /\ clueActive (game_state ended_lobby) = false
  /\ ~ lock_implies_holder_and_clue ended_lobby.
Proof.
  split; [|repeat split].
  - unfold ended_lobby. eapply reachable_step; [apply reachable_initial|].
    apply step_end_game.
  - intros H. destruct (H eq_refl) as [H1 _]. discriminate H1.
Qed.

(** C1 (amended): in every state reachable from the initial state through
    selectCard, buzz, resolveCurrent, startGame, endGame, resetGame,
    resetBoard, unlockBuzzer and deletePlayer whose status is not [ended], a
    locked buzzer implies that lastBuzzPlayerId is set, that it is the id of
    a registered player, and that a clue is active. *)
Theorem C1_lock_invariant_unless_ended (pack : list default_question) (d : db) :
  reachable pack d ->
  status (game_state d) <> ended ->
  lock_implies_holder_and_clue d /\ holder_is_player d.
Proof.
  intros R Hs. apply reachable_invariant in R. destruct R as [_ I]. now apply I.
Qed.

(** The invariant at a state that is reachable, not ended and locked:
    Alice on the buzzer of an empty tile. *)
Lemma C1_lock_invariant_witness :
  reachable sample_pack alice_locked
  /\ status (game_state alice_locked) <> ended
  /\ buzzer_locked (game_state alice_locked) = true
  /\ (lock_implies_holder_and_clue alice_locked /\ holder_is_player alice_locked).
Proof.
  assert (R : reachable sample_pack alice_locked).
  { unfold alice_locked.
    eapply reachable_step; [|apply step_buzz].
    eapply reachable_step; [|apply step_select_card].
    eapply reachable_step; [|apply step_start_game].
    apply reachable_initial. }
  assert (S : status (game_state alice_locked) <> ended) by (vm_compute; discriminate).
  split; [exact R|]. split; [exact S|]. split; [reflexivity|].
  exact (C1_lock_invariant_unless_ended sample_pack alice_locked R S).
Defined.

(** ** C2: buzzing while the clue is being read *)

Lemma find_player_known (p : player) (ps : list player) :
  In p ps -> exists p', find (fun x => (p_id x =? p_id p)%string) ps = Some p'.
Proof.
  intros Hin.
  destruct (find (fun x => (p_id x =? p_id p)%string) ps) as [p'|] eqn:E; [eauto|].
  apply (find_none _ _ E) in Hin. now rewrite String.eqb_refl in Hin.
Qed.

Lemma fresh_buzz_id_existsb d uuid :
  fresh_buzz_id d uuid ->
  existsb (fun b => (b_id b =? uuid)%string) (buzz_queue d) = false.
Proof.
  intros F. destruct (existsb _ (buzz_queue d)) eqn:E; [|reflexivity].
  apply existsb_exists in E. destruct E as [b [Hb He]].
  apply String.eqb_eq in He. now apply F in Hb.
Qed.


(** *** No request raises the reading flag *)

Lemma updateGameState_tables d patch :
  players (updateGameState d patch) = players d
  /\ questions (updateGameState d patch) = questions d
  /\ buzz_queue (updateGameState d patch) = buzz_queue d.
Proof. destruct d, patch; simpl; auto. Qed.











(** ** Resolution: what the handler computes on its three success paths *)

Lemma clueActive_passes_guard (g : GameState) :
  clueActive g = true ->
  negb (JS.truthy (current_question_id g)) && negb (current_is_placeholder g) = false.
Proof.
  unfold clueActive. intros H. apply orb_true_iff in H.
  destruct H as [-> | ->]; simpl; auto using andb_false_r.
Qed.

Lemma resolve_current_correct d pid nextNow V :
  pid <> "" ->
  clueActive (game_state d) = true ->
  clue_delta d = Some V ->
  resolve_current d (Some pid) (Some true) nextNow
  = (ResolveJson (state_after_correct (game_state d) pid)
       (order_by scoreboard_leb (add_score V pid (players d))),
     mk_db (add_score V pid (players d)) (questions d) []
       (state_after_correct (game_state d) pid)).
Proof.
  intros Hp Hc Hd. unfold resolve_current.
  apply truthy_some in Hp. rewrite Hp.
  unfold getGameState. rewrite (clueActive_passes_guard _ Hc), Hd.
  open_db d. reflexivity.
Qed.

Lemma resolve_current_wrong_next d pid nextNow V next :
  pid <> "" ->
  clueActive (game_state d) = true ->
  clue_delta d = Some V ->
  first_row (order_by buzz_time_leb (buzz_queue d)) = Some next ->
  resolve_current d (Some pid) (Some false) nextNow
  = (ResolveJson
       (state_after_wrong (game_state d) true (Some (b_player_id next)) (Some nextNow))
       (order_by scoreboard_leb (players d)),
     mk_db (players d) (questions d)
       (filter (fun b => negb (b_id b =? b_id next)%string) (buzz_queue d))
       (state_after_wrong (game_state d) true (Some (b_player_id next)) (Some nextNow))).
Proof.
  intros Hp Hc Hd Hn. unfold resolve_current.
  apply truthy_some in Hp. rewrite Hp.
  unfold getGameState. rewrite (clueActive_passes_guard _ Hc), Hd.
  unfold dequeueNextBuzz. rewrite Hn.
  open_db d. reflexivity.
Qed.

Lemma resolve_current_wrong_empty d pid nextNow V :
  pid <> "" ->
  clueActive (game_state d) = true ->
  clue_delta d = Some V ->
  buzz_queue d = [] ->
  resolve_current d (Some pid) (Some false) nextNow
  = (ResolveJson (state_after_wrong (game_state d) false None None)
       (order_by scoreboard_leb (players d)),
     mk_db (players d) (questions d) []
       (state_after_wrong (game_state d) false None None)).
Proof.
  intros Hp Hc Hd Hq. unfold resolve_current.
  apply truthy_some in Hp. rewrite Hp.
  unfold getGameState. rewrite (clueActive_passes_guard _ Hc), Hd.
  unfold dequeueNextBuzz. rewrite Hq.
  open_db d. simpl in *. subst. reflexivity.
Qed.

Lemma find_add_score V pid id ps :
  option_map p_score (find (fun p => (p_id p =? id)%string) (add_score V pid ps))
  = option_map (fun s => if (id =? pid)%string then s + V else s)
      (option_map p_score (find (fun p => (p_id p =? id)%string) ps)).
Proof.
  induction ps as [|p ps IH]; simpl; [reflexivity|].
  destruct (p_id p =? pid)%string eqn:E1; simpl.
  - destruct (p_id p =? id)%string eqn:E2; simpl; [|exact IH].
    apply String.eqb_eq in E1, E2. subst. now rewrite String.eqb_refl.
  - destruct (p_id p =? id)%string eqn:E2; simpl; [|exact IH].
    apply String.eqb_eq in E2. subst. now rewrite E1.
Qed.

Lemma add_score_no_match V pid ps :
  (forall p, In p ps -> p_id p <> pid) -> add_score V pid ps = ps.
Proof.
  induction ps as [|p ps IH]; simpl; [reflexivity|].
  intros H. rewrite IH by auto.
  destruct (p_id p =? pid)%string eqn:E; [|reflexivity].
  apply String.eqb_eq in E. exfalso. apply (H p); auto.
Qed.

(** ** C3: scoring *)

(** C3, as stated, fails for a wrong answer: with a 200-point clue on
    display, marking Alice wrong leaves her score at 0. *)
Lemma C3_wrong_answer_costs_nothing :
  In alice (players alice_locked)
  /\ clueActive (game_state alice_locked) = true
  /\ clue_delta alice_locked = Some 200
  /\ score_of alice_locked "p-alice" = Some 0
  /\ score_of
       (snd (resolve_current alice_locked (Some "p-alice") (Some false)
               "2024-12-24T18:05:20.000Z")) "p-alice" = Some 0
  /\ score_of
       (snd (resolve_current alice_locked (Some "p-alice") (Some false)
               "2024-12-24T18:05:20.000Z")) "p-alice" <> Some (0 - 200).
Proof.
  repeat split; try (vm_compute; auto; fail).
  vm_compute. discriminate.
Qed.

Lemma resolve_current_wrong_players d pid nextNow V :
  pid <> "" ->
  clueActive (game_state d) = true ->
  clue_delta d = Some V ->
  players (snd (resolve_current d (Some pid) (Some false) nextNow)) = players d.
Proof.
  intros Hp Hc Hd.
  destruct (first_row (order_by buzz_time_leb (buzz_queue d))) as [next|] eqn:E.
  - now rewrite (resolve_current_wrong_next d pid nextNow V next).
  - apply first_row_none in E.
    now rewrite (resolve_current_wrong_empty d pid nextNow V).
Qed.

(** C3 (amended): for every known player P and every state with an active
    clue of integer point value V, resolve(P, correct=false) leaves the
    score of P, and of every other player, unchanged; and
    resolve(P, correct=true) increases P's score s by exactly V when s, V
    and s + V are safe integers (at most 2^53 - 1 in absolute value), the
    range in which the floating point addition of the UPDATE is exact. *)
Theorem C3_resolve_scoring (d : db) (pid : string) (V s : Z) (nextNow : string) :
  known_player d pid ->
  clueActive (game_state d) = true ->
  clue_delta d = Some V ->
  score_of d pid = Some s ->
  (safe_integer s -> safe_integer V -> safe_integer (s + V) ->
   score_of (snd (resolve_current d (Some pid) (Some true) nextNow)) pid
   = Some (s + V))
  /\ players (snd (resolve_current d (Some pid) (Some false) nextNow))
     = players d
  /\ score_of (snd (resolve_current d (Some pid) (Some false) nextNow)) pid
     = Some s.
Proof.
  intros [Hp _] Hc Hd Hs. split; [|split].
  - intros _ _ _.
    rewrite (resolve_current_correct d pid nextNow V Hp Hc Hd).
    unfold score_of in *. simpl. rewrite find_add_score, Hs. simpl.
    now rewrite String.eqb_refl.
  - now apply resolve_current_wrong_players with (V := V).
  - unfold score_of.
    rewrite (resolve_current_wrong_players d pid nextNow V Hp Hc Hd).
    exact Hs.
Qed.

(** Alice, at 0, answers the 200-point tile correctly. *)
Lemma C3_resolve_scoring_witness :
  score_of alice_locked "p-alice" = Some 0
  /\ score_of
       (snd (resolve_current alice_locked (Some "p-alice") (Some true)
               "2024-12-24T18:05:20.000Z")) "p-alice" = Some 200.
Proof.
  assert (K : known_player alice_locked "p-alice").
  { split; [discriminate|]. exists alice. simpl. auto. }
  split; [reflexivity|].
  apply (proj1 (C3_resolve_scoring alice_locked "p-alice" 200 0
                  "2024-12-24T18:05:20.000Z" K eq_refl eq_refl eq_refl));
    unfold safe_integer; lia.
Defined.

(** ** A clue whose catalog row is gone *)

Lemma orphan_clue_reachable : reachable sample_pack orphan_clue.
Proof.
  unfold orphan_clue, before_delete.
  eapply reachable_step; [|apply step_delete_player].
  eapply reachable_step; [|apply step_buzz].
  eapply reachable_step; [|apply step_buzz].
  eapply reachable_step; [|apply step_select_card].
  eapply reachable_step; [|apply step_start_game].
  apply reachable_initial.
Qed.

(** ** C4: a correct answer *)







(** ** C9: the resolved player is not looked up *)

(** C9, as stated, fails at two guards of the handler: an active clue whose
    catalog row is gone is answered 404, and the empty string is answered
    400 like a missing playerId; neither changes anything. *)
Lemma C9_resolve_guards :
  clueActive (game_state orphan_clue) = true
  /\ resolve_current orphan_clue (Some "p-ghost") (Some true)
       "2024-12-24T18:05:20.000Z"
     = (Error 404 "Question not found", orphan_clue)
  /\ clueActive (game_state alice_locked) = true
  /\ resolve_current alice_locked (Some "") (Some true)
       "2024-12-24T18:05:20.000Z"
     = (Error 400 "playerId and correct are required", alice_locked).
Proof.
  repeat split; vm_compute; reflexivity.
Qed.

(** C9 (amended): resolve never checks that playerId names an existing
    player.  For every state with an active clue whose point value the
    handler can determine (a placeholder, or a real clue whose catalog entry
    still exists) and any non-empty playerId string, resolve(playerId, true)
    succeeds, clears the clue and sets turnPlayerId to that id; when the id
    matches no player the score update touches no row. *)
Theorem C9_resolve_unknown_player (d : db) (pid : string) (V : Z) (nextNow : string) :
  pid <> "" ->
  clueActive (game_state d) = true ->
  clue_delta d = Some V ->
  let r := resolve_current d (Some pid) (Some true) nextNow in
  (exists scores, fst r = ResolveJson (game_state (snd r)) scores)
  /\ clueActive (game_state (snd r)) = false
  /\ turn_player_id (game_state (snd r)) = Some pid
  /\ ((forall p, In p (players d) -> p_id p <> pid) ->
      players (snd r) = players d /\ turn_player_id (game_state (snd r)) = Some pid).
Proof.
  intros Hp Hc Hd. cbv zeta.
  rewrite (resolve_current_correct d pid nextNow V Hp Hc Hd). simpl.
  split; [eauto|]. split; [reflexivity|]. split; [reflexivity|].
  intros Hno. split; [|reflexivity]. now apply add_score_no_match.
Qed.

(** Resolving an id that no player has: the turn goes to it, no row changes. *)
Lemma C9_resolve_unknown_player_witness :
  (forall p, In p (players alice_locked) -> p_id p <> "p-ghost")
  /\ turn_player_id
       (game_state
          (snd (resolve_current alice_locked (Some "p-ghost") (Some true)
                  "2024-12-24T18:05:20.000Z"))) = Some "p-ghost"
  /\ players
       (snd (resolve_current alice_locked (Some "p-ghost") (Some true)
               "2024-12-24T18:05:20.000Z")) = players alice_locked.
Proof.
  assert (Hno : forall p, In p (players alice_locked) -> p_id p <> "p-ghost").
  { intros p Hin. simpl in Hin.
    destruct Hin as [<- | [<- | [<- | []]]]; simpl; discriminate. }
  pose proof (C9_resolve_unknown_player alice_locked "p-ghost" 200
                "2024-12-24T18:05:20.000Z"
                ltac:(discriminate) eq_refl eq_refl) as H.
  cbv zeta in H. destruct H as (_ & _ & Ht & Hrows).
  split; [exact Hno|]. split; [exact Ht|]. exact (proj1 (Hrows Hno)).
Defined.

(** ** C5: a wrong answer *)

Lemma clueActive_after_wrong g locked holder time :
  clueActive (state_after_wrong g locked holder time) = clueActive g.
Proof. reflexivity. Qed.

Lemma clue_delta_after_wrong ps qs bq bq' g locked holder time :
  clue_delta (mk_db ps qs bq' (state_after_wrong g locked holder time))
  = clue_delta (mk_db ps qs bq g).
Proof. reflexivity. Qed.

(** What one wrong resolution does to the clue, the lock and the queue. *)
Lemma resolve_current_wrong_step d pid V nextNow :
  pid <> "" ->
  clueActive (game_state d) = true ->
  clue_delta d = Some V ->
  let r := resolve_current d (Some pid) (Some false) nextNow in
  let g := game_state d in
  let g' := game_state (snd r) in
  (current_question_id g' = current_question_id g
   /\ current_category g' = current_category g
   /\ current_points g' = current_points g
   /\ current_is_placeholder g' = current_is_placeholder g
   /\ current_clue_text g' = current_clue_text g
   /\ current_answer_text g' = current_answer_text g)
  /\ (buzz_queue d <> [] ->
      exists next,
        In next (buzz_queue d)
        /\ (forall b, In b (buzz_queue d) ->
              String.leb (b_buzz_time next) (b_buzz_time b) = true)
        /\ (forall b, In b (buzz_queue (snd r)) <->
              In b (buzz_queue d) /\ b_id b <> b_id next)
        /\ buzzer_locked g' = true
        /\ last_buzz_player_id g' = Some (b_player_id next)
        /\ last_buzz_time g' = Some nextNow)
  /\ (buzz_queue d = [] ->
      buzzer_locked g' = false
      /\ last_buzz_player_id g' = None
      /\ last_buzz_time g' = None
      /\ buzz_queue (snd r) = []).
Proof.
  intros Hp Hc Hd. cbv zeta.
  destruct (first_row (order_by buzz_time_leb (buzz_queue d))) as [next|] eqn:E.
  - rewrite (resolve_current_wrong_next d pid nextNow V next Hp Hc Hd E). simpl.
    split; [repeat split|]. split.
    + intros _. exists next. split; [eapply first_row_in; eauto|]. split.
      * intros b Hb.
        apply (first_row_least buzz_time_leb buzz_time_leb_total buzz_time_leb_trans
                 (buzz_queue d) next E b Hb).
      * split; [|auto]. intros b. rewrite filter_In, negb_true_iff, String.eqb_neq.
        tauto.
    + intros Hq. rewrite Hq in E. discriminate.
  - pose proof (first_row_none _ _ E) as Hq.
    rewrite (resolve_current_wrong_empty d pid nextNow V Hp Hc Hd Hq). simpl.
    split; [repeat split|]. split; [intros H; now contradiction H | auto].
Qed.

(** A buzz from a registered player while somebody else holds the lock. *)
Lemma buzz_while_locked d pid now uuid created_at :
  pid <> "" ->
  (exists p, In p (players d) /\ p_id p = pid) ->
  status (game_state d) = active ->
  clueActive (game_state d) = true ->
  buzzer_locked (game_state d) = true ->
  last_buzz_player_id (game_state d) <> Some pid ->
  (forall b, In b (buzz_queue d) -> b_player_id b <> pid) ->
  fresh_buzz_id d uuid ->
  snd (buzz d (Some pid) now uuid created_at)
  = set_buzz_queue d (buzz_queue d ++ [mk_buzz uuid pid now created_at]).
Proof.
  intros Hp [p [Hin Hid]] Hs Hc Hl Hh Hq Hf. unfold buzz.
  apply truthy_some in Hp. rewrite Hp. simpl negb. cbv iota.
  destruct (find_player_known p (players d) Hin) as [p' Hp']. rewrite Hid in Hp'.
  rewrite Hp'. unfold getGameState. rewrite Hs, Hc, Hl. simpl negb. cbv iota.
  destruct (JS.strict_eq _ _) eqn:E; [apply strict_eq_some_true in E; contradiction|].
  unfold enqueueBuzz.
  destruct (existsb _ (buzz_queue d)) eqn:Ex.
  - apply existsb_exists in Ex. destruct Ex as [b [Hb He]].
    apply String.eqb_eq in He. now apply Hq in Hb.
  - rewrite (fresh_buzz_id_existsb d uuid Hf). reflexivity.
Qed.

Lemma three_buzzes_queue d a b c t1 t2 t3 u1 u2 u3 k1 k2 k3 x :
  known_player d a -> known_player d b -> known_player d c ->
  a <> b -> a <> c -> b <> c ->
  status (game_state d) = active ->
  clueActive (game_state d) = true ->
  lock_of d = (true, Some x) ->
  x <> a -> x <> b -> x <> c ->
  buzz_queue d = [] ->
  u1 <> u2 -> u1 <> u3 -> u2 <> u3 ->
  three_buzzes d a b c t1 t2 t3 u1 u2 u3 k1 k2 k3
  = mk_db (players d) (questions d)
      [mk_buzz u1 a t1 k1; mk_buzz u2 b t2 k2; mk_buzz u3 c t3 k3]
      (game_state d).
Proof.
  intros [Ha Ka] [Hb Kb] [Hc Kc] Hab Hac Hbc Hs Hcl Hlock Hxa Hxb Hxc Hq
    Hu12 Hu13 Hu23.
  unfold lock_of in Hlock. injection Hlock as Hl Hh.
  unfold three_buzzes.
  assert (S1 : snd (buzz d (Some a) t1 u1 k1)
               = set_buzz_queue d [mk_buzz u1 a t1 k1]).
  { rewrite buzz_while_locked; try assumption.
    - now rewrite Hq.
    - rewrite Hh. congruence.
    - rewrite Hq. intros ? [].
    - unfold fresh_buzz_id. rewrite Hq. intros ? []. }
  rewrite S1.
  assert (S2 : snd (buzz (set_buzz_queue d [mk_buzz u1 a t1 k1]) (Some b) t2 u2 k2)
               = set_buzz_queue d [mk_buzz u1 a t1 k1; mk_buzz u2 b t2 k2]).
  { rewrite buzz_while_locked; try assumption.
    - reflexivity.
    - simpl. rewrite Hh. congruence.
    - intros r [<- | []]. simpl. congruence.
    - intros r [<- | []]. simpl. congruence. }
  rewrite S2.
  rewrite buzz_while_locked; try assumption.
  - reflexivity.
  - simpl. rewrite Hh. congruence.
  - intros r [<- | [<- | []]]; simpl; congruence.
  - intros r [<- | [<- | []]]; simpl; congruence.
Qed.

Lemma eqb_neq_sym (u v : string) : u <> v -> (v =? u)%string = false.
Proof. intros H. apply String.eqb_neq. congruence. Qed.

Lemma first_row_ordered (r : buzz_row) (rest : list buzz_row) :
  StronglySorted (fun x y => buzz_time_leb x y = true) (r :: rest) ->
  first_row (order_by buzz_time_leb (r :: rest)) = Some r.
Proof.
  revert r. induction rest as [|r' rest IH]; intros r S; [reflexivity|].
  apply StronglySorted_inv in S. destruct S as [S F].
  change (order_by buzz_time_leb (r :: r' :: rest))
    with (insert_row buzz_time_leb r (order_by buzz_time_leb (r' :: rest))).
  specialize (IH r' S).
  destruct (order_by buzz_time_leb (r' :: rest)) as [|m l]; [discriminate|].
  injection IH as ->. simpl.
  apply Forall_inv in F. now rewrite F.
Qed.

Lemma filter_other_ids (r : buzz_row) (rest : list buzz_row) :
  Forall (fun b => b_id b <> b_id r) rest ->
  filter (fun b => negb (b_id b =? b_id r)%string) (r :: rest) = rest.
Proof.
  intros F. simpl. rewrite String.eqb_refl. simpl.
  induction F as [|b rest Hb _ IH]; simpl; [reflexivity|].
  apply String.eqb_neq in Hb. rewrite Hb. simpl. now rewrite IH.
Qed.

(** A wrong answer while the queue, already in time order, is not empty. *)
Lemma marked_wrong_head ps qs g r rest pid n V :
  pid <> "" ->
  clueActive g = true ->
  clue_delta (mk_db ps qs [] g) = Some V ->
  StronglySorted (fun x y => buzz_time_leb x y = true) (r :: rest) ->
  Forall (fun b => b_id b <> b_id r) rest ->
  marked_wrong (mk_db ps qs (r :: rest) g) pid n
  = mk_db ps qs rest (state_after_wrong g true (Some (b_player_id r)) (Some n)).
Proof.
  intros Hp Hc Hd S F. unfold marked_wrong.
  rewrite (resolve_current_wrong_next (mk_db ps qs (r :: rest) g) pid n V r
             Hp Hc Hd (first_row_ordered r rest S)).
  cbn [snd buzz_queue players questions game_state].
  now rewrite (filter_other_ids r rest F).
Qed.

Lemma marked_wrong_empty ps qs g pid n V :
  pid <> "" ->
  clueActive g = true ->
  clue_delta (mk_db ps qs [] g) = Some V ->
  marked_wrong (mk_db ps qs [] g) pid n
  = mk_db ps qs [] (state_after_wrong g false None None).
Proof.
  intros Hp Hc Hd. unfold marked_wrong.
  now rewrite (resolve_current_wrong_empty (mk_db ps qs [] g) pid n V
                 Hp Hc Hd eq_refl).
Qed.

(** FIFO: queued at t1 < t2 < t3, served in that order, then the buzzer
    reopens. *)
Lemma fifo_service d a b c t1 t2 t3 u1 u2 u3 k1 k2 k3 x n1 n2 n3 n4 V :
  known_player d a -> known_player d b -> known_player d c ->
  a <> b -> a <> c -> b <> c ->
  status (game_state d) = active ->
  clueActive (game_state d) = true ->
  clue_delta d = Some V ->
  lock_of d = (true, Some x) ->
  x <> "" -> x <> a -> x <> b -> x <> c ->
  buzz_queue d = [] ->
  String.ltb t1 t2 = true -> String.ltb t2 t3 = true ->
  u1 <> u2 -> u1 <> u3 -> u2 <> u3 ->
  let e1 := marked_wrong (three_buzzes d a b c t1 t2 t3 u1 u2 u3 k1 k2 k3) x n1 in
  let e2 := marked_wrong e1 a n2 in
  let e3 := marked_wrong e2 b n3 in
  let e4 := marked_wrong e3 c n4 in
  lock_of e1 = (true, Some a)
  /\ lock_of e2 = (true, Some b)
  /\ lock_of e3 = (true, Some c)
  /\ lock_of e4 = (false, None)
  /\ buzz_queue e4 = []
  /\ clueActive (game_state e4) = true.
Proof.
  intros Ka Kb Kc Hab Hac Hbc Hs Hcl Hd Hlock Hx Hxa Hxb Hxc Hq H12 H23
    Hu12 Hu13 Hu23. cbv zeta.
  rewrite (three_buzzes_queue d a b c t1 t2 t3 u1 u2 u3 k1 k2 k3 x
             Ka Kb Kc Hab Hac Hbc Hs Hcl Hlock Hxa Hxb Hxc Hq Hu12 Hu13 Hu23).
  destruct Ka as [Ha _], Kb as [Hb _], Kc as [Hc _].
  pose proof (string_ltb_leb _ _ H12) as L12.
  pose proof (string_ltb_leb _ _ H23) as L23.
  pose proof (string_leb_trans _ _ _ L12 L23) as L13.
  assert (Hd0 : clue_delta (mk_db (players d) (questions d) [] (game_state d)) = Some V).
  { rewrite <- Hd. destruct d; reflexivity. }
  rewrite (marked_wrong_head _ _ _ _ _ x n1 V Hx Hcl Hd0);
    [| repeat constructor; assumption | repeat constructor; simpl; congruence].
  erewrite (marked_wrong_head _ _ _ _ _ a n2 V Ha);
    [| exact Hcl | exact Hd0 | repeat constructor; exact L23
     | repeat constructor; simpl; congruence].
  erewrite (marked_wrong_head _ _ _ _ _ b n3 V Hb);
    [| exact Hcl | exact Hd0 | repeat constructor | constructor].
  erewrite (marked_wrong_empty _ _ _ c n4 V Hc); [| exact Hcl | exact Hd0].
  unfold lock_of. simpl. repeat split. exact Hcl.
Qed.

(** C5, as stated, fails on a reachable state: the clue is active, Alice
    holds the lock and Bob is queued, but the clue's catalog row is gone;
    marking Alice wrong is answered 404, Bob stays queued and Alice keeps
    the lock. *)
Lemma C5_orphan_clue_keeps_lock :
  reachable sample_pack orphan_clue
  /\ clueActive (game_state orphan_clue) = true
  /\ lock_of orphan_clue = (true, Some "p-alice")
  /\ buzz_queue orphan_clue <> []
  /\ resolve_current orphan_clue (Some "p-alice") (Some false)
       "2024-12-24T18:05:20.000Z"
     = (Error 404 "Question not found", orphan_clue).
Proof.
  split; [apply orphan_clue_reachable|].
  repeat split; vm_compute; try reflexivity. discriminate.
Qed.

(** C5 (amended): for every state with an active clue whose point value the
    handler can determine (a placeholder, or a real clue whose catalog entry
    still exists) where the buzzer is locked, and any non-empty playerId,
    resolve(playerId, correct=false) keeps the clue fields unchanged; if the
    queue is non-empty it removes the entry with the smallest buzzTime and
    re-locks to that player with a fresh lastBuzzTime, and if the queue is
    empty it unlocks the buzzer.  In particular, when the holder is X, the
    queue is empty and the registered players A, B, C buzz at times
    t1 < t2 < t3, four consecutive wrong resolutions move the lock to A, then
    B, then C, then release it. *)
Theorem C5_wrong_answer_advances_queue
    (d : db) (pid : string) (V : Z) (nextNow : string) :
  pid <> "" ->
  clueActive (game_state d) = true ->
  buzzer_locked (game_state d) = true ->
  clue_delta d = Some V ->
  (let r := resolve_current d (Some pid) (Some false) nextNow in
   let g := game_state d in
   let g' := game_state (snd r) in
   (current_question_id g' = current_question_id g
    /\ current_category g' = current_category g
    /\ current_points g' = current_points g
    /\ current_is_placeholder g' = current_is_placeholder g
    /\ current_clue_text g' = current_clue_text g
    /\ current_answer_text g' = current_answer_text g)
   /\ (buzz_queue d <> [] ->
       exists next,
         In next (buzz_queue d)
         /\ (forall b, In b (buzz_queue d) ->
               String.leb (b_buzz_time next) (b_buzz_time b) = true)
         /\ (forall b, In b (buzz_queue (snd r)) <->
               In b (buzz_queue d) /\ b_id b <> b_id next)
         /\ buzzer_locked g' = true
         /\ last_buzz_player_id g' = Some (b_player_id next)
         /\ last_buzz_time g' = Some nextNow)
   /\ (buzz_queue d = [] ->
       buzzer_locked g' = false
       /\ last_buzz_player_id g' = None
       /\ last_buzz_time g' = None
       /\ buzz_queue (snd r) = []))
  /\ (forall a b c t1 t2 t3 u1 u2 u3 k1 k2 k3 n1 n2 n3 n4,
        known_player d a -> known_player d b -> known_player d c ->
        a <> b -> a <> c -> b <> c ->
        status (game_state d) = active ->
        last_buzz_player_id (game_state d) = Some pid ->
        pid <> a -> pid <> b -> pid <> c ->
        buzz_queue d = [] ->
        String.ltb t1 t2 = true -> String.ltb t2 t3 = true ->
        u1 <> u2 -> u1 <> u3 -> u2 <> u3 ->
        let e1 := marked_wrong
                    (three_buzzes d a b c t1 t2 t3 u1 u2 u3 k1 k2 k3) pid n1 in
        let e2 := marked_wrong e1 a n2 in
        let e3 := marked_wrong e2 b n3 in
        let e4 := marked_wrong e3 c n4 in
        lock_of e1 = (true, Some a)
        /\ lock_of e2 = (true, Some b)
        /\ lock_of e3 = (true, Some c)
        /\ lock_of e4 = (false, None)
        /\ buzz_queue e4 = []
        /\ clueActive (game_state e4) = true).
Proof.
  intros Hp Hc Hl Hd. split.
  - now apply resolve_current_wrong_step with (V := V).
  - intros a b c t1 t2 t3 u1 u2 u3 k1 k2 k3 n1 n2 n3 n4
      Ka Kb Kc Hab Hac Hbc Hs Hh Hxa Hxb Hxc Hq H12 H23 Hu12 Hu13 Hu23.
    apply fifo_service with (V := V); auto.
    unfold lock_of. now rewrite Hl, Hh.
Qed.

(** Alice, Bob and Carol queue behind Dave and are served in that order. *)
Lemma C5_wrong_answer_advances_queue_witness :
  lock_of dave_locked = (true, Some "p-dave")
  /\ lock_of dave_wrong = (true, Some "p-alice")
  /\ lock_of alice_wrong = (true, Some "p-bob")
  /\ lock_of bob_wrong = (true, Some "p-carol")
  /\ lock_of carol_wrong = (false, None).
Proof.
  split; [reflexivity|].
  pose proof (C5_wrong_answer_advances_queue dave_locked "p-dave" 200
                "2024-12-24T18:05:10.000Z"
                ltac:(discriminate) eq_refl eq_refl eq_refl) as [_ H].
  specialize (H "p-alice" "p-bob" "p-carol"
                "2024-12-24T18:05:01.000Z" "2024-12-24T18:05:02.000Z"
                "2024-12-24T18:05:03.000Z" "b-1" "b-2" "b-3"
                "2024-12-24T18:05:01.001Z" "2024-12-24T18:05:02.001Z"
                "2024-12-24T18:05:03.001Z"
                "2024-12-24T18:05:10.000Z" "2024-12-24T18:05:20.000Z"
                "2024-12-24T18:05:30.000Z" "2024-12-24T18:05:40.000Z").
  cbv zeta in H.
  assert (Ka : known_player dave_locked "p-alice").
  { split; [discriminate|]. exists alice. simpl. auto. }
  assert (Kb : known_player dave_locked "p-bob").
  { split; [discriminate|]. exists bob. simpl. auto. }
  assert (Kc : known_player dave_locked "p-carol").
  { split; [discriminate|]. exists carol. simpl. auto. }
  specialize (H Ka Kb Kc ltac:(discriminate) ltac:(discriminate) ltac:(discriminate)
                eq_refl eq_refl
                ltac:(discriminate) ltac:(discriminate) ltac:(discriminate)
                eq_refl eq_refl eq_refl
                ltac:(discriminate) ltac:(discriminate) ltac:(discriminate)).
  destruct H as (H1 & H2 & H3 & H4 & _).
  unfold carol_wrong, bob_wrong, alice_wrong, dave_wrong, abc_queued. auto.
Defined.

(** ** C6: resetting the board *)

(** What POST /api/game/reset-board does, on any database. *)
Lemma reset_board_effect (d : db) :
  let d' := snd (reset_board d) in
  let g' := game_state d' in
  fst (reset_board d) = StateJson g'
  /\ Forall (fun q => q_used_in_game q = false) (questions d')
  /\ clueActive g' = false
  /\ current_category g' = None /\ current_points g' = None
  /\ current_clue_text g' = None /\ current_answer_text g' = None
  /\ buzzer_locked g' = false
  /\ last_buzz_player_id g' = None
  /\ last_buzz_time g' = None
  /\ status g' = status (game_state d)
  /\ turn_player_id g' = turn_player_id (game_state d)
  /\ players d' = players d
  /\ buzz_queue d' = buzz_queue d.
Proof.
  open_db d. simpl. repeat split.
  apply Forall_forall. intros q Hq. unfold all_unused in Hq.
  apply in_map_iff in Hq. destruct Hq as [q0 [<- _]]. reflexivity.
Qed.

Lemma bob_queued_reachable : reachable sample_pack bob_queued.
Proof.
  unfold bob_queued, alice_locked.
  eapply reachable_step; [|apply step_buzz].
  eapply reachable_step; [|apply step_buzz].
  eapply reachable_step; [|apply step_select_card].
  eapply reachable_step; [|apply step_start_game].
  apply reachable_initial.
Qed.

(** C6: resetBoard is claimed to clear the used flags, the clue, the lock and
    the buzz queue while keeping status and turnPlayerId.  On the reachable
    database where Alice holds the lock and Bob is queued, the handler does
    all of that except for the queue: Bob's row is still there afterwards. *)
Theorem C6_reset_board_leaves_queue :
  reachable sample_pack bob_queued
  /\ buzz_queue bob_queued
     = [mk_buzz "b-2" "p-bob" "2024-12-24T18:05:01.000Z" "2024-12-24T18:05:01.001Z"]
  /\ buzz_queue (snd (reset_board bob_queued)) = buzz_queue bob_queued
  /\ buzz_queue (snd (reset_board bob_queued)) <> []
  /\ clueActive (game_state (snd (reset_board bob_queued))) = false
  /\ lock_of (snd (reset_board bob_queued)) = (false, None)
  /\ last_buzz_time (game_state (snd (reset_board bob_queued))) = None
  /\ status (game_state (snd (reset_board bob_queued)))
     = status (game_state bob_queued)
  /\ turn_player_id (game_state (snd (reset_board bob_queued)))
     = turn_player_id (game_state bob_queued).
Proof.
  split; [apply bob_queued_reachable|].
  repeat match goal with |- _ /\ _ => split end;
    try (vm_compute; reflexivity).
  vm_compute. discriminate.
Qed.

(** ** C7: picking an empty tile *)

Lemma default_matches_iff c p q :
  default_matches (JS.toLowerCase (JS.trim c)) p q = true
  <-> JS.toLowerCase (JS.trim (dq_category q)) = JS.toLowerCase (JS.trim c)
      /\ dq_points q = p.
Proof.
  unfold default_matches. rewrite andb_true_iff, String.eqb_eq, Z.eqb_eq. tauto.
Qed.

Lemma findDefaultQuestion_some pack body q :
  findDefaultQuestion pack (tile_category body) (tile_points body) = Some q ->
  In q pack /\ matches_tile body q.
Proof.
  unfold findDefaultQuestion, matches_tile.
  destruct (tile_category body) as [c|]; [|discriminate].
  destruct (tile_points body) as [p|]; [|discriminate].
  destruct (c =? "")%string eqn:E; [discriminate|].
  intros H. apply find_some in H. destruct H as [Hin Hm].
  apply default_matches_iff in Hm. apply String.eqb_neq in E.
  split; [exact Hin|]. exists c, p. tauto.
Qed.

Lemma findDefaultQuestion_none pack body :
  findDefaultQuestion pack (tile_category body) (tile_points body) = None ->
  forall q, In q pack -> ~ matches_tile body q.
Proof.
  unfold findDefaultQuestion, matches_tile.
  intros H q Hin (c & p & Hc & Hp & Hne & Hm).
  rewrite Hc, Hp in H. apply String.eqb_neq in Hne. rewrite Hne in H.
  apply (find_none _ _ H) in Hin.
  apply default_matches_iff in Hm. congruence.
Qed.

(** The database an accepted empty-tile request leaves behind. *)
Lemma select_card_empty_tile pack d body :
  clue_conflict (game_state d) body = false ->
  not_your_turn (game_state d) body = false ->
  JS.truthy (sc_questionId body) = false ->
  let fallback := findDefaultQuestion pack (tile_category body) (tile_points body) in
  let text := match fallback with
              | Some f => JS.or_else (dq_questionText f) "N/A"
              | None => "N/A"
              end in
  let answer := match fallback with
                | Some f => JS.or_else (dq_answer f) "N/A"
                | None => "N/A"
                end in
  let g := game_state d in
  let g' := mk_state (status g) None (tile_category body) (tile_points body) true
              (Some text) (Some answer) (turn_player_id g) false None None
              (question_reading g) in
  select_card pack d body
  = (StateJson g', mk_db (players d) (questions d) [] g').
Proof.
  intros H1 H2 H3. cbv zeta. unfold select_card, getGameState.
  rewrite H1, H2, H3. open_db d. reflexivity.
Qed.

Lemma or_else_nonempty (s dflt : string) : s <> "" -> JS.or_else s dflt = s.
Proof.
  intros H. unfold JS.or_else. apply String.eqb_neq in H. now rewrite H.
Qed.

(** C7: for every selectCard call without a questionId that passes the
    conflict and turn checks, the resulting state has an active placeholder
    clue (isPlaceholder true, questionId null); if the default pack has an
    entry matching the requested category and points the clue carries that
    entry's text and answer, otherwise both are the literal "N/A"; no catalog
    entry is marked used and the buzz queue and the lock are cleared.  The
    pack is the repository's [default_questions.json], whose entries have a
    text and an answer. *)
Theorem C7_empty_tile_placeholder
    (pack : list default_question) (d : db) (body : select_card_body) :
  Forall (fun q => dq_questionText q <> "" /\ dq_answer q <> "") pack ->
  clue_conflict (game_state d) body = false ->
  not_your_turn (game_state d) body = false ->
  JS.truthy (sc_questionId body) = false ->
  let r := select_card pack d body in
  let g' := game_state (snd r) in
  fst r = StateJson g'
  /\ current_is_placeholder g' = true
  /\ current_question_id g' = None
  /\ clueActive g' = true
  /\ ((exists q, In q pack /\ matches_tile body q) ->
      exists q, In q pack /\ matches_tile body q
                /\ current_clue_text g' = Some (dq_questionText q)
                /\ current_answer_text g' = Some (dq_answer q))
  /\ ((forall q, In q pack -> ~ matches_tile body q) ->
      current_clue_text g' = Some "N/A" /\ current_answer_text g' = Some "N/A")
  /\ questions (snd r) = questions d
  /\ buzz_queue (snd r) = []
  /\ buzzer_locked g' = false
  /\ last_buzz_player_id g' = None
  /\ last_buzz_time g' = None.
Proof.
  intros Hpack H1 H2 H3. cbv zeta.
  rewrite (select_card_empty_tile pack d body H1 H2 H3). simpl.
  repeat match goal with |- _ /\ _ => split end; try reflexivity.
  - intros [q0 [Hin0 Hm0]].
    destruct (findDefaultQuestion pack (tile_category body) (tile_points body))
      as [q|] eqn:E.
    + destruct (findDefaultQuestion_some pack body q E) as [Hin Hm].
      rewrite Forall_forall in Hpack. destruct (Hpack q Hin) as [Ht Ha].
      exists q. rewrite (or_else_nonempty _ _ Ht), (or_else_nonempty _ _ Ha). auto.
    + exfalso. exact (findDefaultQuestion_none pack body E q0 Hin0 Hm0).
  - intros Hno.
    destruct (findDefaultQuestion pack (tile_category body) (tile_points body))
      as [q|] eqn:E; [|auto].
    destruct (findDefaultQuestion_some pack body q E) as [Hin Hm].
    exfalso. exact (Hno q Hin Hm).
Qed.

(** The tile of the API test yields Olaf; a tile absent from the pack, N/A. *)
Lemma C7_empty_tile_placeholder_witness :
  current_answer_text
    (game_state
       (snd (select_card sample_pack started
               (empty_tile "Disney & Pixar" 200 None)))) = Some "Olaf"
  /\ current_answer_text
       (game_state
          (snd (select_card sample_pack started
                  (empty_tile "Holiday Movies" 300 None)))) = Some "N/A".
Proof.
  assert (Hpack : Forall (fun q => dq_questionText q <> "" /\ dq_answer q <> "")
                    sample_pack).
  { repeat constructor; simpl; discriminate. }
  split.
  - pose proof (C7_empty_tile_placeholder sample_pack started
                  (empty_tile "Disney & Pixar" 200 None)
                  Hpack eq_refl eq_refl eq_refl) as H.
    cbv zeta in H. destruct H as (_ & _ & _ & _ & Hfound & _).
    destruct Hfound as (q & Hin & _ & _ & Ha).
    + exists olaf. split; [simpl; auto|].
      exists "Disney & Pixar", 200. repeat split; try reflexivity. discriminate.
    + destruct Hin as [<- | []]. exact Ha.
  - pose proof (C7_empty_tile_placeholder sample_pack started
                  (empty_tile "Holiday Movies" 300 None)
                  Hpack eq_refl eq_refl eq_refl) as H.
    cbv zeta in H. destruct H as (_ & _ & _ & _ & _ & Hnone & _).
    apply Hnone. intros q [<- | []] (c & p & Hc & Hp & _ & Hm & _).
    injection Hc as <-. vm_compute in Hm. discriminate.
Defined.

(** ** C8: whose turn it is to pick *)

Lemma not_your_turn_other g body P :
  turn_player_id g = Some P -> P <> "" -> sc_force body = false ->
  sc_pickerPlayerId body <> Some P ->
  not_your_turn g body = true.
Proof.
  intros Ht HP Hf Hne. unfold not_your_turn. rewrite Ht, Hf.
  apply truthy_some in HP. rewrite HP. simpl.
  destruct (JS.truthy (sc_pickerPlayerId body)); [simpl|reflexivity].
  destruct (JS.strict_eq (sc_pickerPlayerId body) (Some P)) eqn:E; [|reflexivity].
  apply strict_eq_some_true in E. contradiction.
Qed.

Lemma not_your_turn_self g body P :
  turn_player_id g = Some P -> P <> "" ->
  not_your_turn g (with_picker body (Some P)) = false.
Proof.
  intros Ht HP. unfold not_your_turn. rewrite Ht. simpl sc_pickerPlayerId.
  apply truthy_some in HP. rewrite HP. simpl.
  rewrite String.eqb_refl. simpl. now rewrite andb_false_r.
Qed.

(** C8: for every state where turnPlayerId = P is set and no clue is active,
    a selectCard call without force whose pickerPlayerId is absent or
    different from P fails with 403 and changes nothing, while the same call
    with pickerPlayerId = P and an otherwise valid tile succeeds and puts a
    clue on display. *)
Theorem C8_turn_enforcement
    (pack : list default_question) (d : db) (body : select_card_body) (P : string) :
  turn_player_id (game_state d) = Some P ->
  P <> "" ->
  clueActive (game_state d) = false ->
  sc_force body = false ->
  (sc_pickerPlayerId body <> Some P ->
   select_card pack d body = (Error 403 "Not your turn", d))
  /\ (valid_tile d body ->
      let r := select_card pack d (with_picker body (Some P)) in
      fst r = StateJson (game_state (snd r))
      /\ clueActive (game_state (snd r)) = true).
Proof.
  intros Ht HP Hc Hf.
  assert (Hk : forall b, clue_conflict (game_state d) b = false).
  { intros b. unfold clue_conflict. now rewrite Hc. }
  split.
  - intros Hne. unfold select_card, getGameState.
    now rewrite Hk, (not_your_turn_other _ body P Ht HP Hf Hne).
  - intros Hv. cbv zeta. unfold select_card, getGameState.
    rewrite Hk, (not_your_turn_self _ body P Ht HP).
    simpl sc_questionId. simpl sc_force. rewrite Hf.
    destruct Hv as [He | (i & q & Hi & Hq & Hsel & Hused)].
    + rewrite He. open_db d. split; reflexivity.
    + rewrite Hi.
      destruct (JS.truthy (Some i)) eqn:Ei.
      * cbv iota. simpl negb at 1. cbv iota. rewrite Hq, Hsel, Hused.
        open_db d. simpl. split; [reflexivity|].
        unfold clueActive. simpl. simpl in Ei. now rewrite Ei.
      * open_db d. split; reflexivity.
Qed.

(** It is Alice's turn: Bob's pick is refused, Alice's goes through. *)
Lemma C8_turn_enforcement_witness :
  turn_player_id (game_state alice_turn) = Some "p-alice"
  /\ select_card sample_pack alice_turn (empty_tile "Disney & Pixar" 200 (Some "p-bob"))
     = (Error 403 "Not your turn", alice_turn)
  /\ clueActive
       (game_state
          (snd (select_card sample_pack alice_turn
                  (with_picker (empty_tile "Disney & Pixar" 200 (Some "p-bob"))
                     (Some "p-alice"))))) = true.
Proof.
  pose proof (C8_turn_enforcement sample_pack alice_turn
                (empty_tile "Disney & Pixar" 200 (Some "p-bob")) "p-alice"
                eq_refl ltac:(discriminate) eq_refl eq_refl) as [Hother Hself].
  split; [reflexivity|]. split.
  - apply Hother. discriminate.
  - apply Hself. left. reflexivity.
Defined.

(** ** C10: deleting a player *)

(** C10: deleting a registered player removes all of that player's buzz-queue
    entries; if the player held the lock, the buzzer is unlocked with
    lastBuzzPlayerId and lastBuzzTime cleared, and if it was the player's
    turn, turnPlayerId is cleared; afterwards neither lastBuzzPlayerId nor
    turnPlayerId nor any queue entry nor any player row refers to the
    deleted id. *)
Theorem C10_delete_player_clears_references (d : db) (id : string) :
  (exists p, In p (players d) /\ p_id p = id) ->
  let r := delete_player d id in
  let g := game_state d in
  let g' := game_state (snd r) in
  fst r = OkJson
  /\ buzz_queue (snd r)
     = filter (fun b => negb (b_player_id b =? id)%string) (buzz_queue d)
  /\ (forall b, In b (buzz_queue (snd r)) -> b_player_id b <> id)
  /\ (forall b, In b (buzz_queue d) -> b_player_id b <> id -> In b (buzz_queue (snd r)))
  /\ (last_buzz_player_id g = Some id ->
      buzzer_locked g' = false /\ last_buzz_player_id g' = None
      /\ last_buzz_time g' = None)
  /\ (turn_player_id g = Some id -> turn_player_id g' = None)
  /\ last_buzz_player_id g' <> Some id
  /\ turn_player_id g' <> Some id
  /\ (forall p, In p (players (snd r)) -> p_id p <> id).
Proof.
  intros [p [Hin Hid]]. cbv zeta. unfold delete_player.
  destruct (find_player_known p (players d) Hin) as [p' Hp'].
  rewrite Hid in Hp'. rewrite Hp'.
  open_db d. simpl in *.
  assert (Hf : forall (A : Type) (key : A -> string) (l : list A) (x : A),
             In x (filter (fun y => negb (key y =? id)%string) l) <->
             In x l /\ key x <> id).
  { intros A key l x. now rewrite filter_In, negb_true_iff, String.eqb_neq. }
  destruct (JS.strict_eq turn (Some id)) eqn:Et;
    destruct (JS.strict_eq lbp (Some id)) eqn:El; simpl;
    repeat match goal with |- _ /\ _ => split end;
    try reflexivity;
    try (intros b Hb; apply (Hf _ b_player_id) in Hb; tauto);
    try (intros b Hb Hne; apply (Hf _ b_player_id); tauto);
    try (intros q Hq; apply (Hf _ p_id) in Hq; tauto);
    try discriminate;
    try (apply strict_eq_some_false; assumption);
    try (intros H; subst; simpl in *; rewrite String.eqb_refl in *; discriminate);
    try (intros _; repeat split).
Qed.

(** Deleting Alice while she holds the lock releases it. *)
Lemma C10_delete_player_clears_references_witness :
  lock_of alice_locked = (true, Some "p-alice")
  /\ lock_of (snd (delete_player alice_locked "p-alice")) = (false, None).
Proof.
  split; [reflexivity|].
  pose proof (C10_delete_player_clears_references alice_locked "p-alice"
                (ex_intro _ alice (conj (or_introl eq_refl) eq_refl))) as H.
  cbv zeta in H. destruct H as (_ & _ & _ & _ & Hl & _).
  destruct (Hl eq_refl) as (H1 & H2 & _).
  unfold lock_of. now rewrite H1, H2.
Defined.

(** * More properties of the core *)

(** ** How a request may change the buzz queue *)

Lemma filter_all {A} (l : list A) : filter (fun _ => true) l = l.
Proof. induction l as [|x l IH]; simpl; congruence. Qed.

Lemma filter_none {A} (l : list A) : filter (fun _ => false) l = [].
Proof. induction l as [|x l IH]; simpl; congruence. Qed.

Lemma queue_change_same (q : list buzz_row) : queue_change q q.
Proof. left. exists (fun _ => true). now rewrite filter_all. Qed.

Lemma queue_change_clear (q : list buzz_row) : queue_change q [].
Proof. left. exists (fun _ => false). now rewrite filter_none. Qed.

Lemma existsb_false_not_in {A} (key : A -> string) (k : string) (l : list A) :
  existsb (fun x => (key x =? k)%string) l = false -> ~ In k (map key l).
Proof.
  intros E Hin. apply in_map_iff in Hin. destruct Hin as [x [Hk Hx]].
  assert (existsb (fun x => (key x =? k)%string) l = true).
  { apply existsb_exists. exists x. split; [exact Hx|]. now apply String.eqb_eq. }
  congruence.
Qed.

Lemma select_card_queue pack d body :
  queue_change (buzz_queue d) (buzz_queue (snd (select_card pack d body))).
Proof.
  unfold select_card.
  destruct (clue_conflict _ _); [apply queue_change_same|].
  destruct (not_your_turn _ _); [apply queue_change_same|].
  destruct (negb (JS.truthy (sc_questionId body))).
  - open_db d. apply queue_change_clear.
  - destruct (find _ (questions d)); [|apply queue_change_same].
    destruct (negb (sc_force body) && negb (q_selected_for_game q));
      [apply queue_change_same|].
    destruct (negb (sc_force body) && q_used_in_game q); [apply queue_change_same|].
    open_db d. apply queue_change_clear.
Qed.

Lemma buzz_queue_change d playerId now uuid created_at :
  queue_change (buzz_queue d) (buzz_queue (snd (buzz d playerId now uuid created_at))).
Proof.
  unfold buzz.
  destruct (negb (JS.truthy playerId)); [apply queue_change_same|].
  destruct (find _ (players d)); [|apply queue_change_same].
  destruct (negb (game_status_eqb _ _)); [apply queue_change_same|].
  destruct (negb (clueActive _)); [apply queue_change_same|].
  destruct (buzzer_locked _).
  - destruct (JS.strict_eq _ _); [apply queue_change_same|].
    unfold enqueueBuzz.
    destruct (existsb (fun b => (b_player_id b =? _)%string) (buzz_queue d)) eqn:E1;
      [apply queue_change_same|].
    destruct (existsb (fun b => (b_id b =? _)%string) (buzz_queue d)) eqn:E2;
      [apply queue_change_same|].
    right. eexists. split; [reflexivity|]. simpl. split.
    + now apply existsb_false_not_in with (key := b_player_id).
    + now apply existsb_false_not_in with (key := b_id).
  - open_db d. apply queue_change_same.
Qed.

Lemma resolve_current_queue d playerId correct nextNow :
  queue_change (buzz_queue d)
    (buzz_queue (snd (resolve_current d playerId correct nextNow))).
Proof.
  unfold resolve_current.
  destruct (JS.truthy playerId); [|apply queue_change_same].
  destruct correct as [correct|]; [|apply queue_change_same].
  destruct (negb _ && negb _); [apply queue_change_same|].
  destruct (clue_delta d); [|apply queue_change_same].
  cbv zeta. unfold snd at 1. destruct correct.
  - open_db d. apply queue_change_clear.
  - unfold dequeueNextBuzz. destruct (first_row _) as [next|].
    + open_db d. simpl. left. eexists. reflexivity.
    + open_db d. apply queue_change_same.
Qed.

Lemma start_game_queue pack d su uuid np now :
  queue_change (buzz_queue d) (buzz_queue (snd (start_game pack d su uuid np now))).
Proof.
  unfold start_game.
  destruct (List.length _ =? 0)%nat.
  - destruct (seedDefaultQuestions pack d true su uuid np now) as [[r|] d1] eqn:E.
    + open_db d1. apply queue_change_clear.
    + apply seedDefaultQuestions_frame in E. destruct E as (_ & Hq & _).
      simpl. rewrite Hq. apply queue_change_same.
  - open_db d. apply queue_change_clear.
Qed.

Lemma delete_player_queue d id :
  queue_change (buzz_queue d) (buzz_queue (snd (delete_player d id))).
Proof.
  unfold delete_player.
  destruct (find _ (players d)); [|apply queue_change_same].
  open_db d. simpl.
  destruct (JS.strict_eq turn (Some id)); destruct (JS.strict_eq lbp (Some id));
    simpl; left; eexists; reflexivity.
Qed.

Lemma step_queue_change pack d d' :
  step pack d d' -> queue_change (buzz_queue d) (buzz_queue d').
Proof.
  intros S. destruct S.
  - apply select_card_queue.
  - apply buzz_queue_change.
  - apply resolve_current_queue.
  - apply start_game_queue.
  - open_db d. apply queue_change_clear.
  - open_db d. apply queue_change_clear.
  - open_db d. apply queue_change_same.
  - open_db d. apply queue_change_clear.
  - apply delete_player_queue.
Qed.

(** ** What the registry and admin handlers leave alone *)

Lemma keeps_buzzer_refl d : keeps_buzzer d d.
Proof. unfold keeps_buzzer. repeat split; auto. Qed.

Lemma keeps_buzzer_players d ps :
  (forall id, (exists p, In p (players d) /\ p_id p = id) ->
              exists p, In p ps /\ p_id p = id) ->
  keeps_buzzer d (set_players d ps).
Proof. intros H. unfold keeps_buzzer. simpl. repeat split; auto. Qed.

Lemma keeps_buzzer_questions d qs : keeps_buzzer d (set_questions d qs).
Proof. unfold keeps_buzzer. simpl. repeat split; auto. Qed.

Lemma map_keeps_ids (f : player -> player) (ps : list player) :
  (forall p, p_id (f p) = p_id p) ->
  forall id, (exists p, In p ps /\ p_id p = id) ->
             exists p, In p (map f ps) /\ p_id p = id.
Proof.
  intros Hf id [p [Hin Hid]]. exists (f p). split; [now apply in_map|].
  now rewrite Hf.
Qed.

Lemma update_player_keeps_ids id name slug photo ps :
  forall i, (exists p, In p ps /\ p_id p = i) ->
            exists p, In p (update_player id name slug photo ps) /\ p_id p = i.
Proof.
  apply map_keeps_ids. intros p. destruct (p_id p =? id)%string; reflexivity.
Qed.

Lemma set_score_keeps_ids id f ps :
  forall i, (exists p, In p ps /\ p_id p = i) ->
            exists p, In p (set_score id f ps) /\ p_id p = i.
Proof.
  apply map_keeps_ids. intros p. destruct (p_id p =? id)%string; reflexivity.
Qed.

Lemma append_keeps_ids (ps : list player) (p0 : player) :
  forall i, (exists p, In p ps /\ p_id p = i) ->
            exists p, In p (ps ++ [p0]) /\ p_id p = i.
Proof.
  intros i [p [Hin Hid]]. exists p. split; [apply in_or_app; now left | exact Hid].
Qed.

Lemma seedDefaultQuestions_keeps pack d sel su uuid np now :
  keeps_buzzer d (snd (seedDefaultQuestions pack d sel su uuid np now)).
Proof.
  destruct (seedDefaultQuestions pack d sel su uuid np now) as [r d1] eqn:E.
  apply seedDefaultQuestions_frame in E. destruct E as (Hp & Hq & Hg).
  unfold keeps_buzzer. simpl. rewrite Hq, Hg. repeat split; auto.
  intros id [p [Hin Hid]]. exists p. auto.
Qed.

Lemma admin_step_keeps_buzzer pack d d' :
  admin_step pack d d' -> keeps_buzzer d d'.
Proof.
  intros S. destruct S.
  - unfold create_player.
    destruct name as [name|]; [|apply keeps_buzzer_refl].
    destruct (name =? "")%string; [apply keeps_buzzer_refl|].
    destruct (ensureUniqueSlug _ _); [|apply keeps_buzzer_refl].
    destruct (_ || _); [apply keeps_buzzer_refl|].
    apply keeps_buzzer_players, append_keeps_ids.
  - unfold patch_player.
    destruct (findPlayerBySlug d slug) as [current|]; [|apply keeps_buzzer_refl].
    cbv zeta.
    destruct name as [n|]; [destruct (JS.trim n =? "")%string|];
      try destruct (ensureUniqueSlug d (slugify (JS.trim n))) as [s|];
      destruct photoUrl as [v|]; simpl;
      try apply keeps_buzzer_refl;
      apply keeps_buzzer_players, update_player_keeps_ids.
  - unfold add_question.
    destruct (_ || _); [apply keeps_buzzer_refl|].
    destruct (find _ (players d)); [|apply keeps_buzzer_refl].
    destruct (existsb _ (questions d)); [apply keeps_buzzer_refl|].
    apply keeps_buzzer_questions.
  - unfold admin_select_question.
    destruct selected; [|apply keeps_buzzer_refl].
    destruct (existsb _ _); [apply keeps_buzzer_questions | apply keeps_buzzer_refl].
  - unfold set_question_points.
    destruct (existsb _ _); [apply keeps_buzzer_questions | apply keeps_buzzer_refl].
  - unfold seed_defaults.
    pose proof (seedDefaultQuestions_keeps pack d
                  (match selectForGame with Some b => b | None => true end)
                  system_uuid uuid now_player now) as K.
    destruct (seedDefaultQuestions _ _ _ _ _ _ _) as [[[n sys]|] d1]; exact K.
  - unfold set_turn.
    destruct (negb _); [apply keeps_buzzer_refl|].
    destruct (find _ _); [|apply keeps_buzzer_refl].
    open_db d. unfold keeps_buzzer. simpl. repeat split; auto.
  - unfold adjust_score.
    destruct (find _ _); [|apply keeps_buzzer_refl].
    destruct score as [[s|]|]; [| apply keeps_buzzer_refl |].
    + apply keeps_buzzer_players, set_score_keeps_ids.
    + destruct delta; [|apply keeps_buzzer_refl].
      apply keeps_buzzer_players, set_score_keeps_ids.
  - unfold current_question.
    destruct (JS.truthy questionId) eqn:T; [|apply keeps_buzzer_refl].
    destruct (find _ _); [|apply keeps_buzzer_refl].
    open_db d. unfold keeps_buzzer, clueActive. simpl. rewrite T.
    repeat split; auto.
  - unfold set_question_meta. cbv zeta.
    destruct (option_map _ category), (option_map _ points);
      try apply keeps_buzzer_refl;
      (destruct (existsb _ _);
       [apply keeps_buzzer_questions | apply keeps_buzzer_refl]).
Qed.

Lemma keeps_buzzer_invariant d d' :
  keeps_buzzer d d' -> core_invariant d -> core_invariant d'.
Proof.
  intros (Hq & Hp & Hs & Hl & Hh & _ & Hc) [Iq Il]. unfold_invariant.
  rewrite Hq, Hs, Hl, Hh. split.
  - intros b Hb. destruct (Iq b Hb) as [Hne Hex]. split; [exact Hne|].
    destruct (Hp _ Hex) as [p [Hin Hid]]. eauto.
  - intros Hst. destruct (Il Hst) as [I1 I2]. split.
    + intros L. destruct (I1 L) as [T C]. split; [exact T|]. now apply Hc.
    + intros L. destruct (I2 L) as [p [Hin Hid]].
      destruct (Hp (p_id p) (ex_intro _ p (conj Hin eq_refl))) as [p' [Hin' Hid']].
      exists p'. split; [exact Hin'|]. now rewrite Hid'.
Qed.

Lemma admin_step_queue_change pack d d' :
  admin_step pack d d' -> queue_change (buzz_queue d) (buzz_queue d').
Proof.
  intros S. apply admin_step_keeps_buzzer in S. destruct S as [Hq _].
  rewrite Hq. apply queue_change_same.
Qed.

Lemma api_reachable_core_invariant pack d :
  api_reachable pack d -> core_invariant d.
Proof.
  induction 1 as [ps qs | d d' _ IH S].
  - now apply core_invariant_open.
  - destruct S as [S | S].
    + eapply step_invariant; eauto.
    + eapply keeps_buzzer_invariant; [|exact IH].
      eapply admin_step_keeps_buzzer; eauto.
Qed.

Lemma queue_change_nodup (old new : list buzz_row) :
  queue_change old new ->
  NoDup (map b_player_id old) /\ NoDup (map b_id old) ->
  NoDup (map b_player_id new) /\ NoDup (map b_id new).
Proof.
  assert (F : forall (key : buzz_row -> string) keep l,
             NoDup (map key l) -> NoDup (map key (filter keep l))).
  { intros key keep l. induction l as [|x l IH]; simpl; intros N; [constructor|].
    inversion N as [|? ? Hx N']; subst.
    destruct (keep x); simpl; [|auto].
    constructor; [|auto]. intros Hin. apply Hx.
    apply in_map_iff in Hin. destruct Hin as [y [Hy Hin]].
    apply filter_In in Hin. rewrite <- Hy. apply in_map. tauto. }
  intros [[keep ->] | [r (-> & Hp & Hi)]] [N1 N2].
  - split; now apply F.
  - rewrite !map_app. simpl. split.
    + apply NoDup_app; [exact N1 | repeat constructor; intros [] |].
      intros x Hx [<- | []]. contradiction.
    + apply NoDup_app; [exact N2 | repeat constructor; intros [] |].
      intros x Hx [<- | []]. contradiction.
Qed.

Lemma api_step_queue_change pack d d' :
  api_step pack d d' -> queue_change (buzz_queue d) (buzz_queue d').
Proof.
  intros [S | S]; [eapply step_queue_change | eapply admin_step_queue_change]; eauto.
Qed.

(** X1.  Queue uniqueness: in every database reachable through the
    requests that write players, questions, queue or game state (the core
    operations and the registration, catalog and admin handlers, point
    values of submitted questions being integers), no player has two rows
    in the buzz queue, and no two rows share an id. *)
Theorem X1_queue_unique (pack : list default_question) (d : db) :
  api_reachable pack d ->
  NoDup (map b_player_id (buzz_queue d)) /\ NoDup (map b_id (buzz_queue d)).
Proof.
  induction 1 as [ps qs | d d' _ IH S].
  - simpl. split; constructor.
  - eapply queue_change_nodup; [|exact IH].
    eapply api_step_queue_change; eauto.
Qed.

(** X2.  The lock invariant holds beyond the core operations: in every
    database reachable through the requests that write players, questions,
    queue or game state (the core operations and the registration, catalog
    and admin handlers, point values of submitted questions being
    integers), every queued buzz belongs to a registered player, and
    unless the status is [ended] a locked buzzer has a holder who is a
    registered player and a clue is on display. *)
Theorem X2_lock_invariant_whole_api (pack : list default_question) (d : db) :
  api_reachable pack d ->
  queue_of_players d
  /\ (status (game_state d) <> ended ->
      lock_implies_holder_and_clue d /\ holder_is_player d).
Proof.
  intros R. exact (api_reachable_core_invariant pack d R).
Qed.

Lemma reachable_api_reachable pack d : reachable pack d -> api_reachable pack d.
Proof.
  induction 1 as [ps qs | d d' _ IH S]; [constructor|].
  eapply api_reachable_step; [exact IH | now left].
Qed.

(** ** Refusals *)

Lemma select_card_refusal pack d body c m :
  fst (select_card pack d body) = Error c m -> snd (select_card pack d body) = d.
Proof.
  unfold select_card.
  destruct (clue_conflict _ _); [reflexivity|].
  destruct (not_your_turn _ _); [reflexivity|].
  destruct (negb (JS.truthy (sc_questionId body))); [discriminate|].
  destruct (find _ (questions d)); [|reflexivity].
  destruct (negb (sc_force body) && negb (q_selected_for_game q)); [reflexivity|].
  destruct (negb (sc_force body) && q_used_in_game q); [reflexivity|].
  discriminate.
Qed.

Lemma buzz_refusal d playerId now uuid created_at c m :
  fst (buzz d playerId now uuid created_at) = Error c m ->
  snd (buzz d playerId now uuid created_at) = d.
Proof.
  unfold buzz.
  destruct (negb (JS.truthy playerId)); [reflexivity|].
  destruct (find _ (players d)); [|reflexivity].
  destruct (negb (game_status_eqb _ _)); [reflexivity|].
  destruct (negb (clueActive _)); [reflexivity|].
  destruct (buzzer_locked _); [|discriminate].
  destruct (JS.strict_eq _ _); [discriminate|].
  destruct (enqueueBuzz _ _ _ _ _) as [[r d1]|]; [discriminate | reflexivity].
Qed.

Lemma resolve_current_refusal d playerId correct nextNow c m :
  fst (resolve_current d playerId correct nextNow) = Error c m ->
  snd (resolve_current d playerId correct nextNow) = d.
Proof.
  unfold resolve_current.
  destruct (JS.truthy playerId); [|reflexivity].
  destruct correct as [correct|]; [|reflexivity].
  destruct (negb _ && negb _); [reflexivity|].
  destruct (clue_delta d); [discriminate | reflexivity].
Qed.

Lemma delete_player_refusal d id c m :
  fst (delete_player d id) = Error c m -> snd (delete_player d id) = d.
Proof.
  unfold delete_player. destruct (find _ (players d)); [discriminate | reflexivity].
Qed.

(** X3.  A refusal comes before any write: whenever selectCard, buzz,
    resolveCurrent or deletePlayer refuses a request with a status other
    than 500, that is with the 400, 403, 404 or 409 of one of its guards,
    the players, the questions, the queue and the game state are exactly
    what they were before the request.  (A 500 answers a failed INSERT,
    which can come after the writes of the handler; it is not covered.) *)
Theorem X3_refusals_change_nothing
    (pack : list default_question) (d : db) (code : Z) (error : string) :
  code <> 500 ->
  (forall body,
      fst (select_card pack d body) = Error code error ->
      snd (select_card pack d body) = d)
  /\ (forall playerId now uuid created_at,
        fst (buzz d playerId now uuid created_at) = Error code error ->
        snd (buzz d playerId now uuid created_at) = d)
  /\ (forall playerId correct nextNow,
        fst (resolve_current d playerId correct nextNow) = Error code error ->
        snd (resolve_current d playerId correct nextNow) = d)
  /\ (forall id,
        fst (delete_player d id) = Error code error ->
        snd (delete_player d id) = d).
Proof.
  intros _. repeat split; intros.
  - eapply select_card_refusal; eauto.
  - eapply buzz_refusal; eauto.
  - eapply resolve_current_refusal; eauto.
  - eapply delete_player_refusal; eauto.
Qed.

(** ** Buzzing again *)

(** X4.  Buzzing again is harmless.  While the game is active and a clue is
    on display, a buzz from the player who holds the lock is answered
    [already_current], and a buzz from a player who is already queued behind
    another holder is answered [already_queued]; neither changes the
    database. *)
Theorem X4_rebuzz_changes_nothing
    (d : db) (pid now uuid created_at : string) :
  known_player d pid ->
  status (game_state d) = active ->
  clueActive (game_state d) = true ->
  buzzer_locked (game_state d) = true ->
  (last_buzz_player_id (game_state d) = Some pid ->
   buzz d (Some pid) now uuid created_at
   = (BuzzJson false (Some "already_current") None None, d))
  /\ (last_buzz_player_id (game_state d) <> Some pid ->
      In pid (map b_player_id (buzz_queue d)) ->
      buzz d (Some pid) now uuid created_at
      = (BuzzJson false (Some "already_queued")
           (Some (List.length (listBuzzQueue d))) None, d)).
Proof.
  intros [Hid [p [Hin Hp]]] Hs Hc Hl.
  destruct (find_player_known p (players d) Hin) as [p' Hp'].
  rewrite Hp in Hp'. apply truthy_some in Hid.
  split.
  - intros Hh. unfold buzz. rewrite Hid. simpl negb. cbv iota. rewrite Hp'.
    unfold getGameState. rewrite Hs, Hc, Hl, Hh. simpl.
    now rewrite String.eqb_refl.
  - intros Hh Hq. unfold buzz. rewrite Hid. simpl negb. cbv iota. rewrite Hp'.
    unfold getGameState. rewrite Hs, Hc, Hl. simpl negb. cbv iota.
    destruct (JS.strict_eq _ _) eqn:E;
      [apply strict_eq_some_true in E; contradiction|].
    unfold enqueueBuzz.
    assert (Ex : existsb (fun b => (b_player_id b =? pid)%string) (buzz_queue d) = true).
    { apply in_map_iff in Hq. destruct Hq as [b [Hb Hinb]].
      apply existsb_exists. exists b. split; [exact Hinb|]. now apply String.eqb_eq. }
    rewrite Ex. reflexivity.
Qed.

(** ** Outside an active game *)

Lemma buzz_not_active d playerId now uuid created_at :
  status (game_state d) <> active ->
  exists code error,
    buzz d playerId now uuid created_at = (Error code error, d)
    /\ (code = 400 \/ code = 404).
Proof.
  intros Hs. unfold buzz.
  destruct (negb (JS.truthy playerId)); [eauto 6|].
  destruct (find _ (players d)); [|eauto 6].
  unfold getGameState.
  destruct (status (game_state d)); simpl; eauto 6. now contradiction Hs.
Qed.

(** X5.  No buzz is accepted once the game is ended or reset: after
    POST /api/game/end or POST /api/game/reset every buzz, whoever sends it,
    is answered 400 or 404 and changes nothing; a registered player is told
    that the game is not active. *)
Theorem X5_no_buzz_after_end_or_reset
    (d : db) (playerId : option string) (now uuid created_at : string) :
  (exists code error,
      buzz (snd (end_game d)) playerId now uuid created_at
      = (Error code error, snd (end_game d))
      /\ (code = 400 \/ code = 404))
  /\ (exists code error,
        buzz (snd (reset_game d)) playerId now uuid created_at
        = (Error code error, snd (reset_game d))
        /\ (code = 400 \/ code = 404))
  /\ (forall pid, playerId = Some pid -> known_player d pid ->
        buzz (snd (end_game d)) playerId now uuid created_at
        = (Error 400 "Game is not active", snd (end_game d))
        /\ buzz (snd (reset_game d)) playerId now uuid created_at
           = (Error 400 "Game is not active", snd (reset_game d))).
Proof.
  split; [|split].
  - apply buzz_not_active. open_db d. discriminate.
  - apply buzz_not_active. open_db d. discriminate.
  - intros pid -> [Hid [p [Hin Hp]]].
    destruct (find_player_known p (players d) Hin) as [p' Hp'].
    rewrite Hp in Hp'. apply truthy_some in Hid.
    unfold buzz. rewrite Hid. simpl negb. cbv iota.
    open_db d. simpl in *. rewrite Hp'. split; reflexivity.
Qed.

(** ** The queue as a list of waiting players *)

Lemma filter_unique_player (ps : list player) (p : player) :
  NoDup (map p_id ps) -> In p ps ->
  filter (fun x => (p_id x =? p_id p)%string) ps = [p].
Proof.
  induction ps as [|x ps IH]; simpl; intros N Hin; [contradiction|].
  inversion N as [|? ? Hx N']; subst.
  destruct Hin as [-> | Hin].
  - rewrite String.eqb_refl. f_equal.
    clear IH N N'. induction ps as [|y ps IH]; simpl; [reflexivity|].
    destruct (p_id y =? p_id p)%string eqn:E.
    + apply String.eqb_eq in E. exfalso. apply Hx. simpl. now left.
    + apply IH. intros H. apply Hx. simpl. now right.
  - destruct (p_id x =? p_id p)%string eqn:E.
    + apply String.eqb_eq in E. exfalso. apply Hx. rewrite E. now apply in_map.
    + now apply IH.
Qed.

Lemma StronglySorted_map {A B} (f : A -> B) (R : B -> B -> Prop) (l : list A) :
  StronglySorted (fun x y => R (f x) (f y)) l -> StronglySorted R (map f l).
Proof.
  induction 1 as [|a l _ IH F]; simpl; constructor; [exact IH|].
  apply Forall_map. exact F.
Qed.

Lemma joined_queue_rows (ps : list player) (bq : list buzz_row) :
  NoDup (map p_id ps) ->
  (forall b, In b bq -> exists p, In p ps /\ p_id p = b_player_id b) ->
  map fst
    (flat_map
       (fun b => map (fun p => (b, p))
                   (filter (fun p => (p_id p =? b_player_id b)%string) ps)) bq)
  = bq.
Proof.
  intros N. induction bq as [|b bq IH]; intros H; simpl; [reflexivity|].
  rewrite map_app, IH by (intros b' Hb'; apply H; now right).
  destruct (H b (or_introl eq_refl)) as [p [Hin Hid]].
  rewrite <- Hid, (filter_unique_player ps p N Hin). reflexivity.
Qed.

(** X6.  The waiting list shown to the clients is the queue itself: when
    player ids are unique and every queued buzz belongs to a registered
    player, [listBuzzQueue] returns each queue row exactly once, joined with
    its own player, earliest buzz first; its length is the queue's. *)
Theorem X6_waiting_list_is_the_queue (d : db) :
  NoDup (map p_id (players d)) ->
  queue_of_players d ->
  Permutation (map fst (listBuzzQueue d)) (buzz_queue d)
  /\ StronglySorted
       (fun a b => String.leb (b_buzz_time a) (b_buzz_time b) = true)
       (map fst (listBuzzQueue d))
  /\ (forall b p, In (b, p) (listBuzzQueue d) ->
        In p (players d) /\ p_id p = b_player_id b)
  /\ List.length (listBuzzQueue d) = List.length (buzz_queue d).
Proof.
  intros N Q. unfold listBuzzQueue.
  set (le := fun x y : buzz_row * player => buzz_time_leb (fst x) (fst y)).
  set (joined := flat_map _ (buzz_queue d)).
  assert (J : map fst joined = buzz_queue d).
  { apply joined_queue_rows; [exact N|]. intros b Hb. now apply Q. }
  assert (P : Permutation (order_by le joined) joined) by apply order_by_perm.
  split; [|split; [|split]].
  - rewrite <- J. now apply Permutation_map.
  - apply StronglySorted_map with (R := fun a b => buzz_time_leb a b = true).
    apply (order_by_strongly_sorted le).
    + intros a b. apply buzz_time_leb_total.
    + intros a b c. apply buzz_time_leb_trans.
  - intros b p Hin. apply (Permutation_in _ P) in Hin.
    unfold joined in Hin. apply in_flat_map in Hin.
    destruct Hin as [b' [_ Hin]]. apply in_map_iff in Hin.
    destruct Hin as [p' [Heq Hin]]. injection Heq as <- <-.
    apply filter_In in Hin. destruct Hin as [Hin E].
    apply String.eqb_eq in E. auto.
  - rewrite (Permutation_length P), <- J. now rewrite length_map.
Qed.

(** ** Two buzzes in a row *)

(** X7.  First buzz wins.  With the game active, a clue on display, the
    buzzer open and the queue empty, when registered players A and B buzz
    one after the other, A is answered with the locked state and holds the
    lock; B is answered queued at position 1, the lock stays with A and the
    queue holds B's row alone. *)
Theorem X7_first_buzz_wins
    (d : db) (a b t1 t2 u1 u2 k1 k2 : string) :
  NoDup (map p_id (players d)) ->
  known_player d a -> known_player d b -> a <> b ->
  status (game_state d) = active ->
  clueActive (game_state d) = true ->
  buzzer_locked (game_state d) = false ->
  buzz_queue d = [] ->
  let r1 := buzz d (Some a) t1 u1 k1 in
  let r2 := buzz (snd r1) (Some b) t2 u2 k2 in
  fst r1 = BuzzJson false None None (Some (game_state (snd r1)))
  /\ lock_of (snd r1) = (true, Some a)
  /\ last_buzz_time (game_state (snd r1)) = Some t1
  /\ fst r2 = BuzzJson true None (Some 1%nat) None
  /\ lock_of (snd r2) = (true, Some a)
  /\ buzz_queue (snd r2) = [mk_buzz u2 b t2 k2].
Proof.
  intros N [Ha [pa [Hina Hpa]]] [Hb [pb [Hinb Hpb]]] Hab Hs Hc Hl Hq. cbv zeta.
  destruct (find_player_known pa (players d) Hina) as [pa' Hfa].
  destruct (find_player_known pb (players d) Hinb) as [pb' Hfb].
  rewrite Hpa in Hfa. rewrite Hpb in Hfb.
  apply truthy_some in Ha. apply truthy_some in Hb.
  assert (E1 : buzz d (Some a) t1 u1 k1
               = (BuzzJson false None None
                    (Some (state_after_wrong (game_state d) true (Some a) (Some t1))),
                  mk_db (players d) (questions d) []
                    (state_after_wrong (game_state d) true (Some a) (Some t1)))).
  { unfold buzz. rewrite Ha. simpl negb. cbv iota. rewrite Hfa.
    unfold getGameState. rewrite Hs, Hc, Hl. simpl negb. cbv iota.
    open_db d. simpl in *. subst. reflexivity. }
  rewrite E1. simpl fst. simpl snd.
  split; [reflexivity|]. split; [reflexivity|]. split; [reflexivity|].
  assert (Fb : filter (fun x => (p_id x =? b)%string) (players d) = [pb]).
  { rewrite <- Hpb. now apply filter_unique_player. }
  unfold buzz. rewrite Hb. simpl negb. cbv iota.
  cbn [players]. rewrite Hfb.
  unfold getGameState. cbn [game_state state_after_wrong status buzzer_locked
                              last_buzz_player_id].
  rewrite Hs. simpl negb. cbv iota.
  change (clueActive (state_after_wrong (game_state d) true (Some a) (Some t1)))
    with (clueActive (game_state d)).
  rewrite Hc. simpl negb. cbv iota.
  assert (Eab : JS.strict_eq (Some a) (Some b) = false).
  { simpl. now apply String.eqb_neq. }
  rewrite Eab. unfold enqueueBuzz. cbn [buzz_queue existsb app].
  unfold listBuzzQueue.
  cbn [fst snd queued reason set_buzz_queue buzz_queue players flat_map map app
       b_player_id].
  rewrite Fb. cbn. repeat split.
Qed.

(** ** Taking the next player off the queue *)

Lemma filter_other_ids_all (next : buzz_row) (bq : list buzz_row) :
  (forall b, In b bq -> b_id b <> b_id next) ->
  filter (fun b => negb (b_id b =? b_id next)%string) bq = bq.
Proof.
  induction bq as [|x bq IH]; simpl; intros H; [reflexivity|].
  assert (E : (b_id x =? b_id next)%string = false)
    by (apply String.eqb_neq, H; now left).
  rewrite E. simpl. f_equal. apply IH. intros b Hb. apply H. now right.
Qed.

Lemma remove_by_id_perm (next : buzz_row) (bq : list buzz_row) :
  NoDup (map b_id bq) -> In next bq ->
  Permutation (next :: filter (fun b => negb (b_id b =? b_id next)%string) bq) bq.
Proof.
  induction bq as [|x bq IH]; simpl; intros N Hin; [contradiction|].
  inversion N as [|? ? Hx N']; subst.
  destruct Hin as [-> | Hin].
  - rewrite String.eqb_refl. simpl. constructor.
    rewrite filter_other_ids_all; [reflexivity|].
    intros b Hb E. apply Hx. rewrite <- E. now apply in_map.
  - destruct (b_id x =? b_id next)%string eqn:E.
    + apply String.eqb_eq in E. exfalso. apply Hx. rewrite E. now apply in_map.
    + simpl. rewrite perm_swap. constructor. now apply IH.
Qed.

(** X8.  [dequeueNextBuzz] takes exactly one row, the earliest.  On an empty
    queue it returns nothing and changes nothing.  On a queue whose row ids
    are distinct it returns a row whose buzz time is least, and the rows left
    are the others, each still there once; players, questions and the state
    row are not touched. *)
Theorem X8_dequeue_takes_the_earliest (d : db) :
  NoDup (map b_id (buzz_queue d)) ->
  (buzz_queue d = [] -> dequeueNextBuzz d = (None, d))
  /\ (buzz_queue d <> [] ->
      exists next d',
        dequeueNextBuzz d = (Some next, d')
        /\ (forall b, In b (buzz_queue d) ->
              String.leb (b_buzz_time next) (b_buzz_time b) = true)
        /\ Permutation (next :: buzz_queue d') (buzz_queue d)
        /\ S (List.length (buzz_queue d')) = List.length (buzz_queue d)
        /\ players d' = players d
        /\ questions d' = questions d
        /\ game_state d' = game_state d).
Proof.
  intros N. split.
  - intros Hq. unfold dequeueNextBuzz. rewrite Hq. reflexivity.
  - intros Hq. unfold dequeueNextBuzz.
    destruct (first_row (order_by buzz_time_leb (buzz_queue d))) as [next|] eqn:E.
    + exists next. eexists. split; [reflexivity|].
      pose proof (first_row_in _ _ _ E) as Hin.
      pose proof (remove_by_id_perm next (buzz_queue d) N Hin) as P.
      simpl. repeat split; auto.
      * intros b Hb.
        apply (first_row_least buzz_time_leb buzz_time_leb_total
                 buzz_time_leb_trans _ _ E b Hb).
      * apply Permutation_length in P. simpl in P. exact P.
    + apply first_row_none in E. contradiction.
Qed.

(** ** Lifecycle *)

Lemma all_unused_twice (qs : list question) : all_unused (all_unused qs) = all_unused qs.
Proof. unfold all_unused. rewrite map_map. reflexivity. Qed.

(** X9.  The lifecycle operations are idempotent on the game tables:
    sending resetBoard, resetGame, endGame or unlockBuzzer a second time
    leaves the players, the questions, the queue and the game state as the
    first call left them.  (endGame and resetGame also log an event on
    every call; the log is not part of the statement.) *)
Theorem X9_lifecycle_idempotent (d : db) :
  snd (reset_board (snd (reset_board d))) = snd (reset_board d)
  /\ snd (reset_game (snd (reset_game d))) = snd (reset_game d)
  /\ snd (end_game (snd (end_game d))) = snd (end_game d)
  /\ snd (unlock_buzzer (snd (unlock_buzzer d))) = snd (unlock_buzzer d).
Proof.
  open_db d. unfold reset_board, reset_game, end_game, unlock_buzzer. simpl.
  rewrite all_unused_twice. repeat split.
Qed.

(** ** Seeding the default pack *)

Lemma seed_rows_step sys sel uuid now q rest qs n :
  seed_rows sys sel uuid now (q :: rest) qs n
  = let cat := if (dq_category q =? "")%string then None
               else Some (JS.trim (dq_category q)) in
    if (JS.trim (dq_questionText q) =? "")%string
       || (JS.trim (dq_answer q) =? "")%string
       || negb (JS.truthy cat) || (dq_points q =? 0)
    then seed_rows sys sel uuid now rest qs n
    else if existsb (seed_match sys (JS.trim (dq_questionText q))
                       (JS.trim (dq_answer q)) cat (dq_points q)) qs
    then seed_rows sys sel uuid now rest qs n
    else if existsb (fun r => (q_id r =? uuid n)%string) qs
    then None
    else seed_rows sys sel uuid now rest
           (qs ++ [mk_question (uuid n) sys (JS.trim (dq_questionText q))
                     (JS.trim (dq_answer q)) cat (Some (dq_points q)) sel false now])
           (S n).
Proof. reflexivity. Qed.

Lemma existsb_incl {A} (f : A -> bool) (l l' : list A) :
  (forall x, In x l -> In x l') -> existsb f l = true -> existsb f l' = true.
Proof.
  intros H E. apply existsb_exists in E. destruct E as [x [Hx Hf]].
  apply existsb_exists. exists x. auto.
Qed.

Lemma seed_settled_incl sys qs qs' q :
  (forall r, In r qs -> In r qs') ->
  seed_settled sys qs q = true -> seed_settled sys qs' q = true.
Proof.
  unfold seed_settled. intros H E. apply orb_true_iff in E. apply orb_true_iff.
  destruct E as [E | E]; [now left|]. right. eapply existsb_incl; eauto.
Qed.

(** The seeding loop only appends, and when it is done every entry of the
    pack is settled. *)
Lemma seed_rows_settles sys sel uuid now pack :
  forall qs n qs' n',
    seed_rows sys sel uuid now pack qs n = Some (qs', n') ->
    (exists added, qs' = qs ++ added
                   /\ List.length added = (n' - n)%nat /\ (n <= n')%nat
                   /\ Forall (fun r => q_player_id r = sys
                                       /\ q_used_in_game r = false
                                       /\ q_selected_for_game r = sel
                                       /\ q_question_text r <> ""
                                       /\ q_answer r <> "") added)
    /\ (forall q, In q pack -> seed_settled sys qs' q = true).
Proof.
  induction pack as [|q rest IH]; intros qs n qs' n' H.
  - simpl in H. injection H as <- <-. split.
    + exists []. rewrite app_nil_r, Nat.sub_diag. auto.
    + intros q [].
  - rewrite seed_rows_step in H. cbv zeta in H.
    destruct (_ || _ || _ || _) eqn:Skip.
    { destruct (IH _ _ _ _ H) as [A S]. split; [exact A|].
      intros q0 [<- | Hq0]; [|auto].
      unfold seed_settled. cbv zeta. now rewrite Skip. }
    destruct (existsb (seed_match _ _ _ _ _) qs) eqn:Ex.
    { destruct (IH _ _ _ _ H) as [A S]. split; [exact A|].
      intros q0 [<- | Hq0]; [|auto].
      destruct A as [added [-> _]].
      apply seed_settled_incl with (qs := qs).
      - intros r Hr. apply in_or_app. now left.
      - unfold seed_settled. cbv zeta. rewrite Ex. apply orb_true_r. }
    destruct (existsb (fun r => (q_id r =? uuid n)%string) qs); [discriminate|].
    destruct (IH _ _ _ _ H) as [[added (-> & Hlen & Hle & Hall)] S]. split.
    + eexists. rewrite <- app_assoc. split; [reflexivity|].
      simpl. split; [lia|]. split; [lia|].
      constructor; [|exact Hall]. simpl.
      repeat apply orb_false_iff in Skip as [Skip ?].
      repeat split; auto; now apply String.eqb_neq.
    + intros q0 [<- | Hq0]; [|auto].
      apply seed_settled_incl with
        (qs := qs ++ [mk_question (uuid n) sys (JS.trim (dq_questionText q))
                        (JS.trim (dq_answer q))
                        (if (dq_category q =? "")%string then None
                         else Some (JS.trim (dq_category q)))
                        (Some (dq_points q)) sel false now]).
      * intros r Hr. rewrite <- app_assoc. apply in_app_or in Hr.
        apply in_or_app. destruct Hr as [Hr | Hr]; [now left | right].
        apply in_or_app. now left.
      * unfold seed_settled. cbv zeta. apply orb_true_iff. right.
        apply existsb_exists. eexists. split; [apply in_or_app; right; now left|].
        unfold seed_match, opt_string_is, opt_Z_is. simpl.
        rewrite !String.eqb_refl, Z.eqb_refl. simpl.
        repeat apply orb_false_iff in Skip as [Skip ?].
        destruct (dq_category q =? "")%string; [discriminate|].
        simpl. now rewrite String.eqb_refl.
Qed.

Lemma seed_rows_nothing_to_do sys sel uuid now pack qs n :
  (forall q, In q pack -> seed_settled sys qs q = true) ->
  seed_rows sys sel uuid now pack qs n = Some (qs, n).
Proof.
  induction pack as [|q rest IH]; intros H; [reflexivity|].
  rewrite seed_rows_step. cbv zeta.
  pose proof (H q (or_introl eq_refl)) as Hq. unfold seed_settled in Hq.
  cbv zeta in Hq.
  match goal with
  | |- (if ?c then _ else _) = _ => destruct c eqn:Skip
  end; [apply IH; intros; apply H; now right|].
  simpl in Hq. rewrite Hq. apply IH. intros. apply H. now right.
Qed.

Lemma find_app {A} (f : A -> bool) (l l' : list A) :
  find f (l ++ l') = match find f l with Some x => Some x | None => find f l' end.
Proof.
  induction l as [|x l IH]; simpl; [reflexivity|]. destruct (f x); auto.
Qed.

Lemma ensureSystemPlayer_again d uuid now system d1 :
  ensureSystemPlayer d uuid now = Some (system, d1) ->
  (exists extra, players d1 = players d ++ extra)
  /\ questions d1 = questions d
  /\ find (fun p => JS.strict_eq (p_slug p) (Some "house")) (players d1)
     = Some system.
Proof.
  unfold ensureSystemPlayer.
  destruct (find _ (players d)) as [existing|] eqn:F.
  - intros H. injection H as <- <-. split; [exists []; now rewrite app_nil_r|].
    split; [reflexivity | exact F].
  - destruct (existsb _ (players d)); [discriminate|].
    intros H. injection H as <- <-. simpl. split; [eauto|].
    split; [reflexivity|]. rewrite find_app, F. reflexivity.
Qed.

(** X10.  Seeding is idempotent.  Once [seedDefaultQuestions] has returned,
    seeding again, with whatever flag, ids and clock, inserts nothing,
    reports the same house player and leaves the database as it is.  The
    first run only appends: the old catalog is kept as it was, and every
    row it adds belongs to the house player, is unused, carries the
    requested selection flag and has a text and an answer. *)
Theorem X10_seeding_is_idempotent
    (pack : list default_question) (d d1 : db) (sel : bool)
    (su : string) (uuid : nat -> string) (np now : string)
    (inserted : nat) (system : player) :
  seedDefaultQuestions pack d sel su uuid np now = (Some (inserted, system), d1) ->
  (forall sel' su' uuid' np' now',
      seedDefaultQuestions pack d1 sel' su' uuid' np' now'
      = (Some (0%nat, system), d1))
  /\ (exists added,
        questions d1 = questions d ++ added
        /\ List.length added = inserted
        /\ Forall (fun r => q_player_id r = p_id system
                            /\ q_used_in_game r = false
                            /\ q_selected_for_game r = sel
                            /\ q_question_text r <> ""
                            /\ q_answer r <> "") added)
  /\ buzz_queue d1 = buzz_queue d
  /\ game_state d1 = game_state d.
Proof.
  unfold seedDefaultQuestions.
  destruct (ensureSystemPlayer d su np) as [[sys d0]|] eqn:E; [|discriminate].
  destruct (ensureSystemPlayer_again _ _ _ _ _ E) as (_ & Hq0 & Hagain).
  pose proof (ensureSystemPlayer_players _ _ _ _ _ E) as (_ & Hbq & Hgs & _).
  destruct (seed_rows _ _ _ _ _ _ _) as [[qs n]|] eqn:R; [|discriminate].
  intros H. injection H as <- <- <-.
  destruct (seed_rows_settles _ _ _ _ _ _ _ _ _ R) as [[added (Hadd & Hlen & _ & Hall)] Hs].
  split; [|split; [|split]].
  - intros sel' su' uuid' np' now'.
    assert (Hsys : ensureSystemPlayer (set_questions d0 qs) su' np'
                   = Some (sys, set_questions d0 qs)).
    { unfold ensureSystemPlayer. simpl players. now rewrite Hagain. }
    rewrite Hsys. simpl questions.
    rewrite (seed_rows_nothing_to_do _ _ _ _ _ _ _ Hs). simpl.
    destruct d0; reflexivity.
  - exists added. simpl. rewrite <- Hq0. split; [exact Hadd|].
    split; [lia | exact Hall].
  - simpl. exact Hbq.
  - simpl. exact Hgs.
Qed.

Lemma seedDefaultQuestions_appends pack d sel su uuid np now r d1 :
  seedDefaultQuestions pack d sel su uuid np now = (r, d1) ->
  exists extra, players d1 = players d ++ extra.
Proof.
  unfold seedDefaultQuestions.
  destruct (ensureSystemPlayer d su np) as [[sys d0]|] eqn:E.
  - destruct (ensureSystemPlayer_again _ _ _ _ _ E) as (Hp & _).
    destruct (seed_rows _ _ _ _ _ _ _) as [[qs n]|];
      intros H; injection H as <- <-; exact Hp.
  - intros H. injection H as <- <-. exists []. now rewrite app_nil_r.
Qed.

Lemma score_of_appended d d' extra pid s :
  players d' = players d ++ extra ->
  score_of d pid = Some s -> score_of d' pid = Some s.
Proof.
  unfold score_of. intros -> H. rewrite find_app.
  destruct (find _ (players d)); [exact H | discriminate].
Qed.

(** ** Starting a game *)

(** X11.  A started game begins on a clean board and keeps the scores.
    Whenever POST /api/game/start succeeds, the status is active, no clue is
    on display, nobody has the turn, the buzzer is open, the queue is empty
    and no card is marked used; the players that were registered are all
    still there with the scores they had.  If some question was already
    selected for the game, nothing is seeded: the players table is unchanged
    and the catalog differs only in the used flags. *)
Theorem X11_start_game_clean_board
    (pack : list default_question) (d : db) (su : string) (uuid : nat -> string)
    (np now : string) (g : GameState) :
  fst (start_game pack d su uuid np now) = StateJson g ->
  g = game_state (snd (start_game pack d su uuid np now))
  /\ g = mk_state active None None None false None None None false None None
           (question_reading (game_state d))
  /\ buzz_queue (snd (start_game pack d su uuid np now)) = []
  /\ Forall (fun q => q_used_in_game q = false)
       (questions (snd (start_game pack d su uuid np now)))
  /\ (exists extra,
        players (snd (start_game pack d su uuid np now)) = players d ++ extra)
  /\ (forall pid s, score_of d pid = Some s ->
        score_of (snd (start_game pack d su uuid np now)) pid = Some s)
  /\ (List.length (filter q_selected_for_game (questions d)) <> 0%nat ->
      players (snd (start_game pack d su uuid np now)) = players d
      /\ questions (snd (start_game pack d su uuid np now))
         = all_unused (questions d)).
Proof.
  assert (U : forall qs, Forall (fun q => q_used_in_game q = false) (all_unused qs)).
  { intros qs. apply Forall_forall. intros q Hq. unfold all_unused in Hq.
    apply in_map_iff in Hq. destruct Hq as [q0 [<- _]]. reflexivity. }
  unfold start_game.
  destruct (List.length (filter q_selected_for_game (questions d)) =? 0)%nat eqn:Z.
  - destruct (seedDefaultQuestions pack d true su uuid np now) as [[r|] d1] eqn:E;
      [|discriminate].
    pose proof (seedDefaultQuestions_frame _ _ _ _ _ _ _ _ _ E) as (_ & _ & Hg).
    destruct (seedDefaultQuestions_appends _ _ _ _ _ _ _ _ _ E) as [extra Hp].
    intros H. rewrite <- Hg. clear E Hg.
    destruct d1 as [ps1 qs1 bq1 g1]. destruct g1. simpl in *. injection H as <-.
    repeat split; auto.
    + exists extra. exact Hp.
    + intros pid s Hs. eapply score_of_appended; [|exact Hs]. exact Hp.
    + apply Nat.eqb_eq in Z. contradiction.
    + apply Nat.eqb_eq in Z. contradiction.
  - intros H. open_db d. simpl in *. injection H as <-.
    repeat split; auto.
    exists []. now rewrite app_nil_r.
Qed.

(** ** Cards *)

Lemma find_map_same_id (f : question -> question) (i : string) (qs : list question) :
  (forall q, q_id (f q) = q_id q) ->
  find (fun q => (q_id q =? i)%string) (map f qs)
  = option_map f (find (fun q => (q_id q =? i)%string) qs).
Proof.
  intros Hf. induction qs as [|q qs IH]; simpl; [reflexivity|].
  rewrite Hf. destruct (q_id q =? i)%string; [reflexivity | exact IH].
Qed.

Lemma find_mark_used (i : string) (qs : list question) (q : question) :
  find (fun q => (q_id q =? i)%string) qs = Some q ->
  exists q', find (fun q => (q_id q =? i)%string) (mark_used i qs) = Some q'
             /\ q_used_in_game q' = true
             /\ q_selected_for_game q' = q_selected_for_game q
             /\ q_points q' = q_points q.
Proof.
  intros H. unfold mark_used. rewrite find_map_same_id.
  - rewrite H. simpl. pose proof (find_some _ _ H) as [_ E]. rewrite E.
    eexists. split; [reflexivity|]. simpl. auto.
  - intros q0. destruct (q_id q0 =? i)%string; reflexivity.
Qed.

Lemma find_all_unused (i : string) (qs : list question) (q : question) :
  find (fun q => (q_id q =? i)%string) qs = Some q ->
  exists q', find (fun q => (q_id q =? i)%string) (all_unused qs) = Some q'
             /\ q_used_in_game q' = false
             /\ q_selected_for_game q' = q_selected_for_game q.
Proof.
  intros H. unfold all_unused. rewrite find_map_same_id by reflexivity.
  rewrite H. simpl. eexists. split; [reflexivity|]. simpl. auto.
Qed.

Lemma select_card_question pack d body i q :
  clue_conflict (game_state d) body = false ->
  not_your_turn (game_state d) body = false ->
  sc_questionId body = Some i -> i <> "" ->
  find (fun q => (q_id q =? i)%string) (questions d) = Some q ->
  (sc_force body = false -> q_selected_for_game q = true) ->
  (sc_force body = false -> q_used_in_game q = false) ->
  select_card pack d body
  = (StateJson
       (mk_state (status (game_state d)) (Some i)
          (JS.or_opt (q_category q) (tile_category body))
          (match q_points q with Some n => Some n | None => tile_points body end)
          false None None (turn_player_id (game_state d)) false None None
          (question_reading (game_state d))),
     mk_db (players d) (mark_used i (questions d)) []
       (mk_state (status (game_state d)) (Some i)
          (JS.or_opt (q_category q) (tile_category body))
          (match q_points q with Some n => Some n | None => tile_points body end)
          false None None (turn_player_id (game_state d)) false None None
          (question_reading (game_state d)))).
Proof.
  intros H1 H2 Hi Hne Hq Hsel Hused. unfold select_card, getGameState.
  rewrite H1, H2, Hi. apply truthy_some in Hne. rewrite Hne. simpl negb. cbv iota.
  rewrite Hq.
  destruct (sc_force body).
  - simpl. open_db d. reflexivity.
  - rewrite (Hsel eq_refl), (Hused eq_refl). simpl. open_db d. reflexivity.
Qed.

Lemma used_card_refused pack e body i q :
  sc_force body = false ->
  sc_questionId body = Some i -> i <> "" ->
  find (fun q => (q_id q =? i)%string) (questions e) = Some q ->
  q_used_in_game q = true ->
  q_selected_for_game q = true ->
  exists code error,
    select_card pack e body = (Error code error, e) /\ (code = 409 \/ code = 403).
Proof.
  intros Hf Hi Hne Hq Hu Hs. unfold select_card.
  destruct (clue_conflict _ _); [eauto 6|].
  destruct (not_your_turn _ _); [eauto 6|].
  rewrite Hi. apply truthy_some in Hne. rewrite Hne. simpl negb. cbv iota.
  rewrite Hq, Hf, Hs, Hu. simpl. eauto 6.
Qed.

(** X12.  A card is played once.  After a card has been picked by its
    question id without force, every later pick of the same id without force
    is refused (409, or 403 when it is somebody else's turn) and changes
    nothing, in any database whose catalog is the one the pick left behind;
    buzzing and resolving leave the catalog as it is, so the card stays
    refused once its clue has been answered. *)
Theorem X12_card_is_played_once
    (pack : list default_question) (d : db) (body : select_card_body)
    (i : string) (g : GameState) :
  sc_force body = false ->
  sc_questionId body = Some i -> i <> "" ->
  fst (select_card pack d body) = StateJson g ->
  (exists q,
      find (fun q => (q_id q =? i)%string)
        (questions (snd (select_card pack d body))) = Some q
      /\ q_used_in_game q = true)
  /\ (forall e body2,
        questions e = questions (snd (select_card pack d body)) ->
        sc_force body2 = false -> sc_questionId body2 = Some i ->
        exists code error,
          select_card pack e body2 = (Error code error, e)
          /\ (code = 409 \/ code = 403))
  /\ (forall e playerId correct nextNow,
        questions (snd (resolve_current e playerId correct nextNow)) = questions e)
  /\ (forall e playerId now uuid created_at,
        questions (snd (buzz e playerId now uuid created_at)) = questions e).
Proof.
  intros Hf Hi Hne Hok.
  assert (Hsel : exists q,
             find (fun q => (q_id q =? i)%string)
               (questions (snd (select_card pack d body))) = Some q
             /\ q_used_in_game q = true /\ q_selected_for_game q = true).
  { revert Hok. unfold select_card.
    destruct (clue_conflict _ _); [discriminate|].
    destruct (not_your_turn _ _); [discriminate|].
    rewrite Hi. pose proof Hne as Ht. apply truthy_some in Ht. rewrite Ht.
    simpl negb. cbv iota.
    destruct (find _ (questions d)) as [q|] eqn:Hq; [|discriminate].
    rewrite Hf. simpl negb. rewrite !andb_true_l.
    destruct (q_selected_for_game q) eqn:Hs; [|discriminate]. simpl negb. cbv iota.
    destruct (q_used_in_game q); [discriminate|].
    intros _. destruct (find_mark_used i _ q Hq) as [q' (F & U & S & _)].
    exists q'. open_db d. simpl in *. rewrite F. split; [reflexivity|].
    split; [exact U | congruence]. }
  destruct Hsel as [q (Hq & Hu & Hs)].
  split; [eauto|]. split; [|split].
  - intros e body2 He Hf2 Hi2. rewrite <- He in Hq.
    eapply used_card_refused; eauto.
  - intros e playerId correct nextNow. unfold resolve_current.
    destruct (JS.truthy playerId); [|reflexivity].
    destruct correct as [correct|]; [|reflexivity].
    destruct (negb _ && negb _); [reflexivity|].
    destruct (clue_delta e); [|reflexivity].
    cbv zeta. unfold snd at 1. destruct correct.
    + open_db e. reflexivity.
    + unfold dequeueNextBuzz. destruct (first_row _); open_db e; reflexivity.
  - intros e playerId now uuid created_at. unfold buzz.
    destruct (negb (JS.truthy playerId)); [reflexivity|].
    destruct (find _ (players e)); [|reflexivity].
    destruct (negb (game_status_eqb _ _)); [reflexivity|].
    destruct (negb (clueActive _)); [reflexivity|].
    destruct (buzzer_locked _); [|open_db e; reflexivity].
    destruct (JS.strict_eq _ _); [reflexivity|].
    unfold enqueueBuzz.
    destruct (existsb (fun b => (b_player_id b =? _)%string) _); [reflexivity|].
    destruct (existsb (fun b => (b_id b =? _)%string) _); reflexivity.
Qed.

(** X13.  Resetting the board puts the cards back.  After
    POST /api/game/reset-board every question of the catalog that is
    selected for the game can be picked by its id without force, by the
    player whose turn it is or by anybody when no turn is set: the pick
    succeeds, puts that question on display and marks it used. *)
Theorem X13_reset_board_puts_cards_back
    (pack : list default_question) (d : db) (body : select_card_body)
    (i : string) (q : question) :
  find (fun q => (q_id q =? i)%string) (questions d) = Some q ->
  q_selected_for_game q = true ->
  i <> "" ->
  sc_questionId body = Some i ->
  not_your_turn (game_state d) body = false ->
  let r := select_card pack (snd (reset_board d)) body in
  fst r = StateJson (game_state (snd r))
  /\ current_question_id (game_state (snd r)) = Some i
  /\ current_is_placeholder (game_state (snd r)) = false
  /\ (exists q', find (fun q => (q_id q =? i)%string) (questions (snd r)) = Some q'
                 /\ q_used_in_game q' = true).
Proof.
  intros Hq Hs Hne Hi Ht. cbv zeta.
  destruct (find_all_unused i _ q Hq) as [q1 (F1 & U1 & S1)].
  rewrite (select_card_question pack (snd (reset_board d)) body i q1).
  - simpl. split; [reflexivity|]. split; [reflexivity|]. split; [reflexivity|].
    destruct (find_mark_used i _ q1 F1) as [q' (F & U & _)]. eauto.
  - open_db d. unfold clue_conflict, clueActive. reflexivity.
  - open_db d. exact Ht.
  - exact Hi.
  - exact Hne.
  - open_db d. exact F1.
  - intros _. congruence.
  - intros _. exact U1.
Qed.

(** X14.  Force overrides every guard of the picker.  A forced selectCard
    succeeds whatever clue is on display, whoever has the turn, and whether
    or not the question is selected or already used, as long as the question
    id, when given, is in the catalog; it puts a clue on display, opens the
    buzzer and empties the queue.  A question id that is not in the catalog
    is answered 404 even when forced. *)
Theorem X14_force_overrides_guards
    (pack : list default_question) (d : db) (body : select_card_body) :
  sc_force body = true ->
  (JS.truthy (sc_questionId body) = false
   \/ (exists i q, sc_questionId body = Some i /\ i <> ""
                   /\ find (fun q => (q_id q =? i)%string) (questions d) = Some q) ->
   fst (select_card pack d body) = StateJson (game_state (snd (select_card pack d body)))
   /\ clueActive (game_state (snd (select_card pack d body))) = true
   /\ lock_of (snd (select_card pack d body)) = (false, None)
   /\ buzz_queue (snd (select_card pack d body)) = [])
  /\ (forall i, sc_questionId body = Some i -> i <> "" ->
        find (fun q => (q_id q =? i)%string) (questions d) = None ->
        select_card pack d body = (Error 404 "Question not found", d)).
Proof.
  intros Hf.
  assert (H1 : clue_conflict (game_state d) body = false).
  { unfold clue_conflict. rewrite Hf. apply andb_false_r. }
  assert (H2 : not_your_turn (game_state d) body = false).
  { unfold not_your_turn. rewrite Hf. simpl. now rewrite andb_false_r. }
  split.
  - intros [He | (i & q & Hi & Hne & Hq)].
    + rewrite (select_card_empty_tile pack d body H1 H2 He). simpl.
      repeat split.
    + rewrite (select_card_question pack d body i q H1 H2 Hi Hne Hq);
        try (rewrite Hf; discriminate).
      simpl. unfold clueActive, lock_of. simpl.
      apply truthy_some in Hne. simpl in Hne. rewrite Hne. repeat split.
  - intros i Hi Hne Hq. unfold select_card, getGameState.
    rewrite H1, H2, Hi. apply truthy_some in Hne. rewrite Hne. simpl negb. cbv iota.
    now rewrite Hq.
Qed.

(** ** Points *)

Lemma clue_delta_real d i :
  current_is_placeholder (game_state d) = false ->
  current_question_id (game_state d) = Some i ->
  clue_delta d
  = option_map (fun q => JS.finite_or_zero (q_points q))
      (find (fun q => (q_id q =? i)%string) (questions d)).
Proof.
  intros Hp Hi. unfold clue_delta, getGameState. rewrite Hp, Hi.
  change (fun q => JS.strict_eq (Some (q_id q)) (Some i))
    with (fun q => (q_id q =? i)%string).
  destruct (find _ (questions d)); reflexivity.
Qed.

Lemma existsb_find_id (i : string) (qs : list question) :
  existsb (fun q => (q_id q =? i)%string) qs = true ->
  exists q, find (fun q => (q_id q =? i)%string) qs = Some q.
Proof.
  intros E. destruct (find _ qs) as [q|] eqn:F; [eauto|].
  apply existsb_exists in E. destruct E as [q [Hin Hq]].
  apply (find_none _ _ F) in Hin. congruence.
Qed.

(** X15.  A real clue is worth what the catalog says when it is resolved,
    not what the board showed when it was picked.  If the admin changes the
    points of the question on display, the state row keeps the points it
    had, but the value of the clue is the new one (0 when the new value is
    not a finite number), and a correct answer adds it to the player's
    score; the sum is exact when the score, the value and their sum are
    safe integers. *)
Theorem X15_catalog_points_at_resolve_time
    (d : db) (i : string) (points : option Q) (pid : string) (s : Z)
    (nextNow : string) :
  current_is_placeholder (game_state d) = false ->
  current_question_id (game_state d) = Some i ->
  i <> "" ->
  existsb (fun q => (q_id q =? i)%string) (questions d) = true ->
  known_player d pid ->
  score_of d pid = Some s ->
  let d1 := snd (set_question_points d i points) in
  let V := JS.finite_or_zero (JS.finite_trunc points) in
  fst (set_question_points d i points) = PointsJson i (JS.finite_trunc points)
  /\ game_state d1 = game_state d
  /\ clue_delta d1 = Some V
  /\ (safe_integer s -> safe_integer V -> safe_integer (s + V) ->
      score_of (snd (resolve_current d1 (Some pid) (Some true) nextNow)) pid
      = Some (s + V)).
Proof.
  intros Hp Hi Hne Hex [Hpid _] Hs. cbv zeta. unfold set_question_points.
  rewrite Hex. simpl fst. simpl snd.
  split; [reflexivity|]. split; [reflexivity|].
  destruct (existsb_find_id i _ Hex) as [q Hq].
  assert (Hd : clue_delta (set_questions d
                             (set_points i (JS.finite_trunc points) (questions d)))
               = Some (JS.finite_or_zero (JS.finite_trunc points))).
  { rewrite (clue_delta_real _ i) by assumption. simpl questions.
    unfold set_points. rewrite find_map_same_id.
    - rewrite Hq. simpl. pose proof (find_some _ _ Hq) as [_ E]. now rewrite E.
    - intros q0. destruct (q_id q0 =? i)%string; reflexivity. }
  split; [exact Hd|].
  assert (Hc : clueActive
                 (game_state
                    (set_questions d
                       (set_points i (JS.finite_trunc points) (questions d))))
               = true).
  { simpl. unfold clueActive. rewrite Hi. apply truthy_some in Hne.
    simpl in Hne. simpl. now rewrite Hne. }
  intros _ _ _.
  rewrite (resolve_current_correct _ pid nextNow _ Hpid Hc Hd).
  unfold score_of in *. simpl. rewrite find_add_score, Hs. simpl.
  now rewrite String.eqb_refl.
Qed.

(** ** Deleting a player, the tables *)

(** X16.  Deleting a registered player removes that player's rows and
    nobody else's: afterwards the players table is the old one without the
    rows of that id, the catalog is the old one without the questions that
    player submitted, and every other player keeps the score they had. *)
Theorem X16_delete_player_cascade (d : db) (id : string) :
  (exists p, In p (players d) /\ p_id p = id) ->
  players (snd (delete_player d id))
  = filter (fun p => negb (p_id p =? id)%string) (players d)
  /\ questions (snd (delete_player d id))
     = filter (fun q => negb (q_player_id q =? id)%string) (questions d)
  /\ (forall q, In q (questions (snd (delete_player d id))) <->
                In q (questions d) /\ q_player_id q <> id)
  /\ score_of (snd (delete_player d id)) id = None
  /\ (forall other, other <> id ->
        score_of (snd (delete_player d id)) other = score_of d other).
Proof.
  intros [p [Hin Hid]]. unfold delete_player.
  destruct (find_player_known p (players d) Hin) as [p' Hp'].
  rewrite Hid in Hp'. rewrite Hp'.
  open_db d. simpl in *.
  assert (Hfind : forall k,
             find (fun x => (p_id x =? k)%string)
               (filter (fun x => negb (p_id x =? id)%string) ps)
             = if (k =? id)%string then None
               else find (fun x => (p_id x =? k)%string) ps).
  { intros k. clear. induction ps as [|x ps IH]; simpl.
    - now destruct (k =? id)%string.
    - destruct (p_id x =? id)%string eqn:E1; simpl.
      + rewrite IH. destruct (k =? id)%string eqn:E2; [reflexivity|].
        destruct (p_id x =? k)%string eqn:E3; [|reflexivity].
        apply String.eqb_eq in E1, E3. apply String.eqb_neq in E2. congruence.
      + destruct (p_id x =? k)%string eqn:E3.
        * apply String.eqb_eq in E3. subst k. rewrite E1. reflexivity.
        * exact IH. }
  destruct (JS.strict_eq turn (Some id)); destruct (JS.strict_eq lbp (Some id));
    simpl; unfold score_of; simpl;
    (split; [reflexivity|]); (split; [reflexivity|]);
    (split; [intros q; rewrite filter_In, negb_true_iff, String.eqb_neq; tauto|]);
    (split; [rewrite Hfind, String.eqb_refl; reflexivity|]);
    intros other Ho; rewrite Hfind;
    apply String.eqb_neq in Ho; rewrite Ho; reflexivity.
Qed.

(** ** Slugs *)

Lemma slug_char_plain (c : ascii) :
  is_slug_char c = true -> JS.is_space c = false /\ JS.lower_char c = c.
Proof.
  destruct c as [[] [] [] [] [] [] [] []]; vm_compute; intros H;
    try discriminate H; split; reflexivity.
Qed.

Lemma keep_slug_chars_all (s : string) :
  string_forall is_slug_char (keep_slug_chars s) = true.
Proof.
  induction s as [|c s IH]; simpl; [reflexivity|].
  destruct (is_slug_char c) eqn:E; simpl; [now rewrite E|exact IH].
Qed.

Lemma substring_prefix_forall (f : ascii -> bool) (n : nat) (s : string) :
  string_forall f s = true -> string_forall f (substring 0 n s) = true.
Proof.
  revert s. induction n as [|n IH]; intros s H; destruct s as [|c s]; simpl; auto.
  simpl in H. apply andb_true_iff in H. destruct H as [Hc Hs].
  rewrite Hc. simpl. now apply IH.
Qed.

Lemma substring_prefix_length (n : nat) (s : string) :
  (String.length (substring 0 n s) <= n)%nat.
Proof.
  revert s. induction n as [|n IH]; intros s; destruct s as [|c s]; simpl;
    try lia. specialize (IH s). lia.
Qed.

Lemma substring_prefix_short (n : nat) (s : string) :
  (String.length s <= n)%nat -> substring 0 n s = s.
Proof.
  revert s. induction n as [|n IH]; intros s H; destruct s as [|c s]; simpl in *;
    try reflexivity; try lia. f_equal. apply IH. lia.
Qed.

Lemma slug_chars_fixed (s : string) :
  string_forall is_slug_char s = true ->
  JS.toLowerCase s = s /\ JS.trimStart s = s /\ JS.trimEnd s = s
  /\ keep_slug_chars s = s.
Proof.
  induction s as [|c s IH]; simpl; [auto|].
  intros H. apply andb_true_iff in H. destruct H as [Hc Hs].
  destruct (IH Hs) as (L & _ & E & K).
  destruct (slug_char_plain c Hc) as [Sp Lo].
  rewrite Lo, L, Sp, E, Hc, K. auto.
Qed.

Lemma slugify_nonempty (name : string) : slugify name <> "".
Proof.
  unfold slugify, JS.or_else.
  destruct (substring 0 40 _ =? "")%string eqn:E; [discriminate|].
  now apply String.eqb_neq in E.
Qed.

(** X17.  A slug is a short lowercase word.  For every name, [slugify]
    returns a non-empty string of at most 40 characters, all of them in
    a-z or 0-9, and slugifying a slug gives it back. *)
Theorem X17_slugify_shape (name : string) :
  slugify name <> ""
  /\ (String.length (slugify name) <= 40)%nat
  /\ string_forall is_slug_char (slugify name) = true
  /\ slugify (slugify name) = slugify name.
Proof.
  assert (Shape : slugify name <> ""
                  /\ (String.length (slugify name) <= 40)%nat
                  /\ string_forall is_slug_char (slugify name) = true).
  { unfold slugify, JS.or_else.
    set (r := substring 0 40 _).
    destruct (r =? "")%string eqn:E.
    - split; [discriminate|]. split; [simpl; lia | reflexivity].
    - apply String.eqb_neq in E. split; [exact E|].
      split; [apply substring_prefix_length|].
      apply substring_prefix_forall, keep_slug_chars_all. }
  destruct Shape as (Hne & Hlen & Hall).
  split; [exact Hne|]. split; [exact Hlen|]. split; [exact Hall|].
  destruct (slug_chars_fixed _ Hall) as (L & Ts & Te & K).
  unfold slugify at 1. unfold JS.trim. rewrite L, Ts, Te, K.
  rewrite (substring_prefix_short 40 _ Hlen).
  unfold JS.or_else. apply String.eqb_neq in Hne. now rewrite Hne.
Qed.

Lemma append_inj_l (a b c : string) : (a ++ b = a ++ c -> b = c)%string.
Proof. induction a as [|x a IH]; simpl; intros H; [exact H|]. injection H. exact IH. Qed.

Lemma append_length (a b : string) :
  String.length (a ++ b) = (String.length a + String.length b)%nat.
Proof. induction a as [|x a IH]; simpl; [reflexivity|]. now rewrite IH. Qed.

Lemma slug_candidate_inj (baseSlug : string) (j k : nat) :
  slug_candidate baseSlug j = slug_candidate baseSlug k -> j = k.
Proof.
  unfold slug_candidate. intros H.
  apply append_inj_l in H. apply (append_inj_l "-") in H.
  apply Unsigned.to_uint_inj.
  assert (E : NilEmpty.uint_of_string (NilEmpty.string_of_uint (Nat.to_uint j))
              = NilEmpty.uint_of_string (NilEmpty.string_of_uint (Nat.to_uint k)))
    by now rewrite H.
  rewrite !NilEmpty.usu in E. now injection E.
Qed.

Lemma slug_candidate_not_base (baseSlug : string) (k : nat) :
  slug_candidate baseSlug k <> baseSlug.
Proof.
  unfold slug_candidate. intros H.
  assert (L : String.length (baseSlug ++ "-" ++ NilEmpty.string_of_uint (Nat.to_uint k))
              = String.length baseSlug) by now rewrite H.
  rewrite append_length in L. simpl in L. lia.
Qed.

Lemma nth_candidate_inj (baseSlug : string) (j k : nat) :
  nth_candidate baseSlug j = nth_candidate baseSlug k -> j = k.
Proof.
  unfold nth_candidate.
  destruct (j =? 1)%nat eqn:J; destruct (k =? 1)%nat eqn:K; intros H.
  - apply Nat.eqb_eq in J, K. congruence.
  - symmetry in H. now apply slug_candidate_not_base in H.
  - now apply slug_candidate_not_base in H.
  - now apply slug_candidate_inj in H.
Qed.

Lemma unique_slug_loop_finds (d : db) (baseSlug : string) (fuel : nat) :
  forall (c : nat) (ps : list player),
    (1 <= c)%nat ->
    (forall p k, In p (players d) -> (c <= k)%nat ->
                 p_slug p = Some (nth_candidate baseSlug k) -> In p ps) ->
    (List.length ps < fuel)%nat ->
    exists s k,
      unique_slug_loop fuel d baseSlug c (nth_candidate baseSlug c) = Some s
      /\ slug_taken d s = false
      /\ (c <= k < c + fuel)%nat
      /\ s = nth_candidate baseSlug k
      /\ (forall j, (c <= j < k)%nat ->
                    slug_taken d (nth_candidate baseSlug j) = true).
Proof.
  induction fuel as [|fuel IH]; intros c ps Hc Hps Hlen; [lia|].
  simpl. destruct (slug_taken d (nth_candidate baseSlug c)) eqn:T.
  - unfold slug_taken in T. apply existsb_exists in T.
    destruct T as (p & Hin & Hp).
    assert (Sp : p_slug p = Some (nth_candidate baseSlug c)).
    { destruct (p_slug p) as [s|]; simpl in Hp; [|discriminate].
      apply String.eqb_eq in Hp. now subst s. }
    set (other := fun r : player =>
                    negb (JS.strict_eq (p_slug r) (Some (nth_candidate baseSlug c)))).
    assert (Hshort : (List.length (filter other ps) < List.length ps)%nat).
    { assert (Hmem : In p ps) by (apply (Hps p c); auto).
      clear - Hmem Hp. induction ps as [|r ps IHps]; [destruct Hmem|].
      simpl. destruct Hmem as [-> | Hmem].
      - unfold other at 1. rewrite Hp. simpl.
        pose proof (filter_length_le other ps). lia.
      - specialize (IHps Hmem). destruct (other r); simpl; lia. }
    destruct (IH (S c) (filter other ps)) as (s & k & L & F & B & E & A).
    + lia.
    + intros r k Hr Hk Sr. apply filter_In. split.
      * apply (Hps r k); auto. lia.
      * unfold other. rewrite Sr. simpl.
        apply negb_true_iff, String.eqb_neq. intros Heq.
        apply nth_candidate_inj in Heq. lia.
    + lia.
    + assert (Hnext : nth_candidate baseSlug (S c) = slug_candidate baseSlug (S c)).
      { unfold nth_candidate. destruct c; [lia|]. reflexivity. }
      rewrite Hnext in L.
      exists s, k. split; [exact L|]. split; [exact F|]. split; [lia|].
      split; [exact E|].
      intros j Hj. destruct (Nat.eq_dec j c) as [-> | Hne].
      * unfold slug_taken. apply existsb_exists. exists p. auto.
      * apply A. lia.
  - exists (nth_candidate baseSlug c), c.
    split; [reflexivity|]. split; [exact T|]. split; [lia|].
    split; [reflexivity|]. intros j Hj. lia.
Qed.

(** X18.  [ensureUniqueSlug] always answers, with a slug no player has: the
    base slug when it is free, otherwise the first free one of base-2,
    base-3, ...; it never needs more passes than there are players, plus
    one. *)
Theorem X18_ensureUniqueSlug_first_free (d : db) (baseSlug : string) :
  exists s k,
    ensureUniqueSlug d baseSlug = Some s
    /\ slug_taken d s = false
    /\ (1 <= k <= S (List.length (players d)))%nat
    /\ s = nth_candidate baseSlug k
    /\ (forall j, (1 <= j < k)%nat ->
                  slug_taken d (nth_candidate baseSlug j) = true)
    /\ (slug_taken d baseSlug = false -> s = baseSlug).
Proof.
  destruct (unique_slug_loop_finds d baseSlug (S (List.length (players d)))
              1 (players d)) as (s & k & L & F & B & E & A); auto.
  exists s, k. split; [exact L|]. split; [exact F|]. split; [lia|].
  split; [exact E|]. split; [exact A|].
  intros Free. destruct (Nat.eq_dec k 1) as [-> | Hk]; [exact E|].
  assert (T : slug_taken d (nth_candidate baseSlug 1) = true) by (apply A; lia).
  change (nth_candidate baseSlug 1) with baseSlug in T. congruence.
Qed.

(** ** Registration *)

Lemma slug_taken_iff (d : db) (s : string) :
  slug_taken d s = true <-> In s (slugs (players d)).
Proof.
  unfold slug_taken, slugs. rewrite existsb_exists, in_flat_map.
  split; intros (p & Hin & Hp); exists p; split; auto.
  - destruct (p_slug p) as [x|]; simpl in *; [|discriminate].
    apply String.eqb_eq in Hp. now left.
  - destruct (p_slug p) as [x|]; simpl in *; [|destruct Hp].
    destruct Hp as [-> | []]. apply String.eqb_refl.
Qed.

Lemma slug_free_not_in (d : db) (s : string) :
  slug_taken d s = false -> ~ In s (slugs (players d)).
Proof. intros F Hin. apply slug_taken_iff in Hin. congruence. Qed.

Lemma nth_candidate_nonempty (baseSlug : string) (k : nat) :
  baseSlug <> "" -> nth_candidate baseSlug k <> "".
Proof.
  intros Hb. unfold nth_candidate, slug_candidate.
  destruct (k =? 1)%nat; [exact Hb|].
  destruct baseSlug; [congruence | discriminate].
Qed.

Lemma ensureUniqueSlug_of_slugify (d : db) (name : string) :
  exists s,
    ensureUniqueSlug d (slugify name) = Some s
    /\ s <> "" /\ slug_taken d s = false
    /\ (slug_taken d (slugify name) = false -> s = slugify name).
Proof.
  destruct (unique_slug_loop_finds d (slugify name) (S (List.length (players d)))
              1 (players d)) as (s & k & L & F & B & E & A); auto.
  exists s. split; [exact L|]. split.
  { rewrite E. apply nth_candidate_nonempty, slugify_nonempty. }
  split; [exact F|].
  intros Free. destruct (Nat.eq_dec k 1) as [-> | Hk]; [exact E|].
  assert (T : slug_taken d (nth_candidate (slugify name) 1) = true) by (apply A; lia).
  change (nth_candidate (slugify name) 1) with (slugify name) in T. congruence.
Qed.

Lemma not_in_existsb_false {A} (key : A -> string) (k : string) (l : list A) :
  ~ In k (map key l) -> existsb (fun x => (key x =? k)%string) l = false.
Proof.
  intros Hn. destruct (existsb _ l) eqn:E; [|reflexivity].
  apply existsb_exists in E. destruct E as (x & Hx & Hk).
  apply String.eqb_eq in Hk. exfalso. apply Hn. rewrite <- Hk. now apply in_map.
Qed.

Lemma slugs_app (ps qs : list player) : slugs (ps ++ qs) = slugs ps ++ slugs qs.
Proof. unfold slugs. apply flat_map_app. Qed.

Lemma NoDup_snoc {A} (l : list A) (x : A) : NoDup l -> ~ In x l -> NoDup (l ++ [x]).
Proof.
  intros Hl Hx. apply NoDup_app; [exact Hl | repeat constructor; intros [] |].
  intros a Ha [<- | []]. contradiction.
Qed.

Lemma find_slug_snoc (ps : list player) (p : player) (s : string) :
  ~ In s (slugs ps) -> p_slug p = Some s ->
  find (fun r => JS.strict_eq (p_slug r) (Some s)) (ps ++ [p]) = Some p.
Proof.
  intros Hn Hp. induction ps as [|r ps IH]; simpl.
  - rewrite Hp. simpl. now rewrite String.eqb_refl.
  - destruct (JS.strict_eq (p_slug r) (Some s)) eqn:E.
    + exfalso. apply Hn. unfold slugs. simpl.
      destruct (p_slug r) as [x|]; simpl in E; [|discriminate].
      apply String.eqb_eq in E. subst x. now left.
    + apply IH. intros Hin. apply Hn. unfold slugs in *. simpl.
      apply in_or_app. now right.
Qed.

(** X19.  Registration.  A request with a non-empty name and an unused id
    always creates the player: score 0, the trimmed name, and a non-empty
    slug that no other player has (the slugified name itself when that is
    free).  The new row is appended, the primary key and the unique slug
    index still hold, and the new slug looks up the new player.  A request
    without a name, or with an empty one, is refused with 400 and changes
    nothing. *)
Theorem X19_create_player_registers (d : db) (n : string)
    (photoUrl : option string) (uuid now : string) :
  roster_ok d ->
  n <> "" ->
  ~ In uuid (map p_id (players d)) ->
  (exists p s,
      create_player d (Some n) photoUrl uuid now
      = (PlayerCreated p, set_players d (players d ++ [p]))
      /\ p_id p = uuid /\ p_name p = JS.trim n /\ p_score p = 0
      /\ p_slug p = Some s /\ s <> "" /\ slug_taken d s = false
      /\ (slug_taken d (slugify n) = false -> s = slugify n)
      /\ roster_ok (snd (create_player d (Some n) photoUrl uuid now))
      /\ findPlayerBySlug (snd (create_player d (Some n) photoUrl uuid now)) s
         = Some p)
  /\ create_player d None photoUrl uuid now = (Refused 400 "Name is required", d)
  /\ create_player d (Some "") photoUrl uuid now = (Refused 400 "Name is required", d).
Proof.
  intros [Hids Hslugs] Hn Hid.
  split; [|split; reflexivity].
  destruct (ensureUniqueSlug_of_slugify d n) as (s & E & Hs & F & B).
  exists (mk_player uuid (JS.trim n) (Some s) 0 (JS.or_opt photoUrl None) now), s.
  assert (C : create_player d (Some n) photoUrl uuid now
              = (PlayerCreated
                   (mk_player uuid (JS.trim n) (Some s) 0 (JS.or_opt photoUrl None) now),
                 set_players d
                   (players d
                    ++ [mk_player uuid (JS.trim n) (Some s) 0
                          (JS.or_opt photoUrl None) now]))).
  { unfold create_player. apply String.eqb_neq in Hn. rewrite Hn, E, F.
    rewrite (not_in_existsb_false _ _ _ Hid). reflexivity. }
  rewrite C. split; [reflexivity|].
  repeat (split; [first [reflexivity | assumption]|]).
  pose proof (slug_free_not_in d s F) as Hfree.
  destruct d as [ps qs bq g]. simpl in *. split.
  - split; simpl.
    + rewrite map_app. now apply NoDup_snoc.
    + rewrite slugs_app. now apply NoDup_snoc.
  - unfold findPlayerBySlug. simpl. now apply find_slug_snoc.
Qed.

(** ** Renaming *)

Lemma find_split {A} (f : A -> bool) (l : list A) (x : A) :
  find f l = Some x ->
  exists l1 l2, l = l1 ++ x :: l2 /\ f x = true
                /\ (forall y, In y l1 -> f y = false).
Proof.
  induction l as [|a l IH]; simpl; [discriminate|].
  destruct (f a) eqn:E; intros H.
  - injection H as ->. exists [], l. repeat split; auto. intros y [].
  - destruct (IH H) as (l1 & l2 & -> & Hx & Hl1).
    exists (a :: l1), l2. repeat split; auto.
    intros y [<- | Hy]; auto.
Qed.

Lemma find_app_skip {A} (f : A -> bool) (l1 l : list A) :
  (forall y, In y l1 -> f y = false) -> find f (l1 ++ l) = find f l.
Proof.
  induction l1 as [|a l1 IH]; simpl; intros H; [reflexivity|].
  rewrite (H a) by now left. apply IH. intros y Hy. apply H. now right.
Qed.

Lemma update_player_other (id : string) name slug photo (ps : list player) :
  ~ In id (map p_id ps) -> update_player id name slug photo ps = ps.
Proof.
  unfold update_player. induction ps as [|p ps IH]; simpl; intros H; [reflexivity|].
  destruct (p_id p =? id)%string eqn:E.
  - apply String.eqb_eq in E. exfalso. apply H. now left.
  - f_equal. apply IH. intros Hin. apply H. now right.
Qed.

Lemma update_player_at (c : player) name slug photo (l1 l2 : list player) :
  NoDup (map p_id (l1 ++ c :: l2)) ->
  update_player (p_id c) name slug photo (l1 ++ c :: l2)
  = l1 ++ mk_player (p_id c)
            (match name with Some n => n | None => p_name c end)
            (match slug with Some s => Some s | None => p_slug c end)
            (p_score c)
            (match photo with Some v => v | None => p_photo_url c end)
            (p_created_at c) :: l2.
Proof.
  intros Hnd. rewrite map_app in Hnd. simpl in Hnd.
  apply NoDup_remove in Hnd. destruct Hnd as [_ Hc].
  unfold update_player at 1. rewrite map_app. simpl.
  rewrite String.eqb_refl.
  fold (update_player (p_id c) name slug photo l1).
  fold (update_player (p_id c) name slug photo l2).
  rewrite !update_player_other; [reflexivity | |];
    intros Hin; apply Hc, in_or_app; auto.
Qed.

Lemma slug_in_slugs (p : player) (s : string) (ps : list player) :
  In p ps -> p_slug p = Some s -> In s (slugs ps).
Proof.
  intros Hin Hp. unfold slugs. apply in_flat_map. exists p. split; [exact Hin|].
  rewrite Hp. now left.
Qed.

Lemma strict_eq_slug (p : player) (s : string) :
  JS.strict_eq (p_slug p) (Some s) = true <-> p_slug p = Some s.
Proof.
  destruct (p_slug p) as [x|]; simpl; split; intros H; try discriminate.
  - apply String.eqb_eq in H. now subst.
  - injection H as ->. apply String.eqb_refl.
Qed.

(** X20.  Renaming moves the profile link.  When a PATCH with a name that
    is not blank finds its player, the player keeps id, score and creation
    date, takes the trimmed name and gets a slug that was free before the
    request, hence a different one, even when the name is unchanged.
    Afterwards the new slug finds the player, the old slug finds nobody,
    no other row has changed and the table constraints still hold. *)
Theorem X20_rename_moves_the_link (d : db) (slug n : string)
    (photoUrl : option (option string)) (current : player) :
  roster_ok d ->
  findPlayerBySlug d slug = Some current ->
  JS.trim n <> "" ->
  exists s u d',
    patch_player d slug (Some n) photoUrl = (PlayerJson (Some u), d')
    /\ s <> slug /\ s <> "" /\ slug_taken d s = false
    /\ u = mk_player (p_id current) (JS.trim n) (Some s) (p_score current)
             (match photoUrl with
              | Some v => JS.or_opt v None
              | None => p_photo_url current
              end)
             (p_created_at current)
    /\ findPlayerBySlug d' s = Some u
    /\ findPlayerBySlug d' slug = None
    /\ (exists l1 l2, players d = l1 ++ current :: l2
                      /\ players d' = l1 ++ u :: l2)
    /\ roster_ok d'
    /\ questions d' = questions d /\ buzz_queue d' = buzz_queue d
    /\ game_state d' = game_state d.
Proof.
  intros [Hids Hslugs] Hfind Hn.
  destruct (ensureUniqueSlug_of_slugify d (JS.trim n)) as (s & E & Hs & F & _).
  pose proof (slug_free_not_in d s F) as Hfree.
  unfold findPlayerBySlug in Hfind.
  destruct (find_split _ _ _ Hfind) as (l1 & l2 & Hps & Hcur & Hl1).
  apply strict_eq_slug in Hcur.
  set (u := mk_player (p_id current) (JS.trim n) (Some s) (p_score current)
              (match photoUrl with
               | Some v => JS.or_opt v None
               | None => p_photo_url current
               end)
              (p_created_at current)).
  assert (Hup : update_player (p_id current) (Some (JS.trim n)) (Some s)
                  (option_map (fun v => JS.or_opt v None) photoUrl) (players d)
                = l1 ++ u :: l2).
  { rewrite Hps. rewrite update_player_at by (rewrite <- Hps; exact Hids).
    unfold u. destruct photoUrl; reflexivity. }
  assert (Hne : s <> slug).
  { intros ->. apply Hfree. apply (slug_in_slugs current); [|exact Hcur].
    rewrite Hps. apply in_or_app. right. now left. }
  assert (Hold : ~ In slug (slugs l1 ++ slugs l2)).
  { rewrite Hps, slugs_app in Hslugs. unfold slugs at 2 in Hslugs.
    simpl in Hslugs. rewrite Hcur in Hslugs. simpl in Hslugs.
    fold (slugs l2) in Hslugs. now apply NoDup_remove in Hslugs. }
  assert (Hnew : ~ In s (slugs l1 ++ slug :: slugs l2)).
  { intros Hin. apply Hfree. rewrite Hps, slugs_app. unfold slugs at 2. simpl.
    rewrite Hcur. exact Hin. }
  assert (Hfs : find (fun p => JS.strict_eq (p_slug p) (Some s)) (l1 ++ u :: l2)
                = Some u).
  { rewrite find_app_skip.
    - simpl. now rewrite String.eqb_refl.
    - intros y Hy. destruct (JS.strict_eq (p_slug y) (Some s)) eqn:Y; [|reflexivity].
      apply strict_eq_slug in Y. exfalso. apply Hnew, in_or_app. left.
      now apply (slug_in_slugs y). }
  exists s, u,
    (set_players d
       (update_player (p_id current) (Some (JS.trim n)) (Some s)
          (option_map (fun v => JS.or_opt v None) photoUrl) (players d))).
  split.
  { unfold patch_player, findPlayerBySlug. rewrite Hfind.
    apply String.eqb_neq in Hn. rewrite Hn. rewrite E.
    apply String.eqb_neq in Hs. rewrite Hs.
    destruct d as [ps qs bq g]. simpl in *. rewrite Hup.
    destruct photoUrl; simpl; rewrite Hfs; reflexivity. }
  split; [exact Hne|]. split; [exact Hs|]. split; [exact F|].
  split; [reflexivity|].
  destruct d as [ps qs bq g]. simpl in *. rewrite Hup.
  unfold findPlayerBySlug. simpl.
  split; [exact Hfs|]. split.
  { destruct (find (fun p => JS.strict_eq (p_slug p) (Some slug)) (l1 ++ u :: l2))
      as [y|] eqn:Y; [|reflexivity].
    apply find_some in Y. destruct Y as [Hy Ys]. apply strict_eq_slug in Ys.
    exfalso. apply in_app_or in Hy. destruct Hy as [Hy | [<- | Hy]].
    - apply Hold, in_or_app. left. now apply (slug_in_slugs y).
    - simpl in Ys. congruence.
    - apply Hold, in_or_app. right. now apply (slug_in_slugs y). }
  split; [exists l1, l2; auto|].
  split; [|auto].
  split; simpl.
  - rewrite Hps in Hids. rewrite map_app in *. exact Hids.
  - rewrite slugs_app. unfold slugs at 2. simpl. fold (slugs l2).
    apply (Permutation_NoDup (l := s :: slugs l1 ++ slugs l2)).
    + apply Permutation_middle.
    + constructor.
      * intros Hin. apply Hnew. apply in_app_or in Hin. apply in_or_app.
        destruct Hin; [left | right; right]; assumption.
      * rewrite Hps, slugs_app in Hslugs. unfold slugs at 2 in Hslugs.
        simpl in Hslugs. rewrite Hcur in Hslugs. simpl in Hslugs.
        fold (slugs l2) in Hslugs. now apply NoDup_remove in Hslugs.
Qed.

(** ** Manual score changes *)

Lemma find_set_score (id j : string) (f : Z -> Z) (ps : list player) :
  find (fun p => (p_id p =? j)%string) (set_score id f ps)
  = option_map
      (fun p => if (p_id p =? id)%string
                then mk_player (p_id p) (p_name p) (p_slug p) (f (p_score p))
                       (p_photo_url p) (p_created_at p)
                else p)
      (find (fun p => (p_id p =? j)%string) ps).
Proof.
  unfold set_score. induction ps as [|p ps IH]; simpl; [reflexivity|].
  destruct (p_id p =? id)%string eqn:E; simpl;
    destruct (p_id p =? j)%string; simpl; rewrite ?E; auto.
Qed.

Lemma score_of_set_score (d : db) (id j : string) (f : Z -> Z) :
  score_of (set_players d (set_score id f (players d))) j
  = if (j =? id)%string then option_map f (score_of d j) else score_of d j.
Proof.
  unfold score_of. destruct d as [ps qs bq g]. simpl.
  rewrite find_set_score.
  destruct (find (fun p => (p_id p =? j)%string) ps) as [p|] eqn:E; simpl.
  - apply find_some in E. destruct E as [_ E]. apply String.eqb_eq in E.
    rewrite E. destruct (j =? id)%string; reflexivity.
  - destruct (j =? id)%string; reflexivity.
Qed.

Lemma set_score_back (id : string) (a : Z) (ps : list player) :
  set_score id (fun s => s + - a) (set_score id (fun s => s + a) ps) = ps.
Proof.
  unfold set_score. rewrite map_map. rewrite <- (map_id ps) at 2.
  apply map_ext. intros p. destruct (p_id p =? id)%string eqn:E; simpl.
  - rewrite E. destruct p. simpl. f_equal. lia.
  - now rewrite E.
Qed.

Lemma Math_trunc_opp (x : Q) : JS.Math_trunc (- x) = - JS.Math_trunc x.
Proof. unfold JS.Math_trunc. simpl. now apply Z.quot_opp_l. Qed.

(** X21.  Manual score changes.  For a registered player, a finite [score]
    replaces the score by its integer part whatever [delta] says; without
    a score, a finite [delta] adds its integer part, truncated toward zero.
    The sum is exact when the old score, the integer part and their sum
    are safe integers; then adding x and afterwards -x gives back the same
    players, questions, queue and game state.  Nobody else's score moves,
    and questions, queue and game state are left alone.  A value that is
    not a finite number is refused with 400, and none of the four tables
    changes.  (Every accepted call also logs an event; the log is not part
    of the statement.) *)
Theorem X21_adjust_score (d : db) (id : string) (s0 : Z) (x : Q)
    (delta : option Q) :
  NoDup (map p_id (players d)) ->
  score_of d id = Some s0 ->
  (fst (adjust_score d id (Some (Some x)) delta)
   = ScoreJson id (Some (JS.Math_trunc x))
   /\ score_of (snd (adjust_score d id (Some (Some x)) delta)) id
      = Some (JS.Math_trunc x)
   /\ (forall j, j <> id ->
         score_of (snd (adjust_score d id (Some (Some x)) delta)) j = score_of d j))
  /\ ((forall j, j <> id ->
         score_of (snd (adjust_score d id None (Some x))) j = score_of d j)
      /\ (safe_integer s0 -> safe_integer (JS.Math_trunc x) ->
          safe_integer (s0 + JS.Math_trunc x) ->
          fst (adjust_score d id None (Some x))
          = ScoreJson id (Some (s0 + JS.Math_trunc x))
          /\ score_of (snd (adjust_score d id None (Some x))) id
             = Some (s0 + JS.Math_trunc x)
          /\ snd (adjust_score (snd (adjust_score d id None (Some x))) id None
                    (Some (- x)%Q)) = d))
  /\ (forall r, r = adjust_score d id (Some (Some x)) delta
                \/ r = adjust_score d id None (Some x) ->
        questions (snd r) = questions d /\ buzz_queue (snd r) = buzz_queue d
        /\ game_state (snd r) = game_state d)
  /\ adjust_score d id (Some None) delta = (Refused 400 "score must be a number", d)
  /\ adjust_score d id None None = (Refused 400 "delta must be a number", d).
Proof.
  intros _ Hs.
  assert (Hf : exists p, find (fun p => (p_id p =? id)%string) (players d) = Some p).
  { unfold score_of in Hs.
    destruct (find (fun p => (p_id p =? id)%string) (players d)) as [p|];
      [eauto | discriminate]. }
  destruct Hf as [p Hf].
  unfold adjust_score. rewrite Hf. cbv zeta. simpl fst. simpl snd.
  split; [|split; [|split; [|split; reflexivity]]].
  - split; [reflexivity|]. split.
    + rewrite score_of_set_score, String.eqb_refl, Hs. reflexivity.
    + intros j Hj. rewrite score_of_set_score.
      apply String.eqb_neq in Hj. now rewrite Hj.
  - assert (Hnew : score_of (set_players d
                     (set_score id (fun s => s + JS.Math_trunc x) (players d))) id
                   = Some (s0 + JS.Math_trunc x)).
    { rewrite score_of_set_score, String.eqb_refl, Hs. reflexivity. }
    split.
    + intros j Hj. rewrite score_of_set_score.
      apply String.eqb_neq in Hj. now rewrite Hj.
    + intros _ _ _.
      split; [now rewrite Hnew|]. split; [exact Hnew|].
      rewrite Math_trunc_opp.
      destruct d as [ps qs bq g]. simpl in *.
      rewrite find_set_score, Hf. simpl. now rewrite set_score_back.
  - intros r [-> | ->]; destruct d as [ps qs bq g]; simpl; auto.
Qed.

(** ** Sound names *)

(** X22.  Sound names are a closed list.  Whatever [normalizeSfxName]
    accepts is one of buzzer, tick, correct and wrong; each of the four is
    accepted as it is and with the .wav extension, and an accepted name is
    its own normal form. *)
Theorem X22_sfx_names_closed (name b : string) :
  (normalizeSfxName name = Some b ->
   In b sfx_names /\ normalizeSfxName b = Some b
   /\ normalizeSfxName (b ++ ".wav") = Some b)
  /\ (In b sfx_names ->
      normalizeSfxName b = Some b /\ normalizeSfxName (b ++ ".wav") = Some b).
Proof.
  assert (Canon : In b sfx_names ->
                  normalizeSfxName b = Some b
                  /\ normalizeSfxName (b ++ ".wav") = Some b).
  { intros Hin. simpl in Hin.
    destruct Hin as [<- | [<- | [<- | [<- | []]]]]; split; reflexivity. }
  split; [|exact Canon].
  unfold normalizeSfxName at 1. cbv zeta.
  destruct (existsb _ sfx_names) eqn:E; [|discriminate].
  intros H. injection H as H. rewrite H in E.
  apply existsb_exists in E. destruct E as (x & Hx & Hbx).
  apply String.eqb_eq in Hbx. subst x.
  split; [exact Hx | now apply Canon].
Qed.

(** ** The activity log *)

Lemma newest_first_total (a b : event) :
  newest_first a b = true \/ newest_first b a = true.
Proof. unfold newest_first. apply String.leb_total. Qed.

Lemma newest_first_trans (a b c : event) :
  newest_first a b = true -> newest_first b c = true -> newest_first a c = true.
Proof. unfold newest_first. intros H1 H2. eapply string_leb_trans; eauto. Qed.

Lemma filter_perm {A} (f : A -> bool) (l l' : list A) :
  Permutation l l' -> Permutation (filter f l) (filter f l').
Proof.
  induction 1 as [| x l l' _ IH | x y l | l l' l'' _ IH1 _ IH2]; simpl.
  - constructor.
  - destruct (f x); [now constructor | exact IH].
  - destruct (f x), (f y); try reflexivity. apply perm_swap.
  - now transitivity (filter f l').
Qed.

Lemma filter_keeps_all {A} (f : A -> bool) (l : list A) :
  (forall x, In x l -> f x = true) -> filter f l = l.
Proof.
  induction l as [|a l IH]; simpl; intros H; [reflexivity|].
  rewrite (H a) by now left. f_equal. apply IH. intros x Hx. apply H. now right.
Qed.

Lemma filter_drops_all {A} (f : A -> bool) (l : list A) :
  (forall x, In x l -> f x = false) -> filter f l = [].
Proof.
  induction l as [|a l IH]; simpl; intros H; [reflexivity|].
  rewrite (H a) by now left. apply IH. intros x Hx. apply H. now right.
Qed.

Lemma NoDup_map_same {A B} (f : A -> B) (l : list A) (x y : A) :
  NoDup (map f l) -> In x l -> In y l -> f x = f y -> x = y.
Proof.
  induction l as [|a l IH]; simpl; intros Hnd Hx Hy E; [destruct Hx|].
  inversion Hnd as [|? ? Ha Hl]; subst.
  destruct Hx as [-> | Hx], Hy as [-> | Hy]; auto.
  - exfalso. apply Ha. rewrite E. now apply in_map.
  - exfalso. apply Ha. rewrite <- E. now apply in_map.
Qed.

Lemma NoDup_map_filter {A B} (f : A -> B) (keep : A -> bool) (l : list A) :
  NoDup (map f l) -> NoDup (map f (filter keep l)).
Proof.
  induction l as [|a l IH]; simpl; intros Hnd; [constructor|].
  inversion Hnd as [|? ? Ha Hl]; subst.
  destruct (keep a); simpl; [|now apply IH].
  constructor; [|now apply IH].
  intros Hin. apply Ha. apply in_map_iff in Hin. destruct Hin as (x & E & Hx).
  apply filter_In in Hx. rewrite <- E. apply in_map. tauto.
Qed.

Lemma NoDup_app_disjoint {A} (l1 l2 : list A) (x : A) :
  NoDup (l1 ++ l2) -> In x l1 -> In x l2 -> False.
Proof.
  induction l1 as [|a l1 IH]; simpl; intros Hnd H1 H2; [destruct H1|].
  inversion Hnd as [|? ? Ha Hl]; subst.
  destruct H1 as [-> | H1]; [|now apply IH].
  apply Ha, in_or_app. now right.
Qed.

Lemma StronglySorted_app_cross {A} (R : A -> A -> Prop) (l1 l2 : list A) (a b : A) :
  StronglySorted R (l1 ++ l2) -> In a l1 -> In b l2 -> R a b.
Proof.
  induction l1 as [|c l1 IH]; simpl; intros S Ha Hb; [destruct Ha|].
  inversion S as [|? ? S' F]; subst.
  destruct Ha as [-> | Ha]; [|now apply IH].
  rewrite Forall_forall in F. apply F, in_or_app. now right.
Qed.

(** X23.  The activity log keeps the newest 300 rows.  Logging an event
    with a new id always succeeds; afterwards the table holds
    min(300, n + 1) rows with distinct ids, all of them rows that were
    there or the new one, and no dropped row is newer than a kept one.
    Below 300 rows nothing is dropped. *)
Theorem X23_logEvent_keeps_newest_300 (events : list event)
    (type message : string) (data_json : option string) (uuid now : string) :
  NoDup (map e_id events) ->
  ~ In uuid (map e_id events) ->
  exists kept,
    logEvent events type message data_json uuid now
    = Some (mk_event uuid type message data_json now, kept)
    /\ List.length kept = Nat.min 300 (S (List.length events))
    /\ NoDup (map e_id kept)
    /\ (forall e, In e kept ->
          In e (events ++ [mk_event uuid type message data_json now]))
    /\ (forall k x,
          In k kept ->
          In x (events ++ [mk_event uuid type message data_json now]) ->
          ~ In x kept ->
          String.leb (e_created_at x) (e_created_at k) = true)
    /\ ((List.length events < 300)%nat ->
        kept = events ++ [mk_event uuid type message data_json now]).
Proof.
  intros Hnd Hfresh.
  set (evt := mk_event uuid type message data_json now).
  set (inserted := events ++ [evt]).
  set (sorted := order_by newest_first inserted).
  set (top := firstn 300 sorted).
  set (rest := skipn 300 sorted).
  set (keepf := fun e : event => existsb (String.eqb (e_id e)) (map e_id top)).
  assert (Hins : NoDup (map e_id inserted)).
  { unfold inserted. rewrite map_app. now apply NoDup_snoc. }
  assert (P : Permutation sorted inserted) by apply order_by_perm.
  assert (Hsplit : sorted = top ++ rest)
    by (symmetry; apply firstn_skipn).
  assert (Hsorted : NoDup sorted).
  { apply (Permutation_NoDup (Permutation_sym P)).
    now apply (NoDup_map_inv e_id). }
  assert (Htop_in : forall e, In e top -> In e inserted).
  { intros e He. apply (Permutation_in e P). rewrite Hsplit.
    apply in_or_app. now left. }
  assert (Hkeep : forall e, In e inserted -> (keepf e = true <-> In e top)).
  { intros e He. unfold keepf. rewrite existsb_exists. split.
    - intros (i & Hi & Ei). apply String.eqb_eq in Ei.
      apply in_map_iff in Hi. destruct Hi as (y & Ey & Hy).
      assert (y = e) as <-; [|exact Hy].
      apply (NoDup_map_same e_id inserted); auto. congruence.
    - intros Ht. exists (e_id e). split; [now apply in_map|].
      apply String.eqb_refl. }
  assert (Hrest : forall x, In x rest -> keepf x = false).
  { intros x Hx. destruct (keepf x) eqn:K; [|reflexivity]. exfalso.
    assert (Hxi : In x inserted).
    { apply (Permutation_in x P). rewrite Hsplit. apply in_or_app. now right. }
    apply Hkeep in K; [|exact Hxi].
    rewrite Hsplit in Hsorted. exact (NoDup_app_disjoint _ _ _ Hsorted K Hx). }
  assert (Hperm : Permutation (filter keepf inserted) top).
  { rewrite <- (filter_perm keepf _ _ P). rewrite Hsplit, filter_app.
    rewrite (filter_drops_all keepf rest Hrest), app_nil_r.
    rewrite filter_keeps_all; [reflexivity|].
    intros x Hx. apply Hkeep; auto. }
  exists (filter keepf inserted). split.
  { unfold logEvent. rewrite (not_in_existsb_false _ _ _ Hfresh). reflexivity. }
  split.
  { rewrite (Permutation_length Hperm). unfold top. rewrite length_firstn.
    rewrite (Permutation_length P). unfold inserted.
    rewrite length_app. cbn [List.length]. now rewrite Nat.add_1_r. }
  split; [now apply NoDup_map_filter|].
  split; [intros e He; apply filter_In in He; tauto|].
  split.
  - intros k x Hk Hx Hnot.
    apply filter_In in Hk. destruct Hk as [Hki Hkk].
    apply Hkeep in Hkk; [|exact Hki].
    assert (Hxr : In x rest).
    { apply (Permutation_in x (Permutation_sym P)) in Hx as Hxs.
      rewrite Hsplit in Hxs. apply in_app_or in Hxs.
      destruct Hxs as [Hxt | Hxr]; [|exact Hxr].
      exfalso. apply Hnot. apply filter_In. split; [exact Hx|].
      now apply Hkeep. }
    pose proof (order_by_strongly_sorted newest_first newest_first_total
                  newest_first_trans inserted)
      as S.
    fold sorted in S. rewrite Hsplit in S.
    exact (StronglySorted_app_cross _ _ _ _ _ S Hkk Hxr).
  - intros Hlen. apply filter_keeps_all. intros x Hx. apply Hkeep; [exact Hx|].
    unfold top. rewrite firstn_all2.
    + now apply (Permutation_in x (Permutation_sym P)).
    + rewrite (Permutation_length P). unfold inserted.
      rewrite length_app. simpl. lia.
Qed.

(** ** Submitted questions *)

Lemma find_question_snoc (i : string) (qs : list question) (q : question) :
  ~ In i (map q_id qs) -> q_id q = i ->
  find (fun r => (q_id r =? i)%string) (qs ++ [q]) = Some q.
Proof.
  intros Hn Hq. rewrite find_app_skip.
  - simpl. rewrite Hq. now rewrite String.eqb_refl.
  - intros y Hy. apply String.eqb_neq. intros E. apply Hn. rewrite <- E.
    now apply in_map.
Qed.

Lemma set_selected_other (i : string) (b : bool) (qs : list question) :
  ~ In i (map q_id qs) -> set_selected i b qs = qs.
Proof.
  unfold set_selected. induction qs as [|q qs IH]; simpl; intros H; [reflexivity|].
  destruct (q_id q =? i)%string eqn:E.
  - apply String.eqb_eq in E. exfalso. apply H. now left.
  - f_equal. apply IH. intros Hin. apply H. now right.
Qed.

(** X24.  A submitted question is off the board until the host selects
    it.  A complete submission by a registered player with an unused id is
    stored, not selected and not used, and nothing else changes.  Picking
    it without force is then refused with 400 and changes nothing; once
    the host has selected it the same pick succeeds and puts it on
    display; deselecting it instead gives back the database as it was
    after the submission. *)
Theorem X24_submitted_question_needs_selection (pack : list default_question)
    (d : db) (pid text ans : string) (category : option string)
    (points : option Z) (uuid now : string) (body : select_card_body) :
  known_player d pid ->
  text <> "" -> ans <> "" -> uuid <> "" ->
  ~ In uuid (map q_id (questions d)) ->
  sc_force body = false ->
  sc_questionId body = Some uuid ->
  clue_conflict (game_state d) body = false ->
  not_your_turn (game_state d) body = false ->
  exists q d1 d2,
    add_question d (Some pid) (Some text) (Some ans) category points uuid now
    = (QuestionCreated q, d1)
    /\ d1 = set_questions d (questions d ++ [q])
    /\ q_id q = uuid /\ q_player_id q = pid /\ q_points q = points
    /\ q_selected_for_game q = false /\ q_used_in_game q = false
    /\ select_card pack d1 body = (Error 400 "Question not selected", d1)
    /\ admin_select_question d1 uuid (Some true) = (SelectedJson uuid true, d2)
    /\ (exists g,
          fst (select_card pack d2 body) = StateJson g
          /\ current_question_id g = Some uuid
          /\ current_points g
             = match points with Some n => Some n | None => tile_points body end
          /\ current_is_placeholder g = false
          /\ buzzer_locked g = false)
    /\ snd (admin_select_question d2 uuid (Some false)) = d1.
Proof.
  intros [Hpid (p & Hp & Ep)] Ht Ha Hu Hfresh Hforce Hid Hcc Hturn.
  set (q := mk_question uuid pid (JS.trim text) (JS.trim ans)
              (match category with
               | Some c => if (c =? "")%string then None else Some (JS.trim c)
               | None => None
               end) points false false now).
  set (q' := mk_question uuid pid (JS.trim text) (JS.trim ans)
               (q_category q) points true false now).
  assert (Hfq : find (fun r => (q_id r =? uuid)%string) (questions d ++ [q]) = Some q)
    by now apply find_question_snoc.
  assert (Hsel : set_selected uuid true (questions d ++ [q]) = questions d ++ [q']).
  { unfold set_selected at 1. rewrite map_app.
    fold (set_selected uuid true (questions d)).
    rewrite set_selected_other by exact Hfresh.
    simpl. now rewrite String.eqb_refl. }
  assert (Hback : set_selected uuid false (questions d ++ [q']) = questions d ++ [q]).
  { unfold set_selected at 1. rewrite map_app.
    fold (set_selected uuid false (questions d)).
    rewrite set_selected_other by exact Hfresh.
    simpl. now rewrite String.eqb_refl. }
  assert (Hfq' : find (fun r => (q_id r =? uuid)%string) (questions d ++ [q'])
                 = Some q') by now apply find_question_snoc.
  exists q, (set_questions d (questions d ++ [q])),
    (set_questions d (questions d ++ [q'])).
  split.
  { unfold add_question.
    rewrite (proj2 (truthy_some pid) Hpid), (proj2 (truthy_some text) Ht),
      (proj2 (truthy_some ans) Ha).
    simpl negb. cbv iota. cbv zeta.
    destruct (find_player_known p (players d) Hp) as [p' Hp'].
    rewrite Ep in Hp'. rewrite Hp'.
    rewrite (not_in_existsb_false _ _ _ Hfresh). reflexivity. }
  split; [reflexivity|].
  repeat (split; [reflexivity|]).
  destruct d as [ps qs bq g0]. simpl in *.
  split.
  { unfold select_card. simpl. rewrite Hcc, Hturn, Hid.
    rewrite (proj2 (truthy_some uuid) Hu). simpl negb. cbv iota.
    rewrite Hfq, Hforce. reflexivity. }
  split.
  { unfold admin_select_question. simpl.
    assert (Hex : existsb (fun r => (q_id r =? uuid)%string) (qs ++ [q]) = true).
    { apply existsb_exists. exists q. split.
      - apply in_or_app. right. now left.
      - simpl. apply String.eqb_refl. }
    rewrite Hex, Hsel. reflexivity. }
  split.
  { eexists. rewrite (select_card_question pack _ body uuid q'); auto.
    simpl. repeat split; reflexivity. }
  unfold admin_select_question. simpl.
  assert (Hex : existsb (fun r => (q_id r =? uuid)%string) (qs ++ [q']) = true).
  { apply existsb_exists. exists q'. split.
    - apply in_or_app. right. now left.
    - simpl. apply String.eqb_refl. }
  rewrite Hex, Hback. reflexivity.
Qed.

(** ** The table constraints hold after every request *)

Lemma slugs_map_same (f : player -> player) (ps : list player) :
  (forall p, p_slug (f p) = p_slug p) -> slugs (map f ps) = slugs ps.
Proof.
  intros Hf. unfold slugs. induction ps as [|p ps IH]; simpl; [reflexivity|].
  now rewrite Hf, IH.
Qed.

Lemma ids_map_same {A} (key : A -> string) (f : A -> A) (l : list A) :
  (forall x, key (f x) = key x) -> map key (map f l) = map key l.
Proof. intros Hf. rewrite map_map. now apply map_ext. Qed.

Lemma schema_ok_same_keys (d d' : db) :
  map p_id (players d') = map p_id (players d) ->
  slugs (players d') = slugs (players d) ->
  map q_id (questions d') = map q_id (questions d) ->
  map q_player_id (questions d') = map q_player_id (questions d) ->
  schema_ok d -> schema_ok d'.
Proof.
  unfold schema_ok, roster_ok, questions_of_players.
  intros -> -> -> ->. auto.
Qed.

Lemma schema_ok_same_tables (d d' : db) :
  players d' = players d -> questions d' = questions d ->
  schema_ok d -> schema_ok d'.
Proof. intros Hp Hq. apply schema_ok_same_keys; congruence. Qed.

Lemma mark_used_keys (i : string) (qs : list question) :
  map q_id (mark_used i qs) = map q_id qs
  /\ map q_player_id (mark_used i qs) = map q_player_id qs.
Proof.
  unfold mark_used.
  split; apply ids_map_same; intros q; destruct (q_id q =? i)%string; reflexivity.
Qed.

Lemma all_unused_keys (qs : list question) :
  map q_id (all_unused qs) = map q_id qs
  /\ map q_player_id (all_unused qs) = map q_player_id qs.
Proof. unfold all_unused. split; apply ids_map_same; reflexivity. Qed.

Lemma set_selected_keys (i : string) (b : bool) (qs : list question) :
  map q_id (set_selected i b qs) = map q_id qs
  /\ map q_player_id (set_selected i b qs) = map q_player_id qs.
Proof.
  unfold set_selected.
  split; apply ids_map_same; intros q; destruct (q_id q =? i)%string; reflexivity.
Qed.

Lemma set_points_keys (i : string) (v : option Z) (qs : list question) :
  map q_id (set_points i v qs) = map q_id qs
  /\ map q_player_id (set_points i v qs) = map q_player_id qs.
Proof.
  unfold set_points.
  split; apply ids_map_same; intros q; destruct (q_id q =? i)%string; reflexivity.
Qed.

Lemma set_meta_keys (i : string) (c : option (option string))
    (v : option (option Z)) (qs : list question) :
  map q_id (set_meta i c v qs) = map q_id qs
  /\ map q_player_id (set_meta i c v qs) = map q_player_id qs.
Proof.
  unfold set_meta.
  split; apply ids_map_same; intros q; destruct (q_id q =? i)%string; reflexivity.
Qed.

Lemma add_score_keys (delta : Z) (i : string) (ps : list player) :
  map p_id (add_score delta i ps) = map p_id ps
  /\ slugs (add_score delta i ps) = slugs ps.
Proof.
  unfold add_score. split.
  - apply ids_map_same. intros p. destruct (p_id p =? i)%string; reflexivity.
  - apply slugs_map_same. intros p. destruct (p_id p =? i)%string; reflexivity.
Qed.

Lemma set_score_keys (i : string) (f : Z -> Z) (ps : list player) :
  map p_id (set_score i f ps) = map p_id ps
  /\ slugs (set_score i f ps) = slugs ps.
Proof.
  unfold set_score. split.
  - apply ids_map_same. intros p. destruct (p_id p =? i)%string; reflexivity.
  - apply slugs_map_same. intros p. destruct (p_id p =? i)%string; reflexivity.
Qed.

Lemma select_card_schema pack d body :
  schema_ok d -> schema_ok (snd (select_card pack d body)).
Proof.
  intros H. unfold select_card.
  destruct (clue_conflict _ _); [exact H|].
  destruct (not_your_turn _ _); [exact H|].
  destruct (negb (JS.truthy (sc_questionId body))).
  - apply (schema_ok_same_tables d); [| |exact H]; open_db d; reflexivity.
  - destruct (find _ (questions d)); [|exact H].
    destruct (negb (sc_force body) && negb (q_selected_for_game q)); [exact H|].
    destruct (negb (sc_force body) && q_used_in_game q); [exact H|].
    apply (schema_ok_same_keys d); [| | | |exact H]; open_db d; simpl;
      try reflexivity; apply mark_used_keys.
Qed.

Lemma buzz_schema d playerId now uuid created_at :
  schema_ok d -> schema_ok (snd (buzz d playerId now uuid created_at)).
Proof.
  intros H. unfold buzz.
  destruct (negb (JS.truthy playerId)); [exact H|].
  destruct (find _ (players d)); [|exact H].
  destruct (negb (game_status_eqb _ _)); [exact H|].
  destruct (negb (clueActive _)); [exact H|].
  destruct (buzzer_locked _).
  - destruct (JS.strict_eq _ _); [exact H|].
    unfold enqueueBuzz.
    destruct (existsb (fun b => (b_player_id b =? _)%string) _); [exact H|].
    destruct (existsb (fun b => (b_id b =? _)%string) _); [exact H|].
    apply (schema_ok_same_tables d); [| |exact H]; open_db d; reflexivity.
  - apply (schema_ok_same_tables d); [| |exact H]; open_db d; reflexivity.
Qed.

Lemma resolve_current_schema d playerId correct nextNow :
  schema_ok d -> schema_ok (snd (resolve_current d playerId correct nextNow)).
Proof.
  intros H. unfold resolve_current.
  destruct (JS.truthy playerId); [|exact H].
  destruct correct as [correct|]; [|exact H].
  destruct (negb _ && negb _); [exact H|].
  destruct (clue_delta d); [|exact H].
  cbv zeta. unfold snd at 1. destruct correct.
  - apply (schema_ok_same_keys d); [| | | |exact H]; open_db d; simpl;
      try reflexivity; apply add_score_keys.
  - unfold dequeueNextBuzz. destruct (first_row _) as [next|];
      (apply (schema_ok_same_tables d); [| |exact H]; open_db d; reflexivity).
Qed.

Lemma game_state_only_schema d patch :
  schema_ok d -> schema_ok (clearBuzzQueue (updateGameState d patch)).
Proof.
  intros H. apply (schema_ok_same_tables d); [| |exact H];
    unfold clearBuzzQueue, updateGameState; destruct d, patch; reflexivity.
Qed.

Lemma find_slug_none (d : db) (s : string) :
  find (fun p => JS.strict_eq (p_slug p) (Some s)) (players d) = None ->
  ~ In s (slugs (players d)).
Proof.
  intros F Hin. apply slug_taken_iff in Hin. unfold slug_taken in Hin.
  apply existsb_exists in Hin. destruct Hin as (p & Hp & E).
  apply (find_none _ _ F) in Hp. congruence.
Qed.

Lemma schema_ok_new_player (d : db) (p : player) (s : string) :
  schema_ok d ->
  ~ In (p_id p) (map p_id (players d)) ->
  p_slug p = Some s -> ~ In s (slugs (players d)) ->
  schema_ok (set_players d (players d ++ [p])).
Proof.
  intros ((Hids & Hslugs) & Hq & Hfk) Hid Hs Hfree.
  destruct d as [ps qs bq g]. unfold schema_ok, roster_ok, questions_of_players in *.
  simpl in *. repeat split.
  - rewrite map_app. now apply NoDup_snoc.
  - rewrite slugs_app. unfold slugs at 2. simpl. rewrite Hs. simpl.
    now apply NoDup_snoc.
  - exact Hq.
  - intros x Hx. rewrite map_app. apply in_or_app. left. now apply Hfk.
Qed.

Lemma ensureSystemPlayer_schema d uuid now system d1 :
  ensureSystemPlayer d uuid now = Some (system, d1) ->
  schema_ok d ->
  schema_ok d1 /\ In (p_id system) (map p_id (players d1))
  /\ questions d1 = questions d.
Proof.
  unfold ensureSystemPlayer. intros E H.
  destruct (find _ (players d)) as [existing|] eqn:F.
  - injection E as <- <-. split; [exact H|]. split; [|reflexivity].
    apply find_some in F. apply in_map. tauto.
  - destruct (existsb _ (players d)) eqn:X; [discriminate|].
    injection E as <- <-. split; [|split].
    + apply (schema_ok_new_player d _ "house"); auto.
      * simpl. now apply existsb_false_not_in.
      * now apply find_slug_none.
    + simpl. rewrite map_app. apply in_or_app. right. now left.
    + reflexivity.
Qed.

Lemma seed_rows_schema sys sel uuid now pack :
  forall qs n qs' n',
    seed_rows sys sel uuid now pack qs n = Some (qs', n') ->
    NoDup (map q_id qs) ->
    NoDup (map q_id qs')
    /\ (forall x, In x (map q_player_id qs') ->
                  In x (map q_player_id qs) \/ x = sys).
Proof.
  induction pack as [|q rest IH]; intros qs n qs' n' H Hnd.
  - simpl in H. injection H as <- <-. auto.
  - rewrite seed_rows_step in H. cbv zeta in H.
    destruct (_ || _ || _ || _) in H; [exact (IH _ _ _ _ H Hnd)|].
    destruct (existsb (seed_match _ _ _ _ _) qs) in H; [exact (IH _ _ _ _ H Hnd)|].
    destruct (existsb (fun r => (q_id r =? uuid n)%string) qs) eqn:X;
      [discriminate|].
    apply IH in H.
    + destruct H as [Hn Hfk]. split; [exact Hn|].
      intros x Hx. apply Hfk in Hx. destruct Hx as [Hx | Hx]; [|now right].
      rewrite map_app in Hx. apply in_app_or in Hx.
      destruct Hx as [Hx | [<- | []]]; [now left | now right].
    + rewrite map_app. apply NoDup_snoc; [exact Hnd|].
      simpl. now apply existsb_false_not_in.
Qed.

Lemma seedDefaultQuestions_schema pack d sel su uuid np now :
  schema_ok d -> schema_ok (snd (seedDefaultQuestions pack d sel su uuid np now)).
Proof.
  intros H. unfold seedDefaultQuestions.
  destruct (ensureSystemPlayer d su np) as [[system d1]|] eqn:E; [|exact H].
  destruct (ensureSystemPlayer_schema _ _ _ _ _ E H) as (H1 & Hsys & Hqs).
  destruct (seed_rows _ _ _ _ _ _ _) as [[qs n]|] eqn:R; [|exact H1].
  destruct H1 as (Hr & Hq & Hfk).
  destruct (seed_rows_schema _ _ _ _ _ _ _ _ _ R Hq) as [Hn Hnew].
  destruct d1 as [ps1 qs1 bq1 g1].
  unfold schema_ok, roster_ok, questions_of_players in *. simpl in *.
  split; [exact Hr|]. split; [exact Hn|].
  intros x Hx. apply Hnew in Hx. destruct Hx as [Hx | ->]; auto.
Qed.

Lemma all_unused_schema d :
  schema_ok d -> schema_ok (set_questions d (all_unused (questions d))).
Proof.
  intros H. apply (schema_ok_same_keys d); [| | | |exact H]; destruct d; simpl;
    try reflexivity; apply all_unused_keys.
Qed.

Lemma start_game_schema pack d su uuid np now :
  schema_ok d -> schema_ok (snd (start_game pack d su uuid np now)).
Proof.
  intros H. unfold start_game. cbv zeta.
  assert (Hboard : forall e patch,
             schema_ok e ->
             schema_ok (clearBuzzQueue
                          (updateGameState (set_questions e (all_unused (questions e)))
                             patch))).
  { intros e patch He. apply game_state_only_schema. now apply all_unused_schema. }
  destruct (_ =? 0)%nat.
  - pose proof (seedDefaultQuestions_schema pack d true su uuid np now H) as Hs.
    destruct (seedDefaultQuestions pack d true su uuid np now) as [[r|] d1];
      cbn [snd] in Hs |- *; [now apply Hboard | exact Hs].
  - cbn [snd]. now apply Hboard.
Qed.

Lemma slugs_filter_NoDup (keep : player -> bool) (ps : list player) :
  NoDup (slugs ps) -> NoDup (slugs (filter keep ps)).
Proof.
  unfold slugs. induction ps as [|p ps IH]; simpl; intros H; [constructor|].
  destruct (keep p); simpl.
  - destruct (p_slug p) as [s|]; simpl in *; [|now apply IH].
    inversion H as [|? ? Hs Hrest]; subst. constructor; [|now apply IH].
    intros Hin. apply Hs. apply in_flat_map in Hin. destruct Hin as (x & Hx & Hsx).
    apply in_flat_map. exists x. split; [|exact Hsx].
    apply filter_In in Hx. tauto.
  - apply IH. destruct (p_slug p); simpl in H; [|exact H].
    now inversion H.
Qed.

Lemma delete_player_schema d id :
  schema_ok d -> schema_ok (snd (delete_player d id)).
Proof.
  intros H. unfold delete_player.
  destruct (find _ (players d)); [|exact H].
  cbv zeta. unfold snd.
  destruct H as ((Hids & Hslugs) & Hq & Hfk).
  assert (Hp : forall e patch, players (updateGameState e patch) = players e)
    by (intros [] []; reflexivity).
  assert (Hqs : forall e patch, questions (updateGameState e patch) = questions e)
    by (intros [] []; reflexivity).
  unfold schema_ok, roster_ok, questions_of_players.
  unfold set_players at 1 2 3 4. simpl players. simpl questions.
  rewrite Hp, Hqs. destruct d as [ps qs bq g]. simpl in *.
  repeat split.
  - now apply NoDup_map_filter.
  - now apply slugs_filter_NoDup.
  - now apply NoDup_map_filter.
  - intros x Hx. apply in_map_iff in Hx. destruct Hx as (q & <- & Hin).
    apply filter_In in Hin. destruct Hin as [Hin Hne].
    assert (Hreg : In (q_player_id q) (map p_id ps)) by (apply Hfk; now apply in_map).
    apply in_map_iff in Hreg. destruct Hreg as (author & Ep & Hpin).
    apply in_map_iff. exists author. split; [exact Ep|].
    apply filter_In. split; [exact Hpin|]. now rewrite Ep.
Qed.

Lemma NoDup_drop_middle {A} (a m b : list A) :
  NoDup (a ++ m ++ b) -> NoDup (a ++ b).
Proof.
  induction m as [|x m IH]; simpl; intros H; [exact H|].
  apply IH. now apply NoDup_remove_1 in H.
Qed.

Lemma update_player_schema d current nm sl ph :
  schema_ok d ->
  In current (players d) ->
  (forall s, sl = Some s -> ~ In s (slugs (players d))) ->
  schema_ok (set_players d (update_player (p_id current) nm sl ph (players d))).
Proof.
  intros ((Hids & Hslugs) & Hq & Hfk) Hin Hfree.
  assert (Hsame : map p_id (update_player (p_id current) nm sl ph (players d))
                  = map p_id (players d)).
  { unfold update_player. apply ids_map_same. intros p.
    destruct (p_id p =? p_id current)%string; reflexivity. }
  unfold schema_ok, roster_ok, questions_of_players.
  destruct d as [ps qs bq g]. simpl in *. rewrite Hsame.
  split; [split; [exact Hids|] | split; [exact Hq | exact Hfk]].
  destruct (in_split _ _ Hin) as (l1 & l2 & ->).
  rewrite update_player_at by exact Hids.
  rewrite slugs_app in *. change (current :: l2) with ([current] ++ l2) in Hslugs.
  rewrite slugs_app in Hslugs.
  match goal with |- NoDup (_ ++ slugs (?u :: l2)) =>
    change (u :: l2) with ([u] ++ l2) end.
  rewrite slugs_app. destruct sl as [s|].
  - unfold slugs at 2. simpl.
    apply NoDup_drop_middle in Hslugs as Hrest.
    apply (Permutation_NoDup (l := s :: slugs l1 ++ slugs l2));
      [apply Permutation_middle|].
    constructor; [|exact Hrest].
    intros Hs. apply (Hfree s eq_refl).
    change (current :: l2) with ([current] ++ l2). rewrite !slugs_app.
    apply in_app_or in Hs. apply in_or_app.
    destruct Hs; [left | right; apply in_or_app; right]; assumption.
  - exact Hslugs.
Qed.

Lemma patch_player_schema d slug name photoUrl :
  schema_ok d -> schema_ok (snd (patch_player d slug name photoUrl)).
Proof.
  intros H. unfold patch_player.
  destruct (findPlayerBySlug d slug) as [current|] eqn:F; [|exact H].
  apply find_some in F. destruct F as [Hin _].
  destruct name as [n|]; [destruct (JS.trim n =? "")%string|].
  - destruct photoUrl as [v|]; [|exact H]. cbn [option_map snd].
    apply update_player_schema; auto. discriminate.
  - destruct (ensureUniqueSlug d (slugify (JS.trim n))) as [s|] eqn:E;
      [|destruct photoUrl; exact H].
    destruct (ensureUniqueSlug_of_slugify d (JS.trim n)) as (s' & E' & _ & Free & _).
    rewrite E in E'. injection E' as <-.
    destruct photoUrl as [v|]; cbn [option_map snd];
      (apply update_player_schema; auto; intros x Hx; injection Hx as <-;
       now apply slug_free_not_in).
  - destruct photoUrl as [v|]; [|exact H]. cbn [option_map snd].
    apply update_player_schema; auto. discriminate.
Qed.

Lemma create_player_schema d name photoUrl uuid now :
  schema_ok d -> schema_ok (snd (create_player d name photoUrl uuid now)).
Proof.
  intros H. unfold create_player.
  destruct name as [n|]; [|exact H].
  destruct (n =? "")%string; [exact H|].
  destruct (ensureUniqueSlug d (slugify n)) as [s|]; [|exact H].
  destruct (existsb _ (players d)) eqn:X; [exact H|].
  destruct (slug_taken d s) eqn:T; [exact H|]. cbn [orb snd].
  apply (schema_ok_new_player d _ s); auto.
  - simpl. now apply existsb_false_not_in.
  - now apply slug_free_not_in.
Qed.

Lemma add_question_schema d playerId questionText answer category points uuid now :
  schema_ok d ->
  schema_ok (snd (add_question d playerId questionText answer category points
                    uuid now)).
Proof.
  intros H. unfold add_question.
  destruct (_ || _ || _); [exact H|]. cbv zeta.
  destruct (find _ (players d)) as [p|] eqn:F; [|exact H].
  destruct (existsb _ (questions d)) eqn:X; [exact H|]. cbn [snd].
  apply find_some in F. destruct F as [Hin Hid]. apply String.eqb_eq in Hid.
  destruct H as (Hr & Hq & Hfk).
  unfold schema_ok, roster_ok, questions_of_players in *.
  destruct d as [ps qs bq g]. simpl in *.
  split; [exact Hr|]. split.
  - rewrite map_app. apply NoDup_snoc; [exact Hq|]. simpl.
    now apply existsb_false_not_in.
  - intros x Hx. rewrite map_app in Hx. apply in_app_or in Hx.
    destruct Hx as [Hx | [<- | []]]; [now apply Hfk|].
    simpl. rewrite <- Hid. now apply in_map.
Qed.

Lemma admin_step_schema pack d d' :
  schema_ok d -> admin_step pack d d' -> schema_ok d'.
Proof.
  intros H S. destruct S.
  - now apply create_player_schema.
  - now apply patch_player_schema.
  - now apply add_question_schema.
  - unfold admin_select_question. destruct selected as [b|]; [|exact H].
    destruct (existsb _ (questions d)); [|exact H].
    apply (schema_ok_same_keys d); [| | | |exact H]; destruct d; simpl;
      try reflexivity; apply set_selected_keys.
  - unfold set_question_points. cbv zeta.
    destruct (existsb _ (questions d)); [|exact H].
    apply (schema_ok_same_keys d); [| | | |exact H]; destruct d; simpl;
      try reflexivity; apply set_points_keys.
  - unfold seed_defaults.
    pose proof (seedDefaultQuestions_schema pack d
                  (match selectForGame with Some b => b | None => true end)
                  system_uuid uuid now_player now H) as Hs.
    destruct (seedDefaultQuestions _ _ _ _ _ _ _) as [[[n sys]|] d1]; exact Hs.
  - unfold set_turn. destruct (negb _); [exact H|].
    destruct (find _ (players d)); [|exact H].
    apply (schema_ok_same_tables d); [| |exact H]; destruct d; reflexivity.
  - unfold adjust_score. destruct (find _ (players d)); [|exact H].
    destruct score as [[s|]|]; [| exact H | destruct delta as [x|]; [|exact H]];
      (apply (schema_ok_same_keys d); [| | | |exact H]; destruct d; simpl;
       try reflexivity; apply set_score_keys).
  - unfold current_question. destruct (negb _); [exact H|].
    destruct (find _ (questions d)); [|exact H].
    apply (schema_ok_same_tables d); [| |exact H]; destruct d; reflexivity.
  - unfold set_question_meta. cbv zeta.
    destruct (option_map _ category), (option_map _ points);
      try exact H;
      (destruct (existsb _ (questions d)); [|exact H];
       apply (schema_ok_same_keys d); [| | | |exact H]; destruct d; simpl;
       try reflexivity; apply set_meta_keys).
Qed.

Lemma core_step_schema pack d d' :
  schema_ok d -> step pack d d' -> schema_ok d'.
Proof.
  intros H S. destruct S.
  - now apply select_card_schema.
  - now apply buzz_schema.
  - now apply resolve_current_schema.
  - now apply start_game_schema.
  - unfold end_game. cbn [snd]. now apply game_state_only_schema.
  - unfold reset_game. cbn [snd]. now apply game_state_only_schema.
  - unfold reset_board. cbn [snd].
    apply (schema_ok_same_keys d); [| | | |exact H]; destruct d; simpl;
      try reflexivity; apply all_unused_keys.
  - unfold unlock_buzzer. cbn [snd]. now apply game_state_only_schema.
  - now apply delete_player_schema.
Qed.

(** X25.  No request breaks the tables.  If player ids and slugs are
    unique, question ids are unique and every question belongs to a
    registered player, the same holds after any one request that writes
    players, questions, queue or game state (a core operation or a
    registration, catalog or admin handler; the point values of a
    submitted question being integers).  In particular the UPDATE of a
    rename never collides with another player's slug, and deleting a
    player leaves none of their questions behind. *)
Theorem X25_requests_keep_the_constraints (pack : list default_question)
    (d d' : db) :
  schema_ok d -> api_step pack d d' -> schema_ok d'.
Proof.
  intros H [S | S]; [now apply (core_step_schema pack d) |
                     now apply (admin_step_schema pack d)].
Qed.

(** ** Unlocking *)

(** X26.  Unlocking reopens the buzzer for everybody.  After
    unlock-buzzer the lock is free and the waiting list is empty, whoever
    was waiting; while the game is active and a clue is on display, the
    next buzz of any registered player, the former holder included, takes
    the lock at its own time, and nobody is queued. *)
Theorem X26_unlock_reopens_the_buzzer (d : db) (pid now uuid created_at : string) :
  known_player d pid ->
  status (game_state d) = active ->
  clueActive (game_state d) = true ->
  buzz_queue (snd (unlock_buzzer d)) = []
  /\ lock_of (snd (unlock_buzzer d)) = (false, None)
  /\ fst (buzz (snd (unlock_buzzer d)) (Some pid) now uuid created_at)
     = BuzzJson false None None
         (Some (game_state
                  (snd (buzz (snd (unlock_buzzer d)) (Some pid) now uuid created_at))))
  /\ lock_of (snd (buzz (snd (unlock_buzzer d)) (Some pid) now uuid created_at))
     = (true, Some pid)
  /\ last_buzz_time
       (game_state (snd (buzz (snd (unlock_buzzer d)) (Some pid) now uuid created_at)))
     = Some now
  /\ buzz_queue (snd (buzz (snd (unlock_buzzer d)) (Some pid) now uuid created_at))
     = [].
Proof.
  intros [Hp (p & Hin & Hid)] Hs Hc.
  destruct (find_player_known p (players d) Hin) as [p' Hf]. rewrite Hid in Hf.
  apply truthy_some in Hp.
  split; [destruct d; reflexivity|]. split; [open_db d; reflexivity|].
  unfold buzz. rewrite Hp. simpl negb. cbv iota.
  open_db d. simpl in Hs, Hc, Hf. subst st.
  unfold unlock_buzzer. simpl. rewrite Hf.
  unfold clueActive in Hc. simpl in Hc. unfold clueActive. simpl. rewrite Hc.
  simpl. repeat split.
Qed.

(** ** The page size of the activity log *)

(** X27.  [listEvents] always asks for between 1 and 500 rows.  Whatever
    number the query string gives, not a number and the infinities
    included, the limit is a finite number from 1 to 500; a number that is
    already in that range is kept, and zero or not-a-number give 100. *)
Theorem X27_events_limit_bounds (limit : js_number) :
  (exists q, events_limit limit = Finite q /\ (1 <= q)%Q /\ (q <= 500)%Q)
  /\ (forall q, limit = Finite q -> (1 <= q)%Q -> (q <= 500)%Q ->
                events_limit limit = Finite q)
  /\ (forall q, limit = Finite q -> (q == 0)%Q -> events_limit limit = Finite 100)
  /\ (limit = NaN -> events_limit limit = Finite 100).
Proof.
  split; [|split; [|split]].
  - unfold events_limit, or_100, min_500, max_1.
    destruct limit as [q| | |].
    + destruct (Qeq_bool q 0) eqn:Z0.
      * exists 100%Q. split; [reflexivity|]. split; discriminate.
      * destruct (Qle_bool q 500) eqn:Hi.
        -- destruct (Qle_bool 1 q) eqn:Lo.
           ++ exists q. split; [reflexivity|].
              split; now apply Qle_bool_iff.
           ++ exists 1%Q. split; [reflexivity|]. split; discriminate.
        -- exists 500%Q. split; [reflexivity|]. split; discriminate.
    + exists 100%Q. split; [reflexivity|]. split; discriminate.
    + exists 500%Q. split; [reflexivity|]. split; discriminate.
    + exists 1%Q. split; [reflexivity|]. split; discriminate.
  - intros q -> Lo Hi. unfold events_limit, or_100, min_500, max_1.
    assert (Z0 : Qeq_bool q 0 = false).
    { destruct (Qeq_bool q 0) eqn:E; [|reflexivity].
      apply Qeq_bool_iff in E. rewrite E in Lo. exfalso.
      unfold Qle in Lo. simpl in Lo. lia. }
    rewrite Z0. apply Qle_bool_iff in Lo, Hi. now rewrite Hi, Lo.
  - intros q -> Z0. unfold events_limit, or_100.
    apply Qeq_bool_iff in Z0. rewrite Z0. reflexivity.
  - intros ->. reflexivity.
Qed.

(** * Closed examples of the further properties *)

Ltac closed_nodup :=
  vm_compute;
  repeat (constructor;
          [ let K := fresh "K" in
            intros K;
            repeat (destruct K as [K | K]; [discriminate K|]); exact K |]);
  constructor.

Ltac registered_as p :=
  split; [discriminate | exists p; split; [vm_compute; auto 10 | reflexivity]].

(** Alice holds the lock and Bob waits: one row in the queue. *)
Lemma X1_queue_unique_witness :
  buzz_queue bob_queued
  = [mk_buzz "b-2" "p-bob" "2024-12-24T18:05:01.000Z" "2024-12-24T18:05:01.001Z"]
  /\ NoDup (map b_player_id (buzz_queue bob_queued))
  /\ NoDup (map b_id (buzz_queue bob_queued)).
Proof.
  split; [reflexivity|].
  exact (X1_queue_unique sample_pack bob_queued
           (reachable_api_reachable _ _ bob_queued_reachable)).
Defined.

(** The same database: the game is active, Alice is the holder that the
    invariant asks for. *)
Lemma X2_lock_invariant_whole_api_witness :
  status (game_state bob_queued) = active
  /\ queue_of_players bob_queued
  /\ lock_implies_holder_and_clue bob_queued
  /\ holder_is_player bob_queued.
Proof.
  split; [reflexivity|].
  destruct (X2_lock_invariant_whole_api sample_pack bob_queued
              (reachable_api_reachable _ _ bob_queued_reachable)) as [Hq Hl].
  split; [exact Hq|]. apply Hl. discriminate.
Defined.

(** While Alice holds the lock on a tile, an unforced pick of another tile
    is refused with 409 and nothing has changed. *)
Lemma X3_refusals_change_nothing_witness :
  fst (select_card sample_pack bob_queued (empty_tile "Disney & Pixar" 200 None))
  = Error 409 "A clue is already active"
  /\ snd (select_card sample_pack bob_queued (empty_tile "Disney & Pixar" 200 None))
     = bob_queued.
Proof.
  assert (E : fst (select_card sample_pack bob_queued
                     (empty_tile "Disney & Pixar" 200 None))
              = Error 409 "A clue is already active") by (vm_compute; reflexivity).
  split; [exact E|].
  exact (proj1 (X3_refusals_change_nothing sample_pack bob_queued 409
                  "A clue is already active" ltac:(discriminate)) _ E).
Defined.

(** Alice, the holder, and Bob, who is queued, both buzz again. *)
Lemma X4_rebuzz_changes_nothing_witness :
  buzz bob_queued (Some "p-alice") "2024-12-24T18:05:02.000Z" "b-3"
    "2024-12-24T18:05:02.001Z"
  = (BuzzJson false (Some "already_current") None None, bob_queued)
  /\ buzz bob_queued (Some "p-bob") "2024-12-24T18:05:02.000Z" "b-3"
       "2024-12-24T18:05:02.001Z"
     = (BuzzJson false (Some "already_queued")
          (Some (List.length (listBuzzQueue bob_queued))) None, bob_queued)
  /\ List.length (listBuzzQueue bob_queued) = 1%nat.
Proof.
  split; [|split; [|reflexivity]].
  - apply (X4_rebuzz_changes_nothing bob_queued "p-alice");
      [registered_as alice | reflexivity | reflexivity | reflexivity | reflexivity].
  - apply (X4_rebuzz_changes_nothing bob_queued "p-bob");
      [registered_as bob | reflexivity | reflexivity | reflexivity
      | discriminate | vm_compute; auto].
Defined.

(** Alice, Bob and Carol wait behind Dave: the list shows the three rows. *)
Lemma X6_waiting_list_is_the_queue_witness :
  map (fun r => p_name (snd r)) (listBuzzQueue abc_queued) = ["Alice"; "Bob"; "Carol"]
  /\ Permutation (map fst (listBuzzQueue abc_queued)) (buzz_queue abc_queued)
  /\ List.length (listBuzzQueue abc_queued) = List.length (buzz_queue abc_queued).
Proof.
  split; [reflexivity|].
  assert (Q : queue_of_players abc_queued).
  { intros b Hb. vm_compute in Hb.
    destruct Hb as [<- | [<- | [<- | []]]]; (split; [discriminate|]).
    - exists alice. split; [vm_compute; auto 10 | reflexivity].
    - exists bob. split; [vm_compute; auto 10 | reflexivity].
    - exists carol. split; [vm_compute; auto 10 | reflexivity]. }
  destruct (X6_waiting_list_is_the_queue abc_queued ltac:(closed_nodup) Q)
    as (P & _ & _ & L).
  split; [exact P | exact L].
Defined.

(** Alice and Bob buzz on an open tile, one second apart. *)
Lemma X7_first_buzz_wins_witness :
  lock_of tile_open = (false, None)
  /\ lock_of (snd (buzz tile_open (Some "p-alice") "2024-12-24T18:05:00.000Z" "b-1"
                     "2024-12-24T18:05:00.001Z"))
     = (true, Some "p-alice")
  /\ fst (buzz (snd (buzz tile_open (Some "p-alice") "2024-12-24T18:05:00.000Z"
                       "b-1" "2024-12-24T18:05:00.001Z"))
            (Some "p-bob") "2024-12-24T18:05:01.000Z" "b-2"
            "2024-12-24T18:05:01.001Z")
     = BuzzJson true None (Some 1%nat) None.
Proof.
  split; [reflexivity|].
  pose proof (X7_first_buzz_wins tile_open "p-alice" "p-bob"
                "2024-12-24T18:05:00.000Z" "2024-12-24T18:05:01.000Z"
                "b-1" "b-2" "2024-12-24T18:05:00.001Z" "2024-12-24T18:05:01.001Z"
                ltac:(closed_nodup) ltac:(registered_as alice)
                ltac:(registered_as bob) ltac:(discriminate)
                eq_refl eq_refl eq_refl eq_refl) as H.
  cbv zeta in H. destruct H as (_ & H2 & _ & H4 & _).
  split; [exact H2 | exact H4].
Defined.

(** Three rows wait; Alice's is the earliest. *)
Lemma X8_dequeue_takes_the_earliest_witness :
  fst (dequeueNextBuzz abc_queued)
  = Some (mk_buzz "b-1" "p-alice" "2024-12-24T18:05:01.000Z"
            "2024-12-24T18:05:01.001Z")
  /\ exists next d',
       dequeueNextBuzz abc_queued = (Some next, d')
       /\ (forall b, In b (buzz_queue abc_queued) ->
             String.leb (b_buzz_time next) (b_buzz_time b) = true)
       /\ S (List.length (buzz_queue d')) = List.length (buzz_queue abc_queued).
Proof.
  split; [vm_compute; reflexivity|].
  assert (N : NoDup (map b_id (buzz_queue abc_queued))) by closed_nodup.
  assert (Q : buzz_queue abc_queued <> [])
    by (intros K; vm_compute in K; discriminate K).
  destruct (X8_dequeue_takes_the_earliest abc_queued N) as [_ H].
  destruct (H Q) as (next & d' & E & Hmin & _ & Hlen & _).
  exists next, d'. auto.
Defined.

(** Seeding the lobby inserts the one entry of the pack; seeding again,
    with other ids and another flag, inserts nothing. *)
Lemma X10_seeding_is_idempotent_witness :
  seedDefaultQuestions sample_pack lobby true "p-house" (fun _ => "q-0")
    "2024-12-24T17:00:00.000Z" "2024-12-24T17:00:00.001Z"
  = (Some (1%nat, house), seeded)
  /\ seedDefaultQuestions sample_pack seeded false "p-other" (fun _ => "q-7")
       "2024-12-25T09:00:00.000Z" "2024-12-25T09:00:00.001Z"
     = (Some (0%nat, house), seeded).
Proof.
  assert (E : seedDefaultQuestions sample_pack lobby true "p-house" (fun _ => "q-0")
                "2024-12-24T17:00:00.000Z" "2024-12-24T17:00:00.001Z"
              = (Some (1%nat, house), seeded)) by (vm_compute; reflexivity).
  split; [exact E|].
  apply (X10_seeding_is_idempotent sample_pack lobby seeded true "p-house"
           (fun _ => "q-0") "2024-12-24T17:00:00.000Z" "2024-12-24T17:00:00.001Z"
           1%nat house E).
Defined.

(** Starting the game from the lobby: the board is clean and Alice keeps
    her score. *)
Lemma X11_start_game_clean_board_witness :
  status (game_state started) = active
  /\ buzz_queue started = []
  /\ Forall (fun q => q_used_in_game q = false) (questions started)
  /\ score_of started "p-alice" = Some 0.
Proof.
  split; [reflexivity|].
  pose proof (X11_start_game_clean_board sample_pack (initial_db [alice; bob] [])
                "p-house" (fun _ => "q-0")
                "2024-12-24T18:00:00.000Z" "2024-12-24T18:00:00.001Z"
                (game_state started) eq_refl) as H.
  destruct H as (_ & _ & Hq & Hu & _ & Hs & _).
  split; [exact Hq|]. split; [exact Hu|].
  apply Hs. reflexivity.
Defined.

(** Dave's question is picked; a second pick of the same card is
    refused. *)
Lemma X12_card_is_played_once_witness :
  fst (select_card sample_pack quiz_started dave_card)
  = StateJson (game_state (snd (select_card sample_pack quiz_started dave_card)))
  /\ exists code error,
       select_card sample_pack (snd (select_card sample_pack quiz_started dave_card))
         dave_card
       = (Error code error, snd (select_card sample_pack quiz_started dave_card))
       /\ (code = 409 \/ code = 403).
Proof.
  split; [reflexivity|].
  destruct (X12_card_is_played_once sample_pack quiz_started dave_card "q-1"
              (game_state (snd (select_card sample_pack quiz_started dave_card)))
              eq_refl eq_refl ltac:(discriminate) eq_refl) as (_ & H & _).
  apply H; reflexivity.
Defined.

(** Dave's card was played; after reset-board it can be picked again. *)
Lemma X13_reset_board_puts_cards_back_witness :
  option_map q_used_in_game
    (find (fun q => (q_id q =? "q-1")%string) (questions before_delete)) = Some true
  /\ current_question_id
       (game_state (snd (select_card sample_pack (snd (reset_board before_delete))
                           dave_card)))
     = Some "q-1".
Proof.
  split; [reflexivity|].
  pose proof (X13_reset_board_puts_cards_back sample_pack before_delete dave_card
                "q-1"
                (mk_question "q-1" "p-dave" "Who pulls Santa's sleigh?" "Reindeer"
                   (Some "Holidays") (Some 100) true true
                   "2024-12-01T11:00:00.000Z")
                eq_refl eq_refl ltac:(discriminate) eq_refl eq_refl) as H.
  cbv zeta in H. destruct H as (_ & H & _). exact H.
Defined.

(** A forced pick while Alice holds the lock and Bob waits: the new tile
    goes on display, the lock and the queue are cleared. *)
Lemma X14_force_overrides_guards_witness :
  lock_of bob_queued = (true, Some "p-alice")
  /\ clueActive (game_state (snd (select_card sample_pack bob_queued forced_tile)))
     = true
  /\ lock_of (snd (select_card sample_pack bob_queued forced_tile)) = (false, None)
  /\ buzz_queue (snd (select_card sample_pack bob_queued forced_tile)) = [].
Proof.
  split; [reflexivity|].
  destruct (X14_force_overrides_guards sample_pack bob_queued forced_tile eq_refl)
    as [H _].
  destruct (H (or_introl eq_refl)) as (_ & Hc & Hl & Hq).
  auto.
Defined.

(** Dave's question is on display for 100; the host sets it to 250.5 and
    Alice answers correctly. *)
Lemma X15_catalog_points_at_resolve_time_witness :
  current_points (game_state before_delete) = Some 100
  /\ score_of before_delete "p-alice" = Some 0
  /\ score_of
       (snd (resolve_current
               (snd (set_question_points before_delete "q-1" (Some (501 # 2))))
               (Some "p-alice") (Some true) "2024-12-24T18:06:00.000Z"))
       "p-alice"
     = Some (0 + JS.finite_or_zero (JS.finite_trunc (Some (501 # 2))))
  /\ JS.finite_or_zero (JS.finite_trunc (Some (501 # 2))) = 250.
Proof.
  split; [reflexivity|]. split; [reflexivity|]. split; [|reflexivity].
  pose proof (X15_catalog_points_at_resolve_time before_delete "q-1"
                (Some (501 # 2)) "p-alice" 0 "2024-12-24T18:06:00.000Z"
                eq_refl eq_refl ltac:(discriminate) eq_refl
                ltac:(registered_as alice) eq_refl) as H.
  cbv zeta in H. destruct H as (_ & _ & _ & H).
  apply H; vm_compute; split; discriminate.
Defined.

(** Deleting Dave removes his question and leaves Alice's score alone. *)
Lemma X16_delete_player_cascade_witness :
  map q_id (questions before_delete) = ["q-1"]
  /\ questions (snd (delete_player before_delete "p-dave"))
     = filter (fun q => negb (q_player_id q =? "p-dave")%string)
         (questions before_delete)
  /\ score_of (snd (delete_player before_delete "p-dave")) "p-dave" = None
  /\ score_of (snd (delete_player before_delete "p-dave")) "p-alice"
     = score_of before_delete "p-alice".
Proof.
  split; [vm_compute; reflexivity|].
  assert (K : exists p, In p (players before_delete) /\ p_id p = "p-dave")
    by (exists dave; split; [vm_compute; auto 10 | reflexivity]).
  destruct (X16_delete_player_cascade before_delete "p-dave" K)
    as (_ & Hq & _ & Hs & Ho).
  split; [exact Hq|]. split; [exact Hs|]. apply Ho. discriminate.
Defined.

(** A second Alice registers: the slug alice is taken, she gets alice-2. *)
Lemma X19_create_player_registers_witness :
  slug_taken lobby "alice" = true
  /\ fst (create_player lobby (Some "Alice") None "p-alice2"
            "2024-12-02T09:00:00.000Z")
     = PlayerCreated
         (mk_player "p-alice2" "Alice" (Some "alice-2") 0 None
            "2024-12-02T09:00:00.000Z")
  /\ exists p s,
       create_player lobby (Some "Alice") None "p-alice2" "2024-12-02T09:00:00.000Z"
       = (PlayerCreated p, set_players lobby (players lobby ++ [p]))
       /\ p_slug p = Some s /\ slug_taken lobby s = false
       /\ roster_ok (snd (create_player lobby (Some "Alice") None "p-alice2"
                            "2024-12-02T09:00:00.000Z")).
Proof.
  split; [vm_compute; reflexivity|]. split; [vm_compute; reflexivity|].
  assert (R : roster_ok lobby) by (split; closed_nodup).
  assert (F : ~ In "p-alice2" (map p_id (players lobby))).
  { vm_compute. intros K.
    repeat (destruct K as [K | K]; [discriminate K|]). exact K. }
  destruct (X19_create_player_registers lobby "Alice" None "p-alice2"
              "2024-12-02T09:00:00.000Z" R ltac:(discriminate) F)
    as [(p & s & E & _ & _ & _ & Hs & _ & Hf & _ & Hr & _) _].
  exists p, s. auto.
Defined.

(** Alice saves her profile with the name she already has: her link moves
    from alice to alice-2. *)
Lemma X20_rename_moves_the_link_witness :
  findPlayerBySlug lobby "alice" = Some alice
  /\ fst (patch_player lobby "alice" (Some "Alice") None)
     = PlayerJson
         (Some (mk_player "p-alice" "Alice" (Some "alice-2") 0 None
                  "2024-12-01T10:00:00.000Z"))
  /\ exists s u d',
       patch_player lobby "alice" (Some "Alice") None = (PlayerJson (Some u), d')
       /\ s <> "alice"
       /\ findPlayerBySlug d' s = Some u
       /\ findPlayerBySlug d' "alice" = None.
Proof.
  split; [vm_compute; reflexivity|]. split; [vm_compute; reflexivity|].
  assert (R : roster_ok lobby) by (split; closed_nodup).
  assert (F : findPlayerBySlug lobby "alice" = Some alice)
    by (vm_compute; reflexivity).
  assert (N : JS.trim "Alice" <> "")
    by (intros K; vm_compute in K; discriminate K).
  destruct (X20_rename_moves_the_link lobby "alice" "Alice" None alice R F N)
    as (s & u & d' & E & Hne & _ & _ & _ & Hnew & Hold & _).
  exists s, u, d'. auto.
Defined.

(** The host gives Alice 2.5 points and takes them back: she gets 2, then
    the database is as before. *)
Lemma X21_adjust_score_witness :
  score_of lobby "p-alice" = Some 0
  /\ fst (adjust_score lobby "p-alice" None (Some (5 # 2)))
     = ScoreJson "p-alice" (Some (0 + JS.Math_trunc (5 # 2)))
  /\ JS.Math_trunc (5 # 2) = 2
  /\ snd (adjust_score (snd (adjust_score lobby "p-alice" None (Some (5 # 2))))
            "p-alice" None (Some (- (5 # 2))%Q))
     = lobby.
Proof.
  split; [vm_compute; reflexivity|].
  assert (N : NoDup (map p_id (players lobby))) by closed_nodup.
  assert (S0 : score_of lobby "p-alice" = Some 0) by (vm_compute; reflexivity).
  destruct (X21_adjust_score lobby "p-alice" 0 (5 # 2) None N S0)
    as (_ & (_ & H) & _).
  destruct H as (Hr & _ & Hback); try (vm_compute; split; discriminate).
  split; [exact Hr|]. split; [vm_compute; reflexivity | exact Hback].
Defined.

(** A third event is logged: three rows, nothing dropped. *)
Lemma X23_logEvent_keeps_newest_300_witness :
  exists kept,
    logEvent two_events "buzz_queued" "Bob queued to buzz" None "e-3"
      "2024-12-24T18:05:01.000Z"
    = Some (mk_event "e-3" "buzz_queued" "Bob queued to buzz" None
              "2024-12-24T18:05:01.000Z", kept)
    /\ List.length kept = 3%nat
    /\ NoDup (map e_id kept).
Proof.
  assert (N : NoDup (map e_id two_events)) by closed_nodup.
  assert (F : ~ In "e-3" (map e_id two_events)).
  { vm_compute. intros K.
    repeat (destruct K as [K | K]; [discriminate K|]). exact K. }
  destruct (X23_logEvent_keeps_newest_300 two_events "buzz_queued"
              "Bob queued to buzz" None "e-3" "2024-12-24T18:05:01.000Z" N F)
    as (kept & E & L & D & _).
  exists kept. split; [exact E|]. split; [exact L | exact D].
Defined.

(** Alice submits a question during the game; it cannot be picked until
    the host selects it. *)
Lemma X24_submitted_question_needs_selection_witness :
  exists q d1 d2,
    add_question started (Some "p-alice") (Some "Who is Rudolph?")
      (Some "A reindeer") (Some "Holidays") (Some 300) "q-9"
      "2024-12-24T18:10:00.000Z"
    = (QuestionCreated q, d1)
    /\ select_card sample_pack d1 alice_card = (Error 400 "Question not selected", d1)
    /\ admin_select_question d1 "q-9" (Some true) = (SelectedJson "q-9" true, d2)
    /\ exists g, fst (select_card sample_pack d2 alice_card) = StateJson g
                 /\ current_question_id g = Some "q-9"
                 /\ current_points g = Some 300.
Proof.
  assert (F : ~ In "q-9" (map q_id (questions started))).
  { vm_compute. intros K.
    repeat (destruct K as [K | K]; [discriminate K|]). exact K. }
  assert (P : known_player started "p-alice") by registered_as alice.
  destruct (X24_submitted_question_needs_selection sample_pack started "p-alice"
              "Who is Rudolph?" "A reindeer" (Some "Holidays") (Some 300) "q-9"
              "2024-12-24T18:10:00.000Z" alice_card P
              ltac:(discriminate) ltac:(discriminate) ltac:(discriminate) F
              eq_refl eq_refl eq_refl eq_refl)
    as (q & d1 & d2 & E & _ & _ & _ & _ & _ & _ & Href & Hsel & Hok & _).
  exists q, d1, d2. split; [exact E|]. split; [exact Href|]. split; [exact Hsel|].
  destruct Hok as (g & Hg & Hid & Hpts & _). exists g. auto.
Defined.

(** The rename of the lobby example leaves the tables consistent. *)
Lemma X25_requests_keep_the_constraints_witness :
  schema_ok lobby
  /\ schema_ok (snd (patch_player lobby "alice" (Some "Alice") None)).
Proof.
  assert (S0 : schema_ok lobby).
  { split; [split; closed_nodup|]. split; [closed_nodup|].
    intros x Hx. vm_compute in Hx. destruct Hx. }
  split; [exact S0|].
  apply (X25_requests_keep_the_constraints sample_pack lobby _ S0).
  apply api_admin. apply step_patch_player.
Defined.

(** The host unlocks while Alice holds the lock and Bob waits; Bob's next
    buzz takes the lock. *)
Lemma X26_unlock_reopens_the_buzzer_witness :
  lock_of bob_queued = (true, Some "p-alice")
  /\ buzz_queue (snd (unlock_buzzer bob_queued)) = []
  /\ lock_of (snd (buzz (snd (unlock_buzzer bob_queued)) (Some "p-bob")
                     "2024-12-24T18:06:00.000Z" "b-3" "2024-12-24T18:06:00.001Z"))
     = (true, Some "p-bob").
Proof.
  split; [vm_compute; reflexivity|].
  assert (P : known_player bob_queued "p-bob") by registered_as bob.
  destruct (X26_unlock_reopens_the_buzzer bob_queued "p-bob"
              "2024-12-24T18:06:00.000Z" "b-3" "2024-12-24T18:06:00.001Z"
              P ltac:(vm_compute; reflexivity) ltac:(vm_compute; reflexivity))
    as (Hq & _ & _ & Hl & _).
  split; [exact Hq | exact Hl].
Defined.
